(** * A shallow embedding of the dhat heap and ad hoc profiler (src/src/lib.rs)

    The program state is the mutex-protected [Phase<Globals>] singleton
    [TRI_GLOBALS], together with the poison flag of that [std::sync::Mutex]
    and the thread-local [IGNORE_ALLOCS] flag of the calling thread.

    Integer conventions: [usize] and [u64] values are [Z] in [0, 2^64).
    Arithmetic follows the debug profile used by the test suite: an
    overflowing [+=] or [-=] panics.  A panic inside a [GlobalAlloc] method
    cannot unwind out of the allocator and aborts the process, so the
    allocator entry points return [option]: [None] is an abort.  The user
    facing entry points ([HeapStats::get], [check_assert_condition]) unwind
    normally, and a panic raised while the [MutexGuard] is alive poisons the
    mutex. *)

From Stdlib Require Import ZArith Lia.
From stdpp Require Import base gmap list strings.

Local Open Scope Z_scope.

(** ** Machine integers *)

Definition WORD : Z := 2 ^ 64.

(** [a += b] on a [usize] / [u64] (overflow check of the debug profile). *)
Definition add_usize (a b : Z) : option Z :=
  if a + b <? WORD then Some (a + b) else None.

(** [a -= b] on a [usize] / [u64]. *)
Definition sub_usize (a b : Z) : option Z :=
  if b <=? a then Some (a - b) else None.

(** ** Backtraces *)

Module Symbol.
Record t := mk {
  name : option string;
  filename : option string;
  lineno : option Z;
  colno : option Z;
}.
End Symbol.

(** A [backtrace::BacktraceFrame]: its instruction pointer plus the symbol
    information that is resolved later. *)
Module Frame.
Record t := mk {
  ip : Z;
  symbols : list Symbol.t;
}.
End Frame.

(** [struct Backtrace(backtrace::Backtrace)] *)
Record Backtrace := mkBacktrace { frames : list Frame.t }.

Definition ips (bt : Backtrace) : list Z := map Frame.ip (frames bt).

(** [impl PartialEq for Backtrace]: walk both frame iterators in lockstep,
    comparing [Option] of the IPs. *)
Fixpoint frames_eq (fs1 fs2 : list Frame.t) : bool :=
  match fs1, fs2 with
  | [], [] => true                              (* both [next()] are [None] *)
  | f1 :: r1, f2 :: r2 =>
      if Z.eqb (Frame.ip f1) (Frame.ip f2) then frames_eq r1 r2 else false
  | _, _ => false                               (* [Some _ != None] *)
  end.

Definition bt_eq (b1 b2 : Backtrace) : bool := frames_eq (frames b1) (frames b2).

(** [rustc_hash::FxHasher] on a 64-bit target:
    [hash = (hash.rotate_left(5) ^ word).wrapping_mul(SEED)]. *)
Definition FX_SEED : Z := 5871781006564002453. (* 0x51_7c_c1_b7_27_22_0a_95 *)

Definition rotate_left64 (x : Z) (n : Z) : Z :=
  Z.lor (Z.shiftl x n mod WORD) (Z.shiftr x (64 - n)).

Definition fx_add_to_hash (hash word : Z) : Z :=
  (Z.lxor (rotate_left64 hash 5) word * FX_SEED) mod WORD.

(** [impl Hash for Backtrace]: one [write_usize] per frame IP (a thin raw
    pointer hashes as its address), starting from [FxHasher::default()]. *)
Definition bt_hash (bt : Backtrace) : Z :=
  fold_left (fun h f => fx_add_to_hash h (Frame.ip f)) (frames bt) 0.

(** [enum TB] *)
Inductive TB := Top | Bottom.

#[global] Instance TB_eq_dec : EqDecision TB.
Proof. solve_decision. Defined.

(** An index into a [Vec<BacktraceFrame>] that the loop guards keep in
    bounds (the default is never used). *)
Definition ip_at (fs : list Frame.t) (i : nat) : Z :=
  from_option Frame.ip 0 (fs !! i).

(** The first loop of [Backtrace::get_frames_to_trim]: from the top, in
    lockstep.  [fuel] bounds the iterations ([i1] reaches [len - 1] first). *)
Fixpoint top_walk (fuel : nat) (frames1 frames2 : list Frame.t) (i1 i2 : nat)
    (frames_to_trim : gmap Z TB) : gmap Z TB :=
  match fuel with
  | O => frames_to_trim
  | S fuel =>
      if bool_decide (i1 = length frames1 - 1)%nat
         || bool_decide (i2 = length frames2 - 1)%nat
      then filter (fun kv => kv.2 = Bottom) frames_to_trim
      else if negb (Z.eqb (ip_at frames1 i1) (ip_at frames2 i2))
      then frames_to_trim
      else top_walk fuel frames1 frames2 (S i1) (S i2)
             (<[ip_at frames1 i1 := Top]> frames_to_trim)
  end.

(** The second loop: from the bottom, in lockstep. *)
Fixpoint bottom_walk (fuel : nat) (frames1 frames2 : list Frame.t) (i1 i2 : nat)
    (frames_to_trim : gmap Z TB) : gmap Z TB :=
  match fuel with
  | O => frames_to_trim
  | S fuel =>
      if bool_decide (i1 = 0)%nat || bool_decide (i2 = 0)%nat
      then filter (fun kv => kv.2 = Top) frames_to_trim
      else if negb (Z.eqb (ip_at frames1 i1) (ip_at frames2 i2))
      then frames_to_trim
      else bottom_walk fuel frames1 frames2 (i1 - 1) (i2 - 1)
             (<[ip_at frames1 i1 := Bottom]> frames_to_trim)
  end.

(** [Backtrace::get_frames_to_trim(&self, start_bt)].  [frames.len() - 1]
    underflows (a panic) when either backtrace is empty. *)
Definition get_frames_to_trim (bt start_bt : Backtrace) : option (gmap Z TB) :=
  let frames1 := frames bt in
  let frames2 := frames start_bt in
  if bool_decide (length frames1 = 0)%nat || bool_decide (length frames2 = 0)%nat
  then None
  else
    let m := top_walk (length frames1) frames1 frames2 0 0 ∅ in
    Some (bottom_walk (length frames1) frames1 frames2
            (length frames1 - 1) (length frames2 - 1) m).

(** The closure passed to [backtrace::trace] in [new_backtrace_inner],
    run over the frames of the current call stack [stk], innermost first. *)
Fixpoint trace_frames (trim_backtraces : option nat) (frames_to_trim : gmap Z TB)
    (stk : list Frame.t) (acc : list Frame.t) : list Frame.t :=
  match stk with
  | [] => acc
  | f :: rest =>
      let verdict :=
        match trim_backtraces with
        | Some _ => frames_to_trim !! Frame.ip f
        | None => None
        end in
      match verdict with
      | Some Top => trace_frames trim_backtraces frames_to_trim rest acc
      | Some Bottom => acc
      | None =>
          let acc' := acc ++ [f] in
          let continue :=
            match trim_backtraces with
            | Some max_frames => bool_decide (length acc' < max_frames)%nat
            | None => true
            end in
          if continue then trace_frames trim_backtraces frames_to_trim rest acc'
          else acc'
      end
  end.

(** [new_backtrace_inner(trim_backtraces, frames_to_trim)] *)
Definition new_backtrace_inner (trim_backtraces : option nat)
    (frames_to_trim : gmap Z TB) (stk : list Frame.t) : Backtrace :=
  mkBacktrace (trace_frames trim_backtraces frames_to_trim stk []).

(** ** Profiler state *)

(** [struct Delta]: a change in size, used for [realloc]. *)
Record Delta := mkDelta { shrinking : bool; size : Z }.

(** [Delta::new(old_size, new_size)] *)
Definition Delta_new (old_size new_size : Z) : Delta :=
  if new_size <? old_size then mkDelta true (old_size - new_size)
  else mkDelta false (new_size - old_size).

(** [impl AddAssign<Delta> for usize] *)
Definition add_delta (x : Z) (d : Delta) : option Z :=
  if shrinking d then sub_usize x (size d) else add_usize x (size d).

Module LiveBlock.
Record t := mk {
  pp_info_idx : nat;
  allocation_instant : Z;
}.
End LiveBlock.

Module HeapPpInfo.
Record t := mk {
  curr_blocks : Z;
  curr_bytes : Z;
  max_blocks : Z;
  max_bytes : Z;
  at_tgmax_blocks : Z;
  at_tgmax_bytes : Z;
  (** A [Duration], in nanoseconds; its additions never overflow here. *)
  total_lifetimes_duration : Z;
}.
(** [#[derive(Default)]] *)
Definition default : t := mk 0 0 0 0 0 0 0.
End HeapPpInfo.

Module PpInfo.
Record t := mk {
  total_blocks : Z;
  total_bytes : Z;
  heap : option HeapPpInfo.t;
}.

Definition new_heap : t := mk 0 0 (Some HeapPpInfo.default).
Definition new_ad_hoc : t := mk 0 0 None.

(** [PpInfo::update_counts_for_alloc(&mut self, size, delta)] *)
Definition update_counts_for_alloc (p : t) (size : Z) (delta : option Delta)
    : option t :=
  tb ← add_usize (total_blocks p) 1;
  tby ← add_usize (total_bytes p) size;
  h ← heap p;                                         (* unwrap *)
  '(cb, cby) ←
    match delta with
    | Some d =>                                       (* realloc *)
        cb ← add_usize (HeapPpInfo.curr_blocks h) 0;  (* unchanged *)
        cby ← add_delta (HeapPpInfo.curr_bytes h) d;
        Some (cb, cby)
    | None =>                                         (* alloc *)
        cb ← add_usize (HeapPpInfo.curr_blocks h) 1;
        cby ← add_usize (HeapPpInfo.curr_bytes h) size;
        Some (cb, cby)
    end;
  let '(mb, mby) :=
    if HeapPpInfo.max_bytes h <=? cby then (cb, cby)
    else (HeapPpInfo.max_blocks h, HeapPpInfo.max_bytes h) in
  Some (mk tb tby (Some (HeapPpInfo.mk cb cby mb mby
          (HeapPpInfo.at_tgmax_blocks h) (HeapPpInfo.at_tgmax_bytes h)
          (HeapPpInfo.total_lifetimes_duration h)))).

(** [PpInfo::update_counts_for_dealloc(&mut self, size, alloc_duration)] *)
Definition update_counts_for_dealloc (p : t) (size alloc_duration : Z)
    : option t :=
  h ← heap p;
  cb ← sub_usize (HeapPpInfo.curr_blocks h) 1;
  cby ← sub_usize (HeapPpInfo.curr_bytes h) size;
  Some (mk (total_blocks p) (total_bytes p) (Some (HeapPpInfo.mk cb cby
          (HeapPpInfo.max_blocks h) (HeapPpInfo.max_bytes h)
          (HeapPpInfo.at_tgmax_blocks h) (HeapPpInfo.at_tgmax_bytes h)
          (HeapPpInfo.total_lifetimes_duration h + alloc_duration)))).

(** The loop body of [Globals::check_for_global_peak]. *)
Definition snapshot_at_tgmax (p : t) : option t :=
  h ← heap p;
  Some (mk (total_blocks p) (total_bytes p) (Some (HeapPpInfo.mk
          (HeapPpInfo.curr_blocks h) (HeapPpInfo.curr_bytes h)
          (HeapPpInfo.max_blocks h) (HeapPpInfo.max_bytes h)
          (HeapPpInfo.curr_blocks h) (HeapPpInfo.curr_bytes h)
          (HeapPpInfo.total_lifetimes_duration h)))).
End PpInfo.

Module HeapGlobals.
Record t := mk {
  live_blocks : gmap Z LiveBlock.t;
  curr_blocks : Z;
  curr_bytes : Z;
  max_blocks : Z;
  max_bytes : Z;
  tgmax_instant : Z;
}.
(** [HeapGlobals::new()], at instant [now]. *)
Definition new (now : Z) : t := mk ∅ 0 0 0 0 now.

Definition set_live_blocks (h : t) (lb : gmap Z LiveBlock.t) : t :=
  mk lb (curr_blocks h) (curr_bytes h) (max_blocks h) (max_bytes h)
    (tgmax_instant h).
End HeapGlobals.

Module HeapStats.
Record t := mk {
  total_blocks : Z;
  total_bytes : Z;
  curr_blocks : Z;
  curr_bytes : Z;
  max_blocks : Z;
  max_bytes : Z;
}.
End HeapStats.

Module AdHocStats.
Record t := mk {
  total_events : Z;
  total_units : Z;
}.
End AdHocStats.

(** The result of a call that can unwind. *)
Inductive Outcome (A : Type) :=
  | Returned (a : A)
  | Panicked (msg : string).
Arguments Returned {A} a.
Arguments Panicked {A} msg.

(** The [FxHashMap<Backtrace, usize>] lookup: an entry matches when its hash
    and [PartialEq] agree with the key. *)
Fixpoint bt_lookup (bts : list (Backtrace * nat)) (bt : Backtrace) : option nat :=
  match bts with
  | [] => None
  | (k, i) :: rest =>
      if Z.eqb (bt_hash k) (bt_hash bt) && bt_eq k bt then Some i
      else bt_lookup rest bt
  end.

Module Globals.
Record t := mk {
  file_name : string;
  testing : bool;
  trim_backtraces : option nat;
  eprint_json : bool;
  start_bt : Backtrace;
  frames_to_trim : option (gmap Z TB);
  start_instant : Z;
  pp_infos : list PpInfo.t;
  backtraces : list (Backtrace * nat);
  total_blocks : Z;
  total_bytes : Z;
  heap : option HeapGlobals.t;
}.

Definition set_frames_to_trim (g : t) (f : option (gmap Z TB)) : t :=
  mk (file_name g) (testing g) (trim_backtraces g) (eprint_json g) (start_bt g)
    f (start_instant g) (pp_infos g) (backtraces g) (total_blocks g)
    (total_bytes g) (heap g).

Definition set_pps (g : t) (pps : list PpInfo.t) (bts : list (Backtrace * nat)) : t :=
  mk (file_name g) (testing g) (trim_backtraces g) (eprint_json g) (start_bt g)
    (frames_to_trim g) (start_instant g) pps bts (total_blocks g)
    (total_bytes g) (heap g).

Definition set_heap (g : t) (h : option HeapGlobals.t) : t :=
  mk (file_name g) (testing g) (trim_backtraces g) (eprint_json g) (start_bt g)
    (frames_to_trim g) (start_instant g) (pp_infos g) (backtraces g)
    (total_blocks g) (total_bytes g) h.

(** [Globals::new(...)]; [stk] is the call stack seen by the start-up
    [backtrace::trace] and [now] the current [Instant]. *)
Definition new (testing : bool) (file_name : string) (trim_backtraces : option nat)
    (eprint_json : bool) (heap : option HeapGlobals.t)
    (stk : list Frame.t) (now : Z) : t :=
  mk file_name testing trim_backtraces eprint_json
    (new_backtrace_inner None ∅ stk) None now [] [] 0 0 heap.

(** [Globals::get_pp_info(&mut self, bt, new)] *)
Definition get_pp_info (g : t) (bt : Backtrace) (new : PpInfo.t) : t * nat :=
  match bt_lookup (backtraces g) bt with
  | Some idx => (g, idx)
  | None =>
      let pp_info_idx := length (pp_infos g) in
      (set_pps g (pp_infos g ++ [new]) (backtraces g ++ [(bt, pp_info_idx)]),
       pp_info_idx)
  end.

(** [Globals::record_block(&mut self, ptr, pp_info_idx, now)]; the
    [assert!(matches!(old, None))] panics on an address already live. *)
Definition record_block (g : t) (ptr : Z) (pp_info_idx : nat) (now : Z) : option t :=
  h ← heap g;
  match HeapGlobals.live_blocks h !! ptr with
  | Some _ => None
  | None =>
      Some (set_heap g (Some (HeapGlobals.set_live_blocks h
        (<[ptr := LiveBlock.mk pp_info_idx now]> (HeapGlobals.live_blocks h)))))
  end.

(** [Globals::update_counts_for_alloc(&mut self, pp_info_idx, size, delta, now)] *)
Definition update_counts_for_alloc (g : t) (pp_info_idx : nat) (size : Z)
    (delta : option Delta) (now : Z) : option t :=
  tb ← add_usize (total_blocks g) 1;
  tby ← add_usize (total_bytes g) size;
  h ← heap g;
  '(cb, cby) ←
    match delta with
    | Some d =>
        cb ← add_usize (HeapGlobals.curr_blocks h) 0;
        cby ← add_delta (HeapGlobals.curr_bytes h) d;
        Some (cb, cby)
    | None =>
        cb ← add_usize (HeapGlobals.curr_blocks h) 1;
        cby ← add_usize (HeapGlobals.curr_bytes h) size;
        Some (cb, cby)
    end;
  let h' :=
    if HeapGlobals.max_bytes h <=? cby
    then HeapGlobals.mk (HeapGlobals.live_blocks h) cb cby cb cby now
    else HeapGlobals.mk (HeapGlobals.live_blocks h) cb cby
           (HeapGlobals.max_blocks h) (HeapGlobals.max_bytes h)
           (HeapGlobals.tgmax_instant h) in
  p ← pp_infos g !! pp_info_idx;                      (* indexing panics *)
  p' ← PpInfo.update_counts_for_alloc p size delta;
  Some (mk (file_name g) (testing g) (trim_backtraces g) (eprint_json g)
          (start_bt g) (frames_to_trim g) (start_instant g)
          (<[pp_info_idx := p']> (pp_infos g)) (backtraces g) tb tby (Some h')).

(** [Globals::update_counts_for_dealloc(&mut self, pp_info_idx, size, alloc_duration)] *)
Definition update_counts_for_dealloc (g : t) (pp_info_idx : nat)
    (size alloc_duration : Z) : option t :=
  h ← heap g;
  cb ← sub_usize (HeapGlobals.curr_blocks h) 1;
  cby ← sub_usize (HeapGlobals.curr_bytes h) size;
  let h' := HeapGlobals.mk (HeapGlobals.live_blocks h) cb cby
              (HeapGlobals.max_blocks h) (HeapGlobals.max_bytes h)
              (HeapGlobals.tgmax_instant h) in
  p ← pp_infos g !! pp_info_idx;
  p' ← PpInfo.update_counts_for_dealloc p size alloc_duration;
  Some (set_heap (set_pps g (<[pp_info_idx := p']> (pp_infos g)) (backtraces g))
          (Some h')).

(** [Globals::check_for_global_peak(&mut self)] *)
Definition check_for_global_peak (g : t) : option t :=
  h ← heap g;
  if Z.eqb (HeapGlobals.curr_bytes h) (HeapGlobals.max_bytes h) then
    pps ← mapM PpInfo.snapshot_at_tgmax (pp_infos g);
    Some (set_pps g pps (backtraces g))
  else Some g.

(** [Globals::get_heap_stats(&self)] *)
Definition get_heap_stats (g : t) : Outcome HeapStats.t :=
  match heap g with
  | Some h => Returned (HeapStats.mk (total_blocks g) (total_bytes g)
                (HeapGlobals.curr_blocks h) (HeapGlobals.curr_bytes h)
                (HeapGlobals.max_blocks h) (HeapGlobals.max_bytes h))
  | None => Panicked "dhat: getting heap stats while doing ad hoc profiling"
  end.

(** [Globals::get_ad_hoc_stats(&self)] *)
Definition get_ad_hoc_stats (g : t) : Outcome AdHocStats.t :=
  match heap g with
  | None => Returned (AdHocStats.mk (total_blocks g) (total_bytes g))
  | Some _ => Panicked "dhat: getting ad hoc stats while doing heap profiling"
  end.
End Globals.

(** [macro_rules! new_backtrace]: on the first use, compare a full backtrace
    of the current stack [stk] with [start_bt] to fix [frames_to_trim]; then
    take the trimmed backtrace. *)
Definition new_backtrace (g : Globals.t) (stk : list Frame.t)
    : option (Globals.t * Backtrace) :=
  g1 ← match Globals.frames_to_trim g with
       | None =>
           let bt := new_backtrace_inner None ∅ stk in
           ftt ← get_frames_to_trim bt (Globals.start_bt g);
           Some (Globals.set_frames_to_trim g (Some ftt))
       | Some _ => Some g
       end;
  ftt ← Globals.frames_to_trim g1;                       (* unwrap *)
  Some (g1, new_backtrace_inner (Globals.trim_backtraces g1) ftt stk).

(** [enum Phase<T>], instantiated at [Globals]. *)
Inductive Phase :=
  | Ready
  | Running (g : Globals.t)
  | PostAssert.

(** The process-wide state: the calling thread's [IGNORE_ALLOCS] flag, the
    poison flag of the [Mutex] around [TRI_GLOBALS], the phase it protects,
    and the profiles written so far by [Globals::finish] (a profile is
    determined by the [Globals] that [finish] consumes). *)
Record World := mkWorld {
  ignoring : bool;
  poisoned : bool;
  phase : Phase;
  emitted : list Globals.t;
}.

Definition set_phase (w : World) (p : Phase) : World :=
  mkWorld (ignoring w) (poisoned w) p (emitted w).

(** Dropping the [MutexGuard] while unwinding marks the mutex poisoned. *)
Definition poison (w : World) : World :=
  mkWorld (ignoring w) true (phase w) (emitted w).

(** The panic of [TRI_GLOBALS.lock().unwrap()] on a poisoned mutex. *)
Definition POISON_MSG : string :=
  "called `Result::unwrap()` on an `Err` value: PoisonError { .. }".

(** The panic of [std::assert!(!ignore_allocs.was_already_ignoring_allocs)]. *)
Definition IGNORE_MSG : string :=
  "assertion failed: !ignore_allocs.was_already_ignoring_allocs".

(** ** The allocator: [unsafe impl GlobalAlloc for Alloc]

    [sys_ptr] is the pointer returned by the wrapped [System] allocator
    (0 is null), [stk] the current call stack as [backtrace::trace] walks
    it, and [now] the value of [Instant::now()]. *)

(** Whether a call reaches the wrapped allocator: either it is a nested call
    forwarded directly, or [TRI_GLOBALS.lock().unwrap()] succeeded. *)
Definition inner_reached (w : World) : bool :=
  ignoring w || negb (poisoned w).

(** [Alloc::alloc(&self, layout)] *)
Definition alloc (w : World) (layout_size sys_ptr : Z) (stk : list Frame.t) (now : Z)
    : option (Z * World) :=
  if ignoring w then Some (sys_ptr, w)                 (* System.alloc(layout) *)
  else if poisoned w then None                         (* unwrap panics: abort *)
  else if Z.eqb sys_ptr 0 then Some (sys_ptr, w)
  else
    match phase w with
    | Running g =>
        match Globals.heap g with
        | Some _ =>
            '(g1, bt) ← new_backtrace g stk;
            let '(g2, pp_info_idx) := Globals.get_pp_info g1 bt PpInfo.new_heap in
            g3 ← Globals.record_block g2 sys_ptr pp_info_idx now;
            g4 ← Globals.update_counts_for_alloc g3 pp_info_idx layout_size None now;
            Some (sys_ptr, set_phase w (Running g4))
        | None => Some (sys_ptr, w)
        end
    | _ => Some (sys_ptr, w)
    end.

(** [Alloc::realloc(&self, old_ptr, layout, new_size)]; [old_size] is
    [layout.size()]. *)
Definition realloc (w : World) (old_ptr old_size new_size sys_ptr : Z)
    (stk : list Frame.t) (now : Z) : option (Z * World) :=
  if ignoring w then Some (sys_ptr, w)
  else if poisoned w then None
  else if Z.eqb sys_ptr 0 then Some (sys_ptr, w)
  else
    match phase w with
    | Running g =>
        match Globals.heap g with
        | Some _ =>
            let delta := Delta_new old_size new_size in
            g1 ← (if shrinking delta then Globals.check_for_global_peak g else Some g);
            h ← Globals.heap g1;
            let live_block := HeapGlobals.live_blocks h !! old_ptr in
            let g2 := Globals.set_heap g1 (Some (HeapGlobals.set_live_blocks h
                        (delete old_ptr (HeapGlobals.live_blocks h)))) in
            '(g3, pp_info_idx, delta) ←
              match live_block with
              | Some lb => Some (g2, LiveBlock.pp_info_idx lb, Some delta)
              | None =>
                  '(g', bt) ← new_backtrace g2 stk;
                  let '(g'', idx) := Globals.get_pp_info g' bt PpInfo.new_heap in
                  Some (g'', idx, None)
              end;
            g4 ← Globals.record_block g3 sys_ptr pp_info_idx now;
            g5 ← Globals.update_counts_for_alloc g4 pp_info_idx new_size delta now;
            Some (sys_ptr, set_phase w (Running g5))
        | None => Some (sys_ptr, w)
        end
    | _ => Some (sys_ptr, w)
    end.

(** [Alloc::dealloc(&self, ptr, layout)]; [size] is [layout.size()]. *)
Definition dealloc (w : World) (ptr size : Z) (now : Z) : option World :=
  if ignoring w then Some w                            (* System.dealloc *)
  else if poisoned w then None
  else
    match phase w with
    | Running g =>
        match Globals.heap g with
        | Some h =>
            let removed := HeapGlobals.live_blocks h !! ptr in
            let g1 := Globals.set_heap g (Some (HeapGlobals.set_live_blocks h
                        (delete ptr (HeapGlobals.live_blocks h)))) in
            match removed with
            | Some lb =>
                g2 ← Globals.check_for_global_peak g1;
                let alloc_duration := Z.max 0 (now - LiveBlock.allocation_instant lb) in
                g3 ← Globals.update_counts_for_dealloc g2 (LiveBlock.pp_info_idx lb)
                       size alloc_duration;
                Some (set_phase w (Running g3))
            | None => Some (set_phase w (Running g1))
            end
        | None => Some w
        end
    | _ => Some w
    end.

(** ** Lifecycle and statistics entry points *)

(** [struct ProfilerBuilder] *)
Record ProfilerBuilder := mkProfilerBuilder {
  ad_hoc : bool;
  b_testing : bool;
  b_file_name : option string;
  b_trim_backtraces : option nat;
  b_eprint_json : bool;
}.

(** [Profiler::builder()] *)
Definition builder : ProfilerBuilder :=
  mkProfilerBuilder false false None (Some 10%nat) false.

(** [ProfilerBuilder::build(self)]; [stk] and [now] are seen by the
    start-up backtrace and [Instant::now()]. *)
Definition build (w : World) (b : ProfilerBuilder) (stk : list Frame.t) (now : Z)
    : Outcome unit * World :=
  if ignoring w then (Panicked IGNORE_MSG, w)
  else if poisoned w then (Panicked POISON_MSG, w)
  else
    match phase w with
    | Ready =>
        let file_name :=
          match b_file_name b with
          | Some f => f
          | None => if negb (ad_hoc b) then "dhat-heap.json" else "dhat-ad-hoc.json"
          end in
        let h := if negb (ad_hoc b) then Some (HeapGlobals.new now) else None in
        (Returned tt, set_phase w (Running (Globals.new (b_testing b) file_name
                                  (b_trim_backtraces b) (b_eprint_json b) h stk now)))
    | Running _ | PostAssert =>
        (Panicked "dhat: creating a profiler while a profiler is already running",
         poison w)
    end.

(** [HeapStats::get()] *)
Definition HeapStats_get (w : World) : Outcome HeapStats.t * World :=
  if ignoring w then (Panicked IGNORE_MSG, w)
  else if poisoned w then (Panicked POISON_MSG, w)
  else
    match phase w with
    | Ready => (Panicked "dhat: getting heap stats when no profiler is running", poison w)
    | Running g =>
        match Globals.get_heap_stats g with
        | Returned s => (Returned s, w)
        | Panicked m => (Panicked m, poison w)
        end
    | PostAssert =>
        (Panicked "dhat: getting heap stats after the profiler has asserted", poison w)
    end.

(** [AdHocStats::get()] *)
Definition AdHocStats_get (w : World) : Outcome AdHocStats.t * World :=
  if ignoring w then (Panicked IGNORE_MSG, w)
  else if poisoned w then (Panicked POISON_MSG, w)
  else
    match phase w with
    | Ready => (Panicked "dhat: getting ad hoc stats when no profiler is running", poison w)
    | Running g =>
        match Globals.get_ad_hoc_stats g with
        | Returned s => (Returned s, w)
        | Panicked m => (Panicked m, poison w)
        end
    | PostAssert =>
        (Panicked "dhat: getting ad hoc stats after the profiler has asserted", poison w)
    end.

(** [check_assert_condition(cond)]; [cond] is the value [cond()] would
    return (it is only called on the [Running], testing path).  On failure the
    phase becomes [PostAssert] and [g.finish(None)] writes the profile. *)
Definition check_assert_condition (w : World) (cond : bool) : Outcome bool * World :=
  if ignoring w then (Panicked IGNORE_MSG, w)
  else if poisoned w then (Panicked POISON_MSG, w)
  else
    match phase w with
    | Ready => (Panicked "dhat: asserting when no profiler is running", poison w)
    | Running g =>
        if negb (Globals.testing g) then
          (Panicked "dhat: asserting while not in testing mode", poison w)
        else if cond then (Returned false, w)
        else (Returned true,
              mkWorld (ignoring w) (poisoned w) PostAssert (emitted w ++ [g]))
    | PostAssert =>
        (Panicked "dhat: asserting after the profiler has asserted", poison w)
    end.

(** ** Runs of intercepted heap events *)

Inductive Event :=
  | EvAlloc (size sys_ptr : Z) (stk : list Frame.t) (now : Z)
  | EvRealloc (old_ptr old_size new_size sys_ptr : Z) (stk : list Frame.t) (now : Z)
  | EvDealloc (ptr size : Z) (now : Z).

Definition step (w : World) (e : Event) : option World :=
  match e with
  | EvAlloc size p stk now => '(_, w') ← alloc w size p stk now; Some w'
  | EvRealloc q old_size new_size p stk now =>
      '(_, w') ← realloc w q old_size new_size p stk now; Some w'
  | EvDealloc q size now => dealloc w q size now
  end.

(** The worlds after each event; [None] when an event aborts the process. *)
Fixpoint run (w : World) (es : list Event) : option (list World) :=
  match es with
  | [] => Some []
  | e :: es' =>
      w1 ← step w e;
      ws ← run w1 es';
      Some (w1 :: ws)
  end.

(** ** Further entry points *)

(** [ProfilerBuilder::ad_hoc(self)] *)
Definition ProfilerBuilder_ad_hoc (b : ProfilerBuilder) : ProfilerBuilder :=
  mkProfilerBuilder true (b_testing b) (b_file_name b) (b_trim_backtraces b) (b_eprint_json b).

(** [ProfilerBuilder::testing(self)] *)
Definition ProfilerBuilder_testing (b : ProfilerBuilder) : ProfilerBuilder :=
  mkProfilerBuilder (ad_hoc b) true (b_file_name b) (b_trim_backtraces b) (b_eprint_json b).

(** [ProfilerBuilder::file_name(self, file_name)] *)
Definition ProfilerBuilder_file_name (b : ProfilerBuilder) (file_name : string)
    : ProfilerBuilder :=
  mkProfilerBuilder (ad_hoc b) (b_testing b) (Some file_name) (b_trim_backtraces b)
    (b_eprint_json b).

(** [ProfilerBuilder::trim_backtraces(self, max_frames)]:
    [max_frames.map(|m| std::cmp::max(m, 4))] *)
Definition ProfilerBuilder_trim_backtraces (b : ProfilerBuilder) (max_frames : option nat)
    : ProfilerBuilder :=
  mkProfilerBuilder (ad_hoc b) (b_testing b) (b_file_name b)
    (option_map (fun m => Nat.max m 4) max_frames) (b_eprint_json b).

(** [ProfilerBuilder::eprint_json(self)] *)
Definition ProfilerBuilder_eprint_json (b : ProfilerBuilder) : ProfilerBuilder :=
  mkProfilerBuilder (ad_hoc b) (b_testing b) (b_file_name b) (b_trim_backtraces b) true.

(** The panic of [unreachable!()]. *)
Definition UNREACHABLE_MSG : string := "internal error: entered unreachable code".

(** [Profiler::drop_inner(&mut self, memory_output)]: [std::mem::replace]
    puts [Phase::Ready] back before the match; a non-testing profiler is
    finished, which writes its profile. *)
Definition drop_inner (w : World) : Outcome unit * World :=
  if ignoring w then (Panicked IGNORE_MSG, w)
  else if poisoned w then (Panicked POISON_MSG, w)
  else
    match phase w with
    | Ready => (Panicked UNREACHABLE_MSG, poison (set_phase w Ready))
    | Running g =>
        if negb (Globals.testing g)
        then (Returned tt, mkWorld (ignoring w) (poisoned w) Ready (emitted w ++ [g]))
        else (Returned tt, set_phase w Ready)
    | PostAssert => (Returned tt, set_phase w Ready)
    end.

(** The panics of overflowing arithmetic (debug profile), of indexing and of
    [std::assert!]; Rust appends the length and the index to the indexing
    message. *)
Definition ADD_OVERFLOW_MSG : string := "attempt to add with overflow".
Definition SUB_OVERFLOW_MSG : string := "attempt to subtract with overflow".
Definition INDEX_MSG : string := "index out of bounds".
Definition HEAP_IS_NONE_MSG : string := "assertion failed: self.heap.is_none()".

(** [add_usize] that unwinds on overflow. *)
Definition add_or_panic (a b : Z) : Outcome Z :=
  match add_usize a b with
  | Some c => Returned c
  | None => Panicked ADD_OVERFLOW_MSG
  end.

(** [PpInfo::update_counts_for_ad_hoc_event(&mut self, weight)] *)
Definition PpInfo_update_counts_for_ad_hoc_event (p : PpInfo.t) (weight : Z)
    : Outcome PpInfo.t :=
  match PpInfo.heap p with
  | Some _ => Panicked HEAP_IS_NONE_MSG
  | None =>
      match add_or_panic (PpInfo.total_blocks p) 1 with
      | Panicked m => Panicked m
      | Returned tb =>
          match add_or_panic (PpInfo.total_bytes p) weight with
          | Panicked m => Panicked m
          | Returned tby => Returned (PpInfo.mk tb tby (PpInfo.heap p))
          end
      end
  end.

(** [Globals::update_counts_for_ad_hoc_event(&mut self, pp_info_idx, weight)] *)
Definition Globals_update_counts_for_ad_hoc_event (g : Globals.t) (pp_info_idx : nat)
    (weight : Z) : Outcome Globals.t :=
  match Globals.heap g with
  | Some _ => Panicked HEAP_IS_NONE_MSG
  | None =>
      match add_or_panic (Globals.total_blocks g) 1 with
      | Panicked m => Panicked m
      | Returned tb =>
          match add_or_panic (Globals.total_bytes g) weight with
          | Panicked m => Panicked m
          | Returned tby =>
              match Globals.pp_infos g !! pp_info_idx with
              | None => Panicked INDEX_MSG
              | Some p =>
                  match PpInfo_update_counts_for_ad_hoc_event p weight with
                  | Panicked m => Panicked m
                  | Returned p' =>
                      Returned (Globals.mk (Globals.file_name g) (Globals.testing g)
                        (Globals.trim_backtraces g) (Globals.eprint_json g)
                        (Globals.start_bt g) (Globals.frames_to_trim g)
                        (Globals.start_instant g)
                        (<[pp_info_idx := p']> (Globals.pp_infos g))
                        (Globals.backtraces g) tb tby (Globals.heap g))
                  end
              end
          end
      end
  end.

(** [ad_hoc_event(weight)]; [stk] is the current call stack.  A panic while
    the guard is held poisons the mutex; the only way [new_backtrace] fails
    is the [frames.len() - 1] of [get_frames_to_trim] on an empty backtrace. *)
Definition ad_hoc_event (w : World) (weight : Z) (stk : list Frame.t) : Outcome unit * World :=
  if ignoring w then (Panicked IGNORE_MSG, w)
  else if poisoned w then (Panicked POISON_MSG, w)
  else
    match phase w with
    | Running g =>
        match Globals.heap g with
        | None =>
            match new_backtrace g stk with
            | None => (Panicked SUB_OVERFLOW_MSG, poison w)
            | Some (g1, bt) =>
                let '(g2, pp_info_idx) := Globals.get_pp_info g1 bt PpInfo.new_ad_hoc in
                match Globals_update_counts_for_ad_hoc_event g2 pp_info_idx weight with
                | Returned g3 => (Returned tt, set_phase w (Running g3))
                | Panicked m => (Panicked m, poison w)
                end
            end
        | Some _ => (Returned tt, w)
        end
    | _ => (Returned tt, w)
    end.

(** [std::path::Component] *)
Inductive Component :=
  | Prefix (s : string)
  | RootDir
  | CurDir
  | ParentDir
  | Normal (s : string).

(** [Iterator::nth(n)] on [Path::components()]: consumes [n + 1] components
    and returns the last one consumed. *)
Fixpoint components_nth (n : nat) (c : list Component) : option Component * list Component :=
  match c with
  | [] => (None, [])
  | x :: rest =>
      match n with
      | O => (Some x, rest)
      | S n' => components_nth n' rest
      end
  end.

(** [trim_path(path)]; a [Path] is given by its components, and
    [c.as_path()] is the path of the components not yet consumed. *)
Definition trim_path (path : list Component) : list Component :=
  let N := 3%nat in
  let len := length path in
  if bool_decide (N < len)%nat then (components_nth (len - (N + 1)) path).2 else path.

(** [self.0.frames().iter().map(|f| f.symbols().iter()).flatten()] *)
Definition bt_symbols (bt : Backtrace) : list Symbol.t :=
  concat (map Frame.symbols (frames bt)).

(** The reverse scan of [Backtrace::first_symbol_to_show], over the pairs of
    [symbols.iter().enumerate().rev()]; a symbol's name is its [{:#}] form. *)
Fixpoint first_symbol_scan (p : string -> bool) (l : list (nat * Symbol.t)) : nat :=
  match l with
  | [] => O
  | (i, symbol) :: rest =>
      match Symbol.name symbol with
      | Some s => if p s then i else first_symbol_scan p rest
      | None => first_symbol_scan p rest
      end
  end.

(** [Backtrace::first_symbol_to_show(&self, p)] *)
Definition first_symbol_to_show (p : string -> bool) (bt : Backtrace) : nat :=
  let symbols := bt_symbols bt in
  first_symbol_scan p (reverse (zip (seq 0 (length symbols)) symbols)).

(** The predicate of [Backtrace::first_heap_symbol_to_show]. *)
Definition is_heap_symbol (s : string) : bool :=
  String.prefix "alloc::alloc::" s || String.prefix "<alloc::alloc::" s ||
  String.prefix "<dhat::Alloc" s || String.prefix "__rg_" s.

(** [Backtrace::first_heap_symbol_to_show(&self)] *)
Definition first_heap_symbol_to_show (bt : Backtrace) : nat :=
  first_symbol_to_show is_heap_symbol bt.

(** [Backtrace::first_ad_hoc_symbol_to_show(&self)] *)
Definition first_ad_hoc_symbol_to_show (bt : Backtrace) : nat := O.

(** [struct PpInfoJson]; durations are in nanoseconds, [as_micros()]
    divides by 1000. *)
Module PpInfoJson.
Record t := mk {
  tb : Z;
  tbk : Z;
  tl : option Z;
  mb : option Z;
  mbk : option Z;
  gb : option Z;
  gbk : option Z;
  eb : option Z;
  ebk : option Z;
  fs : list nat;
}.

(** [PpInfoJson::new(pp_info, fs)] *)
Definition new (pp_info : PpInfo.t) (fs : list nat) : t :=
  match PpInfo.heap pp_info with
  | Some h =>
      mk (PpInfo.total_bytes pp_info) (PpInfo.total_blocks pp_info)
        (Some (HeapPpInfo.total_lifetimes_duration h / 1000))
        (Some (HeapPpInfo.max_bytes h)) (Some (HeapPpInfo.max_blocks h))
        (Some (HeapPpInfo.at_tgmax_bytes h)) (Some (HeapPpInfo.at_tgmax_blocks h))
        (Some (HeapPpInfo.curr_bytes h)) (Some (HeapPpInfo.curr_blocks h)) fs
  | None =>
      mk (PpInfo.total_bytes pp_info) (PpInfo.total_blocks pp_info)
        None None None None None None None fs
  end.
End PpInfoJson.

(** ** The frame table of [Globals::finish]

    The string of a frame is [Backtrace::frame_to_string(frame, symbol)], a
    [format!] of the frame's IP and the symbol's name, file, line and
    column; the table is built the same way whatever that string is. *)
Section FrameTable.
Variable frame_to_string : Frame.t -> Symbol.t -> string.

(** [ftbl_indices.entry(s).or_insert_with(|| { next_ftbl_idx += 1;
    next_ftbl_idx - 1 })], with the state [(ftbl_indices, next_ftbl_idx)]. *)
Definition ftbl_entry (st : gmap string nat * nat) (s : string)
    : (gmap string nat * nat) * nat :=
  let '(ftbl_indices, next_ftbl_idx) := st in
  match ftbl_indices !! s with
  | Some ftbl_idx => (st, ftbl_idx)
  | None => ((<[s := next_ftbl_idx]> ftbl_indices, S next_ftbl_idx), next_ftbl_idx)
  end.

(** [for frame in bt.0.frames() { for symbol in frame.symbols() { ... } }],
    flattened into its (frame, symbol) pairs. *)
Definition frame_symbol_pairs (bt : Backtrace) : list (Frame.t * Symbol.t) :=
  concat (map (fun f => map (fun s => (f, s)) (Frame.symbols f)) (frames bt)).

(** The body of that loop, with the counter [i] and the vector [fs]. *)
Fixpoint finish_fs (first_symbol_to_show : nat) (i : nat)
    (pairs : list (Frame.t * Symbol.t)) (st : gmap string nat * nat) (fs : list nat)
    : (gmap string nat * nat) * list nat :=
  match pairs with
  | [] => (st, fs)
  | (frame, symbol) :: rest =>
      let i := S i in
      if bool_decide (i - 1 < first_symbol_to_show)%nat
      then finish_fs first_symbol_to_show i rest st fs
      else
        let s := frame_to_string frame symbol in
        let '(st, ftbl_idx) := ftbl_entry st s in
        finish_fs first_symbol_to_show i rest st (fs ++ [ftbl_idx])
  end.

(** The choice of [first_symbol_to_show] for a backtrace of [g]. *)
Definition finish_first_symbol (g : Globals.t) (bt : Backtrace) : nat :=
  match Globals.trim_backtraces g with
  | Some _ =>
      match Globals.heap g with
      | Some _ => first_heap_symbol_to_show bt
      | None => first_ad_hoc_symbol_to_show bt
      end
  | None => O
  end.

(** The [.map(|(mut bt, pp_info_idx)| ...).collect()] over the backtraces,
    in the map's iteration order; [self.pp_infos[pp_info_idx]] panics out
    of bounds. *)
Fixpoint finish_pps (g : Globals.t) (bts : list (Backtrace * nat))
    (st : gmap string nat * nat) : option ((gmap string nat * nat) * list PpInfoJson.t) :=
  match bts with
  | [] => Some (st, [])
  | (bt, pp_info_idx) :: rest =>
      let '(st, fs) := finish_fs (finish_first_symbol g bt) 0 (frame_symbol_pairs bt) st [] in
      p ← Globals.pp_infos g !! pp_info_idx;
      '(st, pps) ← finish_pps g rest st;
      Some (st, PpInfoJson.new p fs :: pps)
  end.

(** [let mut ftbl = vec![String::new(); ftbl_indices.len()];
    for (frame, ftbl_idx) in ftbl_indices { ftbl[ftbl_idx] = frame; }] *)
Definition finish_ftbl (ftbl_indices : gmap string nat) : option (list string) :=
  map_fold (fun frame ftbl_idx acc =>
              ftbl ← acc;
              if bool_decide (ftbl_idx < length ftbl)%nat
              then Some (<[ftbl_idx := frame]> ftbl) else None)
    (Some (replicate (stdpp.base.size ftbl_indices) EmptyString)) ftbl_indices.

(** The [pps] and [ftbl] of the [DhatJson] written by [finish], starting
    from [{"[root]": 0}] and [next_ftbl_idx = 1]. *)
Definition finish_frames (g : Globals.t) : option (list PpInfoJson.t * list string) :=
  '(st, pps) ← finish_pps g (Globals.backtraces g) ({["[root]" := O]}, 1%nat);
  ftbl ← finish_ftbl st.1;
  Some (pps, ftbl).

(** The frame strings a backtrace shows: those after its first
    [first_symbol_to_show] symbols. *)
Definition shown_frames (first : nat) (bt : Backtrace) : list string :=
  map (fun fs => frame_to_string fs.1 fs.2) (drop first (frame_symbol_pairs bt)).
End FrameTable.

(** * Specification-side notions *)

(** A [usize] argument. *)
Definition usize_ok (x : Z) : Prop := 0 <= x < WORD.

(** The arguments of an event are [usize] values. *)
Definition event_wf (e : Event) : Prop :=
  match e with
  | EvAlloc size p _ _ => usize_ok size /\ usize_ok p
  | EvRealloc q old_size new_size p _ _ =>
      usize_ok q /\ usize_ok old_size /\ usize_ok new_size /\ usize_ok p
  | EvDealloc q size _ => usize_ok q /\ usize_ok size
  end.

(** ** Sample inputs, used by the witnesses and counterexamples

    A start-up stack and three allocation sites that share its top two
    frames (backtracing internals) and its bottom two frames (below [main]). *)
Definition frame_at (ip : Z) : Frame.t := Frame.mk ip [].
Definition stk_start : list Frame.t := map frame_at [1; 2; 10; 90; 91].
Definition stk_a : list Frame.t := map frame_at [1; 2; 20; 30; 90; 91].
Definition stk_b : list Frame.t := map frame_at [1; 2; 20; 31; 90; 91].

Definition world_ready : World := mkWorld false false Ready [].

(** [Profiler::new_heap()] and [Profiler::builder().testing().build()]. *)
Definition world_heap : World := snd (build world_ready builder stk_start 0).
Definition world_testing : World :=
  snd (build world_ready
         (mkProfilerBuilder false true None (Some 10%nat) false) stk_start 0).

(** ** Auxiliary notions of the proofs *)

(** A sequence of [get_pp_info] calls. *)
Definition get_pp_infos (g : Globals.t) (calls : list (Backtrace * PpInfo.t)) : Globals.t :=
  fold_left (fun g c => fst (Globals.get_pp_info g c.1 c.2)) calls g.

(** How the current counts move in [update_counts_for_alloc]. *)
Definition counts_step (cb cby size : Z) (delta : option Delta) (cb' cby' : Z) : Prop :=
  match delta with
  | Some d => add_usize cb 0 = Some cb' /\ add_delta cby d = Some cby'
  | None => add_usize cb 1 = Some cb' /\ add_usize cby size = Some cby'
  end.

(** The heap globals after the peak test of [Globals::update_counts_for_alloc],
    with live table [live] and new current counts [cb], [cby]. *)
Definition raise_counts (h : HeapGlobals.t) (live : gmap Z LiveBlock.t)
    (cb cby now : Z) : HeapGlobals.t :=
  if HeapGlobals.max_bytes h <=? cby then HeapGlobals.mk live cb cby cb cby now
  else HeapGlobals.mk live cb cby (HeapGlobals.max_blocks h)
         (HeapGlobals.max_bytes h) (HeapGlobals.tgmax_instant h).

(** The counters of a PP other than its at-t-gmax snapshot. *)
Definition pp_counters (p : PpInfo.t) : Z * Z * option (Z * Z * Z * Z * Z) :=
  (PpInfo.total_blocks p, PpInfo.total_bytes p,
   option_map (fun h => (HeapPpInfo.curr_blocks h, HeapPpInfo.curr_bytes h,
                        HeapPpInfo.max_blocks h, HeapPpInfo.max_bytes h,
                        HeapPpInfo.total_lifetimes_duration h)) (PpInfo.heap p)).

(** What an intercepted event does to the heap globals, by cases on the
    path taken through [alloc], [realloc] and [dealloc]. *)
Inductive heap_effect : Event -> HeapGlobals.t -> HeapGlobals.t -> Prop :=
  | he_alloc_null size stk now h :
      heap_effect (EvAlloc size 0 stk now) h h
  | he_alloc size p stk now h idx :
      p <> 0 -> HeapGlobals.live_blocks h !! p = None ->
      heap_effect (EvAlloc size p stk now) h
        (raise_counts h (<[p := LiveBlock.mk idx now]> (HeapGlobals.live_blocks h))
           (HeapGlobals.curr_blocks h + 1) (HeapGlobals.curr_bytes h + size) now)
  | he_realloc_null q old_size new_size stk now h :
      heap_effect (EvRealloc q old_size new_size 0 stk now) h h
  | he_realloc_tracked q old_size new_size p stk now h lb :
      p <> 0 -> HeapGlobals.live_blocks h !! q = Some lb ->
      delete q (HeapGlobals.live_blocks h) !! p = None ->
      heap_effect (EvRealloc q old_size new_size p stk now) h
        (raise_counts h (<[p := LiveBlock.mk (LiveBlock.pp_info_idx lb) now]>
                           (delete q (HeapGlobals.live_blocks h)))
           (HeapGlobals.curr_blocks h) (HeapGlobals.curr_bytes h + new_size - old_size) now)
  | he_realloc_untracked q old_size new_size p stk now h idx :
      p <> 0 -> HeapGlobals.live_blocks h !! q = None ->
      HeapGlobals.live_blocks h !! p = None ->
      heap_effect (EvRealloc q old_size new_size p stk now) h
        (raise_counts h (<[p := LiveBlock.mk idx now]> (HeapGlobals.live_blocks h))
           (HeapGlobals.curr_blocks h + 1) (HeapGlobals.curr_bytes h + new_size) now)
  | he_dealloc_tracked q size now h lb :
      HeapGlobals.live_blocks h !! q = Some lb -> size <= HeapGlobals.curr_bytes h ->
      heap_effect (EvDealloc q size now) h
        (HeapGlobals.mk (delete q (HeapGlobals.live_blocks h))
           (HeapGlobals.curr_blocks h - 1) (HeapGlobals.curr_bytes h - size)
           (HeapGlobals.max_blocks h) (HeapGlobals.max_bytes h)
           (HeapGlobals.tgmax_instant h))
  | he_dealloc_untracked q size now h :
      HeapGlobals.live_blocks h !! q = None ->
      heap_effect (EvDealloc q size now) h h.

(** The heap globals of a world, when a heap profiler is running. *)
Definition heap_of (w : World) : option HeapGlobals.t :=
  match phase w with
  | Running g => Globals.heap g
  | _ => None
  end.

(** The peak property of a trace [tr] of heap globals ending in [hn]:
    [max_bytes] is the largest [curr_bytes] seen, and [max_blocks] is the
    [curr_blocks] of the latest state at which [curr_bytes] reached it. *)
Definition peak_spec (tr : list HeapGlobals.t) (hn : HeapGlobals.t) : Prop :=
  (forall x, x ∈ tr -> HeapGlobals.curr_bytes x <= HeapGlobals.max_bytes hn) /\
  exists pre x post, tr = pre ++ x :: post /\
    HeapGlobals.curr_bytes x = HeapGlobals.max_bytes hn /\
    HeapGlobals.curr_blocks x = HeapGlobals.max_blocks hn /\
    forall y, y ∈ post -> HeapGlobals.curr_bytes y < HeapGlobals.max_bytes hn.

(** [GlobalAlloc::dealloc] is never called with a zero-sized layout. *)
Definition dealloc_pos (e : Event) : Prop :=
  match e with
  | EvDealloc _ size _ => 0 < size
  | _ => True
  end.

(** The caller's side of the [GlobalAlloc] contract, over a ghost map [H]
    from each address the program holds to the size it was allocated with
    (blocks allocated before the profiler started included): [realloc] and
    [dealloc] are given a held address with its layout size. *)
Definition contract (H : gmap Z Z) (e : Event) : Prop :=
  match e with
  | EvAlloc _ _ _ _ => True
  | EvRealloc q old_size _ _ _ _ => H !! q = Some old_size
  | EvDealloc q size _ => H !! q = Some size
  end.

(** The ghost map after an event; a failed (null) allocation changes nothing. *)
Definition heap_after (H : gmap Z Z) (e : Event) : gmap Z Z :=
  match e with
  | EvAlloc size p _ _ => if Z.eqb p 0 then H else <[p := size]> H
  | EvRealloc q _ new_size p _ _ => if Z.eqb p 0 then H else <[p := new_size]> (delete q H)
  | EvDealloc q _ _ => delete q H
  end.

Fixpoint contract_run (H : gmap Z Z) (es : list Event) : Prop :=
  match es with
  | [] => True
  | e :: es' => contract H e /\ contract_run (heap_after H e) es'
  end.

(** The sum of the sizes of the blocks of the live-block table. *)
Definition live_sum (H : gmap Z Z) (live : gmap Z LiveBlock.t) : Z :=
  map_fold (fun a _ acc => from_option id 0 (H !! a) + acc) 0 live.

(** The global current counts describe the live-block table. *)
Definition live_ok (H : gmap Z Z) (h : HeapGlobals.t) : Prop :=
  (forall a, is_Some (HeapGlobals.live_blocks h !! a) -> is_Some (H !! a)) /\
  HeapGlobals.curr_bytes h = live_sum H (HeapGlobals.live_blocks h) /\
  HeapGlobals.curr_blocks h = Z.of_nat (stdpp.base.size (HeapGlobals.live_blocks h)).

(** The per-PP inequality [total_bytes >= max_bytes >= curr_bytes]. *)
Definition pp_ok (p : PpInfo.t) : Prop :=
  match PpInfo.heap p with
  | Some hp => HeapPpInfo.max_bytes hp <= PpInfo.total_bytes p /\
               HeapPpInfo.curr_bytes hp <= HeapPpInfo.max_bytes hp
  | None => True
  end.

Definition world_pps_ok (w : World) : Prop :=
  match phase w with
  | Running g => Forall pp_ok (Globals.pp_infos g)
  | _ => True
  end.

(** One 16-byte block allocated at address 4096 from site [stk_a]. *)
Definition world_one_block : World :=
  match alloc world_heap 16 4096 stk_a 1 with
  | Some (_, w) => w
  | None => world_heap
  end.

(** The at-t-gmax snapshot [(blocks, bytes)] of PP [i]. *)
Definition pp_at_tgmax (w : World) (i : nat) : option (Z * Z) :=
  match phase w with
  | Running g =>
      p ← Globals.pp_infos g !! i;
      hp ← PpInfo.heap p;
      Some (HeapPpInfo.at_tgmax_blocks hp, HeapPpInfo.at_tgmax_bytes hp)
  | _ => None
  end.

(** The number of equal leading elements of two lists. *)
Fixpoint common_prefix_len (l1 l2 : list Z) : nat :=
  match l1, l2 with
  | x :: l1', y :: l2' => if Z.eqb x y then S (common_prefix_len l1' l2') else O
  | _, _ => O
  end.

(** Mark each IP of [l] with [v], in order. *)
Definition mark (v : TB) (l : list Z) (m : gmap Z TB) : gmap Z TB :=
  fold_left (fun m ip => <[ip := v]> m) l m.

(** The trim sets in closed form, for IP sequences [a] (the profiling
    backtrace) and [b] (the start-up backtrace): the top set is the common
    prefix unless it reaches the last frame of the shorter one; the bottom
    marks, the common suffix, are inserted over it; if the common suffix
    reaches the first frame of the shorter one, only [Top] entries are kept. *)
Definition trim_sets_spec (a b : list Z) : gmap Z TB :=
  let m := Nat.min (length a) (length b) in
  let kt := common_prefix_len a b in
  let kb := common_prefix_len (reverse a) (reverse b) in
  let top := if bool_decide (m - 1 <= kt)%nat then ∅ else mark Top (take kt a) ∅ in
  if bool_decide (m - 1 <= kb)%nat
  then filter (fun kv => kv.2 = Top) (mark Bottom (take (m - 1) (reverse a)) top)
  else mark Bottom (take kb (reverse a)) top.

(** The verdict for one IP in the closed form: an IP of the kept common
    suffix is a bottom frame; an IP of the common suffix walked (kept or
    discarded) is never a top frame; otherwise it is a top frame when it is in
    the kept common prefix. *)
Definition trim_lookup_spec (a b : list Z) (ip : Z) : option TB :=
  let m := Nat.min (length a) (length b) in
  let kt := common_prefix_len a b in
  let kb := common_prefix_len (reverse a) (reverse b) in
  if decide (ip ∈ take (Nat.min kb (m - 1)) (reverse a))
  then (if bool_decide (kb < m - 1)%nat then Some Bottom else None)
  else if bool_decide (kt < m - 1)%nat && bool_decide (ip ∈ take kt a)
  then Some Top else None.

(** A sample run from [world_heap]: two allocations, a growing realloc, a
    free and a shrinking realloc. *)
Definition es_demo : list Event :=
  [EvAlloc 16 4096 stk_a 1; EvAlloc 24 8192 stk_b 2; EvRealloc 4096 16 48 12288 stk_a 3;
   EvDealloc 8192 24 4; EvRealloc 12288 48 8 16384 stk_b 5].
Definition ws_demo : list World := from_option id [] (run world_heap es_demo).

(** The globals of a running profiler. *)
Definition globals_of (w : World) : option Globals.t :=
  match phase w with
  | Running g => Some g
  | _ => None
  end.

(** The backtraces of the overwriting example: IP 1 is both the top and the
    bottom frame. *)
Definition bt_overlap : Backtrace := mkBacktrace (map frame_at [1; 2; 1]).
Definition bt_overlap_start : Backtrace := mkBacktrace (map frame_at [1; 3; 2; 1]).

(** Whether the predicate of [first_symbol_to_show] accepts a symbol. *)
Definition symbol_matches (p : string -> bool) (symbol : Symbol.t) : bool :=
  match Symbol.name symbol with
  | Some s => p s
  | None => false
  end.

(** The state [(ftbl_indices, next_ftbl_idx)] of [finish] numbers its
    strings [0 .. next_ftbl_idx - 1], each number used once. *)
Definition ftbl_inv (st : gmap string nat * nat) : Prop :=
  (stdpp.base.size st.1 = st.2)%nat /\
  (forall s i, st.1 !! s = Some i -> (i < st.2)%nat) /\
  (forall i, (i < st.2)%nat -> exists s, st.1 !! s = Some i) /\
  (forall s1 s2 i, st.1 !! s1 = Some i -> st.1 !! s2 = Some i -> s1 = s2).

(** ** Totals, PP indices and backtrace lengths along heap-mode runs *)

Definition sum_Z (l : list Z) : Z := fold_right Z.add 0 l.

(** The sums of the per-PP totals. *)
Definition pp_sum_blocks (g : Globals.t) : Z :=
  sum_Z (map PpInfo.total_blocks (Globals.pp_infos g)).
Definition pp_sum_bytes (g : Globals.t) : Z :=
  sum_Z (map PpInfo.total_bytes (Globals.pp_infos g)).

(** From [g] to [g'], the global totals and the sums of the per-PP totals
    grow by [b] blocks and [s] bytes. *)
Definition tot_step (g g' : Globals.t) (b s : Z) : Prop :=
  Globals.total_blocks g' = Globals.total_blocks g + b /\
  Globals.total_bytes g' = Globals.total_bytes g + s /\
  pp_sum_blocks g' = pp_sum_blocks g + b /\
  pp_sum_bytes g' = pp_sum_bytes g + s.

(** The blocks and bytes an event allocates: a non-null [alloc] or
    [realloc] of [size] (resp. [new_size]) bytes. *)
Definition event_blocks (e : Event) : Z :=
  match e with
  | EvAlloc _ p _ _ | EvRealloc _ _ _ p _ _ => if p =? 0 then 0 else 1
  | EvDealloc _ _ _ => 0
  end.
Definition event_bytes (e : Event) : Z :=
  match e with
  | EvAlloc size p _ _ => if p =? 0 then 0 else size
  | EvRealloc _ _ new_size p _ _ => if p =? 0 then 0 else new_size
  | EvDealloc _ _ _ => 0
  end.
Definition events_blocks (es : list Event) : Z := sum_Z (map event_blocks es).
Definition events_bytes (es : list Event) : Z := sum_Z (map event_bytes es).

(** What a successful intercepted event does to the [Globals] of a heap
    profiler, by cases on the path taken through [alloc], [realloc] and
    [dealloc]. *)
Inductive gstep : Event -> Globals.t -> Globals.t -> Prop :=
  | gs_alloc_null size stk now g :
      gstep (EvAlloc size 0 stk now) g g
  | gs_alloc size p stk now g g1 bt g2 idx g3 g4 :
      p <> 0 ->
      new_backtrace g stk = Some (g1, bt) ->
      Globals.get_pp_info g1 bt PpInfo.new_heap = (g2, idx) ->
      Globals.record_block g2 p idx now = Some g3 ->
      Globals.update_counts_for_alloc g3 idx size None now = Some g4 ->
      gstep (EvAlloc size p stk now) g g4
  | gs_realloc_null q old_size new_size stk now g :
      gstep (EvRealloc q old_size new_size 0 stk now) g g
  | gs_realloc_tracked q old_size new_size p stk now g g1 h lb g4 g5 :
      p <> 0 ->
      (if shrinking (Delta_new old_size new_size)
       then Globals.check_for_global_peak g else Some g) = Some g1 ->
      Globals.heap g1 = Some h ->
      HeapGlobals.live_blocks h !! q = Some lb ->
      Globals.record_block (Globals.set_heap g1 (Some (HeapGlobals.set_live_blocks h
        (delete q (HeapGlobals.live_blocks h))))) p (LiveBlock.pp_info_idx lb) now = Some g4 ->
      Globals.update_counts_for_alloc g4 (LiveBlock.pp_info_idx lb) new_size
        (Some (Delta_new old_size new_size)) now = Some g5 ->
      gstep (EvRealloc q old_size new_size p stk now) g g5
  | gs_realloc_untracked q old_size new_size p stk now g g1 h g2 bt g3 idx g4 g5 :
      p <> 0 ->
      (if shrinking (Delta_new old_size new_size)
       then Globals.check_for_global_peak g else Some g) = Some g1 ->
      Globals.heap g1 = Some h ->
      HeapGlobals.live_blocks h !! q = None ->
      new_backtrace (Globals.set_heap g1 (Some (HeapGlobals.set_live_blocks h
        (delete q (HeapGlobals.live_blocks h))))) stk = Some (g2, bt) ->
      Globals.get_pp_info g2 bt PpInfo.new_heap = (g3, idx) ->
      Globals.record_block g3 p idx now = Some g4 ->
      Globals.update_counts_for_alloc g4 idx new_size None now = Some g5 ->
      gstep (EvRealloc q old_size new_size p stk now) g g5
  | gs_dealloc_tracked q size now g h lb g2 g3 :
      Globals.heap g = Some h ->
      HeapGlobals.live_blocks h !! q = Some lb ->
      Globals.check_for_global_peak (Globals.set_heap g (Some (HeapGlobals.set_live_blocks h
        (delete q (HeapGlobals.live_blocks h))))) = Some g2 ->
      Globals.update_counts_for_dealloc g2 (LiveBlock.pp_info_idx lb) size
        (Z.max 0 (now - LiveBlock.allocation_instant lb)) = Some g3 ->
      gstep (EvDealloc q size now) g g3
  | gs_dealloc_untracked q size now g h :
      Globals.heap g = Some h ->
      HeapGlobals.live_blocks h !! q = None ->
      gstep (EvDealloc q size now) g (Globals.set_heap g (Some (HeapGlobals.set_live_blocks h
        (delete q (HeapGlobals.live_blocks h))))).

Inductive gsteps : list Event -> Globals.t -> Globals.t -> Prop :=
  | gss_nil g : gsteps [] g g
  | gss_cons e es g g1 g2 : gstep e g g1 -> gsteps es g1 g2 -> gsteps (e :: es) g g2.

(** [pp_infos] and [backtraces] in one-to-one correspondence: the [i]-th
    entry of [backtraces] holds PP index [i], no two entries have the same
    instruction pointers, and every live block refers to an existing PP. *)
Definition pp_index_inv (g : Globals.t) : Prop :=
  map snd (Globals.backtraces g) = seq 0 (length (Globals.pp_infos g)) /\
  NoDup (map (fun kv => ips kv.1) (Globals.backtraces g)) /\
  forall h, Globals.heap g = Some h ->
    map_Forall (fun _ lb => (LiveBlock.pp_info_idx lb < length (Globals.pp_infos g))%nat)
      (HeapGlobals.live_blocks h).

(** Trimming to at most [n] frames is on and every recorded backtrace has at
    most [n] frames. *)
Definition bt_len_inv (n : nat) (g : Globals.t) : Prop :=
  Globals.trim_backtraces g = Some n /\
  Forall (fun kv => (length (frames kv.1) <= n)%nat) (Globals.backtraces g).

(** Inputs of the further properties. *)

Definition world_trim : World :=
  snd (build world_ready (ProfilerBuilder_trim_backtraces builder (Some 2%nat)) stk_start 0).
Definition ws_trim : list World := from_option id [] (run world_trim es_demo).
Definition g_ad_hoc : Globals.t :=
  Globals.new false "dhat-ad-hoc.json" (Some 10%nat) false None stk_start 0.
Definition g_testing : Globals.t :=
  Globals.new true "dhat-heap.json" (Some 10%nat) false (Some (HeapGlobals.new 0)) stk_start 0.
Definition world_ad_hoc : World :=
  snd (build world_ready (ProfilerBuilder_ad_hoc builder) stk_start 0).
Definition sym (n : string) : Symbol.t := Symbol.mk (Some n) None None None.
Definition bt_sym : Backtrace :=
  mkBacktrace [Frame.mk 10 [sym "f"; sym "g"]; Frame.mk 20 [sym "main"]].
Definition g_demo : Globals.t :=
  (Globals.get_pp_info g_ad_hoc bt_sym PpInfo.new_ad_hoc).1.
Definition frame_name (f : Frame.t) (s : Symbol.t) : string :=
  match Symbol.name s with Some n => n | None => "???" end.

(** * Proofs *)

(** ** Backtrace identity *)

Lemma frames_eq_spec (fs1 fs2 : list Frame.t) :
  frames_eq fs1 fs2 = bool_decide (map Frame.ip fs1 = map Frame.ip fs2).
Proof.
  revert fs2; induction fs1 as [|f1 r1 IH]; intros [|f2 r2]; cbn [frames_eq map].
  - reflexivity.
  - symmetry. apply bool_decide_eq_false_2. discriminate.
  - symmetry. apply bool_decide_eq_false_2. discriminate.
  - rewrite IH. destruct (Z.eqb_spec (Frame.ip f1) (Frame.ip f2)) as [E|E].
    + rewrite E. apply bool_decide_ext. split; [intros ->|intros H; injection H]; auto.
    + symmetry. apply bool_decide_eq_false_2. intros H; injection H; auto.
Qed.

Lemma bt_eq_ips (b1 b2 : Backtrace) : bt_eq b1 b2 = bool_decide (ips b1 = ips b2).
Proof. apply frames_eq_spec. Qed.

Lemma bt_hash_ips (b : Backtrace) :
  bt_hash b = fold_left fx_add_to_hash (ips b) 0.
Proof.
  unfold bt_hash, ips. generalize 0. induction (frames b) as [|f r IH]; intros h;
    simpl; [reflexivity|apply IH].
Qed.

Lemma bt_lookup_ips (bts : list (Backtrace * nat)) (b1 b2 : Backtrace) :
  ips b1 = ips b2 -> bt_lookup bts b1 = bt_lookup bts b2.
Proof.
  intros E. induction bts as [|[k i] rest IH]; simpl; [reflexivity|].
  rewrite !bt_hash_ips, !bt_eq_ips, E, IH. reflexivity.
Qed.

Lemma bt_lookup_app (bts extra : list (Backtrace * nat)) (b : Backtrace) (i : nat) :
  bt_lookup bts b = Some i -> bt_lookup (bts ++ extra) b = Some i.
Proof.
  induction bts as [|[k j] rest IH]; simpl; [discriminate|].
  destruct (_ && _); auto.
Qed.

Lemma bt_lookup_last (bts : list (Backtrace * nat)) (b : Backtrace) (i : nat) :
  bt_lookup bts b = None -> bt_lookup (bts ++ [(b, i)]) b = Some i.
Proof.
  induction bts as [|[k j] rest IH]; simpl.
  - intros _. rewrite Z.eqb_refl, bt_eq_ips, bool_decide_eq_true_2; reflexivity.
  - destruct (_ && _); [discriminate|auto].
Qed.

(** After [get_pp_info g bt], [bt] is found at the returned index. *)
Lemma get_pp_info_found (g : Globals.t) (bt : Backtrace) (new : PpInfo.t) :
  bt_lookup (Globals.backtraces (fst (Globals.get_pp_info g bt new))) bt
  = Some (snd (Globals.get_pp_info g bt new)).
Proof.
  unfold Globals.get_pp_info.
  destruct (bt_lookup (Globals.backtraces g) bt) eqn:L; simpl; [exact L|].
  apply bt_lookup_last. exact L.
Qed.

(** Lookups that already succeed survive further [get_pp_info] calls. *)
Lemma get_pp_info_keeps (g : Globals.t) (bt b : Backtrace) (new : PpInfo.t) (i : nat) :
  bt_lookup (Globals.backtraces g) b = Some i ->
  bt_lookup (Globals.backtraces (fst (Globals.get_pp_info g bt new))) b = Some i.
Proof.
  intros L. unfold Globals.get_pp_info.
  destruct (bt_lookup (Globals.backtraces g) bt); simpl; [exact L|].
  apply bt_lookup_app. exact L.
Qed.

Lemma get_pp_info_hit (g : Globals.t) (bt : Backtrace) (new : PpInfo.t) (i : nat) :
  bt_lookup (Globals.backtraces g) bt = Some i -> Globals.get_pp_info g bt new = (g, i).
Proof. intros L. unfold Globals.get_pp_info. rewrite L. reflexivity. Qed.

Lemma get_pp_infos_keeps (calls : list (Backtrace * PpInfo.t)) (g : Globals.t)
    (b : Backtrace) (i : nat) :
  bt_lookup (Globals.backtraces g) b = Some i ->
  bt_lookup (Globals.backtraces (get_pp_infos g calls)) b = Some i.
Proof.
  revert g; induction calls as [|c rest IH]; intros g L; simpl; [exact L|].
  apply IH, get_pp_info_keeps, L.
Qed.

(** C9: [PartialEq] and [Hash] of a [Backtrace] only look at its IP sequence,
    and looking up a backtrace with the same IPs as one already looked up
    (after any other lookups) returns the same [pp_infos] index without
    adding a [PpInfo] or a [backtraces] entry. *)
Theorem backtrace_identity_by_ips (b1 b2 : Backtrace) (g : Globals.t)
    (mid : list (Backtrace * PpInfo.t)) (new1 new2 : PpInfo.t) :
  bt_eq b1 b2 = bool_decide (ips b1 = ips b2) /\
  bt_hash b1 = fold_left fx_add_to_hash (ips b1) 0 /\
  (ips b1 = ips b2 ->
   let r1 := Globals.get_pp_info g b1 new1 in
   let g2 := get_pp_infos r1.1 mid in
   Globals.get_pp_info g2 b2 new2 = (g2, r1.2)).
Proof.
  split; [apply bt_eq_ips|]. split; [apply bt_hash_ips|].
  intros E r1 g2. apply get_pp_info_hit.
  rewrite <- (bt_lookup_ips _ _ _ E).
  apply get_pp_infos_keeps, get_pp_info_found.
Qed.

(** C6: when the wrapped allocator returns null from [alloc] or [realloc],
    the interceptor returns null and the world is unchanged. *)
Theorem alloc_null_is_inert (w : World) (layout_size old_ptr old_size new_size : Z)
    (stk : list Frame.t) (now : Z) :
  inner_reached w = true ->
  alloc w layout_size 0 stk now = Some (0, w) /\
  realloc w old_ptr old_size new_size 0 stk now = Some (0, w).
Proof.
  unfold inner_reached, alloc, realloc.
  destruct (ignoring w), (poisoned w); simpl; intros H; try discriminate;
    split; reflexivity.
Qed.

(** Without a poisoned mutex, a [dealloc] of an address absent from
    [live_blocks] leaves the world unchanged. *)
Lemma dealloc_untracked_unpoisoned (w : World) (g : Globals.t) (h : HeapGlobals.t)
    (ptr size now : Z) :
  ignoring w = false -> poisoned w = false -> phase w = Running g ->
  Globals.heap g = Some h -> HeapGlobals.live_blocks h !! ptr = None ->
  dealloc w ptr size now = Some w.
Proof.
  intros Hi Hp Hph Hh Hl. unfold dealloc. rewrite Hi, Hp, Hph, Hh, Hl.
  rewrite delete_id by exact Hl. f_equal.
  destruct w as [i p ph e], g, h; simpl in *; subst; reflexivity.
Qed.

(** C7 (failing input): [AdHocStats::get()] while heap profiling panics
    with the guard held, which poisons [TRI_GLOBALS]; the profiler is still
    [Running], yet a later [dealloc] of an address absent from [live_blocks]
    aborts in [TRI_GLOBALS.lock().unwrap()] instead of only freeing. *)
Theorem dealloc_untracked_after_panic :
  let '(r, w) := AdHocStats_get world_heap in
  r = Panicked "dhat: getting ad hoc stats while doing heap profiling" /\
  phase w = phase world_heap /\
  (exists g h, phase w = Running g /\ Globals.heap g = Some h /\
               HeapGlobals.live_blocks h !! 4096 = None) /\
  dealloc w 4096 16 1 = None.
Proof.
  vm_compute. split; [reflexivity|]. split; [reflexivity|].
  split; [eexists _, _; split; [reflexivity|split; reflexivity]|reflexivity].
Qed.

(** Without a poisoned mutex, [check_assert_condition] behaves as its
    documentation says in every phase. *)
Lemma check_assert_condition_unpoisoned (w : World) (cond : bool) :
  ignoring w = false -> poisoned w = false ->
  (phase w = Ready ->
   check_assert_condition w cond
   = (Panicked "dhat: asserting when no profiler is running", poison w)) /\
  (forall g, phase w = Running g -> Globals.testing g = false ->
   check_assert_condition w cond
   = (Panicked "dhat: asserting while not in testing mode", poison w)) /\
  (forall g, phase w = Running g -> Globals.testing g = true -> cond = true ->
   check_assert_condition w cond = (Returned false, w)) /\
  (forall g, phase w = Running g -> Globals.testing g = true -> cond = false ->
   check_assert_condition w cond
   = (Returned true, mkWorld (ignoring w) (poisoned w) PostAssert (emitted w ++ [g]))) /\
  (phase w = PostAssert ->
   check_assert_condition w cond
   = (Panicked "dhat: asserting after the profiler has asserted", poison w)).
Proof.
  intros Hi Hp. unfold check_assert_condition. rewrite Hi, Hp.
  repeat split; intros; repeat match goal with H : _ = _ |- _ => rewrite H end;
    reflexivity.
Qed.

(** C5 (failing input, the start of tests/ad-hoc-panics.rs): a caught panic
    of [AdHocStats::get()] in phase [Ready] poisons [TRI_GLOBALS]; the next
    [check_assert_condition], still in phase [Ready], panics with the
    [PoisonError] unwrap message rather than
    "dhat: asserting when no profiler is running". *)
Theorem assert_after_caught_panic :
  let '(r1, w1) := AdHocStats_get world_ready in
  r1 = Panicked "dhat: getting ad hoc stats when no profiler is running" /\
  phase w1 = Ready /\
  check_assert_condition w1 true = (Panicked POISON_MSG, w1).
Proof. vm_compute. repeat split; reflexivity. Qed.

(** Without a poisoned mutex, [HeapStats::get] returns the statistics exactly
    when heap profiling is running, and otherwise panics with the messages of
    the documentation, leaving the phase (not the poison flag) unchanged. *)
Lemma HeapStats_get_unpoisoned (w : World) :
  ignoring w = false -> poisoned w = false ->
  (phase w = Ready ->
   HeapStats_get w
   = (Panicked "dhat: getting heap stats when no profiler is running", poison w)) /\
  (forall g h, phase w = Running g -> Globals.heap g = Some h ->
   HeapStats_get w = (Returned (HeapStats.mk (Globals.total_blocks g)
      (Globals.total_bytes g) (HeapGlobals.curr_blocks h) (HeapGlobals.curr_bytes h)
      (HeapGlobals.max_blocks h) (HeapGlobals.max_bytes h)), w)) /\
  (forall g, phase w = Running g -> Globals.heap g = None ->
   HeapStats_get w
   = (Panicked "dhat: getting heap stats while doing ad hoc profiling", poison w)) /\
  (phase w = PostAssert ->
   HeapStats_get w
   = (Panicked "dhat: getting heap stats after the profiler has asserted", poison w)).
Proof.
  intros Hi Hp. unfold HeapStats_get, Globals.get_heap_stats. rewrite Hi, Hp.
  repeat split; intros; repeat match goal with H : _ = _ |- _ => rewrite H end;
    reflexivity.
Qed.

(** C8 (failing input, the start of tests/heap-panics.rs): the panic of
    [HeapStats::get()] in phase [Ready] changes the state (the mutex is now
    poisoned), and the same call in the same phase then panics with the
    [PoisonError] unwrap message. *)
Theorem heap_stats_panic_poisons :
  let '(r1, w1) := HeapStats_get world_ready in
  r1 = Panicked "dhat: getting heap stats when no profiler is running" /\
  w1 <> world_ready /\ phase w1 = Ready /\
  HeapStats_get w1 = (Panicked POISON_MSG, w1).
Proof. vm_compute. split; [reflexivity|]. split; [discriminate|]. split; reflexivity. Qed.

(** ** Effects of the counter updates *)

Ltac opt_inv :=
  repeat match goal with
  | H : Some _ = Some _ |- _ => injection H; clear H; intros; subst
  | H : None = Some _ |- _ => discriminate H
  | H : (_, _) = (_, _) |- _ => injection H; clear H; intros; subst
  | H : context [mbind _ ?m] |- _ =>
      let E := fresh "E" in destruct m eqn:E; simpl in H
  | H : (match ?m with _ => _ end) = _ |- _ =>
      let E := fresh "E" in destruct m eqn:E
  | H : (if ?b then _ else _) = _ |- _ =>
      let E := fresh "E" in destruct b eqn:E
  end.

Lemma add_usize_Some (a b c : Z) : add_usize a b = Some c -> c = a + b /\ c < WORD.
Proof. unfold add_usize. intros Hs. destruct (Z.ltb_spec (a + b) WORD); opt_inv; lia. Qed.

Lemma sub_usize_Some (a b c : Z) : sub_usize a b = Some c -> c = a - b /\ b <= a.
Proof. unfold sub_usize. intros Hs. destruct (Z.leb_spec b a); opt_inv; lia. Qed.

Lemma add_delta_new (x o n y : Z) : add_delta x (Delta_new o n) = Some y -> y = x + n - o.
Proof.
  unfold add_delta, Delta_new. destruct (n <? o); simpl; intros H.
  - apply sub_usize_Some in H. lia.
  - apply add_usize_Some in H. lia.
Qed.


Lemma pp_update_counts_for_alloc_Some (p p' : PpInfo.t) (size : Z) (delta : option Delta) :
  PpInfo.update_counts_for_alloc p size delta = Some p' ->
  exists hp tb tby cb cby,
    PpInfo.heap p = Some hp /\
    add_usize (PpInfo.total_blocks p) 1 = Some tb /\
    add_usize (PpInfo.total_bytes p) size = Some tby /\
    counts_step (HeapPpInfo.curr_blocks hp) (HeapPpInfo.curr_bytes hp) size delta cb cby /\
    p' = PpInfo.mk tb tby (Some (HeapPpInfo.mk cb cby
           (if HeapPpInfo.max_bytes hp <=? cby then cb else HeapPpInfo.max_blocks hp)
           (if HeapPpInfo.max_bytes hp <=? cby then cby else HeapPpInfo.max_bytes hp)
           (HeapPpInfo.at_tgmax_blocks hp) (HeapPpInfo.at_tgmax_bytes hp)
           (HeapPpInfo.total_lifetimes_duration hp))).
Proof.
  unfold PpInfo.update_counts_for_alloc. intros H.
  destruct (add_usize (PpInfo.total_blocks p) 1) as [tb|] eqn:E1; simpl in H; [|discriminate].
  destruct (add_usize (PpInfo.total_bytes p) size) as [tby|] eqn:E2; simpl in H; [|discriminate].
  destruct (PpInfo.heap p) as [hp|] eqn:E3; simpl in H; [|discriminate].
  destruct delta as [d|].
  - destruct (add_usize (HeapPpInfo.curr_blocks hp) 0) as [cb|] eqn:E4; simpl in H; [|discriminate].
    destruct (add_delta (HeapPpInfo.curr_bytes hp) d) as [cby|] eqn:E5; simpl in H; [|discriminate].
    exists hp, tb, tby, cb, cby. unfold counts_step.
    destruct (HeapPpInfo.max_bytes hp <=? cby); injection H; intros; subst; repeat split; auto.
  - destruct (add_usize (HeapPpInfo.curr_blocks hp) 1) as [cb|] eqn:E4; simpl in H; [|discriminate].
    destruct (add_usize (HeapPpInfo.curr_bytes hp) size) as [cby|] eqn:E5; simpl in H; [|discriminate].
    exists hp, tb, tby, cb, cby. unfold counts_step.
    destruct (HeapPpInfo.max_bytes hp <=? cby); injection H; intros; subst; repeat split; auto.
Qed.

Lemma update_counts_for_alloc_Some (g g' : Globals.t) (idx : nat) (size : Z)
    (delta : option Delta) (now : Z) :
  Globals.update_counts_for_alloc g idx size delta now = Some g' ->
  exists h tb tby cb cby p p',
    Globals.heap g = Some h /\
    add_usize (Globals.total_blocks g) 1 = Some tb /\
    add_usize (Globals.total_bytes g) size = Some tby /\
    counts_step (HeapGlobals.curr_blocks h) (HeapGlobals.curr_bytes h) size delta cb cby /\
    Globals.pp_infos g !! idx = Some p /\
    PpInfo.update_counts_for_alloc p size delta = Some p' /\
    g' = Globals.mk (Globals.file_name g) (Globals.testing g) (Globals.trim_backtraces g)
           (Globals.eprint_json g) (Globals.start_bt g) (Globals.frames_to_trim g)
           (Globals.start_instant g) (<[idx := p']> (Globals.pp_infos g))
           (Globals.backtraces g) tb tby
           (Some (raise_counts h (HeapGlobals.live_blocks h) cb cby now)).
Proof.
  unfold Globals.update_counts_for_alloc. intros H.
  destruct (add_usize (Globals.total_blocks g) 1) as [tb|] eqn:E1; simpl in H; [|discriminate].
  destruct (add_usize (Globals.total_bytes g) size) as [tby|] eqn:E2; simpl in H; [|discriminate].
  destruct (Globals.heap g) as [h|] eqn:E3; simpl in H; [|discriminate].
  assert (Hc : exists cb cby,
    counts_step (HeapGlobals.curr_blocks h) (HeapGlobals.curr_bytes h) size delta cb cby /\
    (match delta with
     | Some d => cb ← add_usize (HeapGlobals.curr_blocks h) 0;
                 cby ← add_delta (HeapGlobals.curr_bytes h) d; Some (cb, cby)
     | None => cb ← add_usize (HeapGlobals.curr_blocks h) 1;
               cby ← add_usize (HeapGlobals.curr_bytes h) size; Some (cb, cby)
     end) = Some (cb, cby)).
  { destruct delta as [d|]; unfold counts_step.
    - destruct (add_usize (HeapGlobals.curr_blocks h) 0) as [cb|]; simpl in H; [|discriminate].
      destruct (add_delta (HeapGlobals.curr_bytes h) d) as [cby|]; simpl in H; [|discriminate].
      eauto.
    - destruct (add_usize (HeapGlobals.curr_blocks h) 1) as [cb|]; simpl in H; [|discriminate].
      destruct (add_usize (HeapGlobals.curr_bytes h) size) as [cby|]; simpl in H; [|discriminate].
      eauto. }
  destruct Hc as (cb & cby & Hcs & Hm). rewrite Hm in H. simpl in H.
  destruct (Globals.pp_infos g !! idx) as [p|] eqn:E4; simpl in H; [|discriminate].
  destruct (PpInfo.update_counts_for_alloc p size delta) as [p'|] eqn:E5; simpl in H; [|discriminate].
  exists h, tb, tby, cb, cby, p, p'. injection H as <-. repeat split; auto.
Qed.

Lemma update_counts_for_dealloc_Some (g g' : Globals.t) (idx : nat) (size dur : Z) :
  Globals.update_counts_for_dealloc g idx size dur = Some g' ->
  exists h cb cby p p',
    Globals.heap g = Some h /\
    sub_usize (HeapGlobals.curr_blocks h) 1 = Some cb /\
    sub_usize (HeapGlobals.curr_bytes h) size = Some cby /\
    Globals.pp_infos g !! idx = Some p /\
    PpInfo.update_counts_for_dealloc p size dur = Some p' /\
    g' = Globals.set_heap (Globals.set_pps g (<[idx := p']> (Globals.pp_infos g))
                             (Globals.backtraces g))
           (Some (HeapGlobals.mk (HeapGlobals.live_blocks h) cb cby
                    (HeapGlobals.max_blocks h) (HeapGlobals.max_bytes h)
                    (HeapGlobals.tgmax_instant h))).
Proof.
  unfold Globals.update_counts_for_dealloc. intros H.
  destruct (Globals.heap g) as [h|] eqn:E1; simpl in H; [|discriminate].
  destruct (sub_usize (HeapGlobals.curr_blocks h) 1) as [cb|] eqn:E2; simpl in H; [|discriminate].
  destruct (sub_usize (HeapGlobals.curr_bytes h) size) as [cby|] eqn:E3; simpl in H; [|discriminate].
  destruct (Globals.pp_infos g !! idx) as [p|] eqn:E4; simpl in H; [|discriminate].
  destruct (PpInfo.update_counts_for_dealloc p size dur) as [p'|] eqn:E5; simpl in H; [|discriminate].
  exists h, cb, cby, p, p'. injection H as <-. repeat split; auto.
Qed.

Lemma record_block_Some (g g' : Globals.t) (ptr : Z) (idx : nat) (now : Z) :
  Globals.record_block g ptr idx now = Some g' ->
  exists h, Globals.heap g = Some h /\ HeapGlobals.live_blocks h !! ptr = None /\
    g' = Globals.set_heap g (Some (HeapGlobals.set_live_blocks h
           (<[ptr := LiveBlock.mk idx now]> (HeapGlobals.live_blocks h)))).
Proof.
  unfold Globals.record_block. intros H.
  destruct (Globals.heap g) as [h|]; simpl in H; [|discriminate].
  destruct (HeapGlobals.live_blocks h !! ptr) eqn:E; [discriminate|].
  injection H as <-. eauto.
Qed.

Lemma snapshot_pp_counters (p p' : PpInfo.t) :
  PpInfo.snapshot_at_tgmax p = Some p' -> pp_counters p' = pp_counters p.
Proof.
  unfold PpInfo.snapshot_at_tgmax, pp_counters. intros H.
  destruct p as [tb tby [hp|]]; simpl in H; [|discriminate].
  injection H as <-. reflexivity.
Qed.

Lemma check_for_global_peak_Some (g g' : Globals.t) :
  Globals.check_for_global_peak g = Some g' ->
  exists pps, g' = Globals.set_pps g pps (Globals.backtraces g) /\
    map pp_counters pps = map pp_counters (Globals.pp_infos g) /\
    Globals.heap g <> None.
Proof.
  unfold Globals.check_for_global_peak. intros H.
  destruct (Globals.heap g) as [h|] eqn:E; simpl in H; [|discriminate].
  destruct (HeapGlobals.curr_bytes h =? HeapGlobals.max_bytes h).
  - destruct (mapM PpInfo.snapshot_at_tgmax (Globals.pp_infos g)) as [pps|] eqn:E2;
      simpl in H; [|discriminate].
    injection H as <-. exists pps. split; [reflexivity|]. split; [|discriminate].
    apply mapM_Some in E2. induction E2 as [|x y l k Hxy _ IH]; simpl; [reflexivity|].
    rewrite (snapshot_pp_counters _ _ Hxy), IH. reflexivity.
  - injection H as <-. exists (Globals.pp_infos g). split; [destruct g; reflexivity|].
    split; [reflexivity|discriminate].
Qed.

Lemma new_backtrace_Some (g g1 : Globals.t) (stk : list Frame.t) (bt : Backtrace) :
  new_backtrace g stk = Some (g1, bt) ->
  exists f, g1 = Globals.set_frames_to_trim g f.
Proof.
  unfold new_backtrace. intros H.
  destruct (Globals.frames_to_trim g) as [f|] eqn:E.
  - simpl in H. rewrite E in H. simpl in H. injection H as <- _.
    exists (Some f). destruct g; simpl in *; subst; reflexivity.
  - destruct (get_frames_to_trim _ _) as [ftt|]; simpl in H; [|discriminate].
    injection H as <- _. eauto.
Qed.

Lemma get_pp_info_cases (g : Globals.t) (bt : Backtrace) (new : PpInfo.t) :
  (Globals.get_pp_info g bt new).1 = g \/
  (Globals.get_pp_info g bt new).1 =
    Globals.set_pps g (Globals.pp_infos g ++ [new])
      (Globals.backtraces g ++ [(bt, length (Globals.pp_infos g))]).
Proof.
  unfold Globals.get_pp_info. destruct (bt_lookup (Globals.backtraces g) bt); auto.
Qed.

Lemma set_live_blocks_id (h : HeapGlobals.t) :
  HeapGlobals.set_live_blocks h (HeapGlobals.live_blocks h) = h.
Proof. destruct h; reflexivity. Qed.

(** The allocation half shared by [alloc] and an untracked [realloc]. *)
Lemma alloc_tail_Some (g g4 : Globals.t) (h : HeapGlobals.t) (p size now : Z)
    (stk : list Frame.t) :
  Globals.heap g = Some h ->
  ('(g1, bt) ← new_backtrace g stk;
   let '(g2, pp_info_idx) := Globals.get_pp_info g1 bt PpInfo.new_heap in
   g3 ← Globals.record_block g2 p pp_info_idx now;
   Globals.update_counts_for_alloc g3 pp_info_idx size None now) = Some g4 ->
  exists idx h4, Globals.heap g4 = Some h4 /\
    HeapGlobals.live_blocks h !! p = None /\
    h4 = raise_counts h (<[p := LiveBlock.mk idx now]> (HeapGlobals.live_blocks h))
           (HeapGlobals.curr_blocks h + 1) (HeapGlobals.curr_bytes h + size) now.
Proof.
  intros Hh H.
  destruct (new_backtrace g stk) as [[g1 bt]|] eqn:E1; simpl in H; [|discriminate].
  apply new_backtrace_Some in E1 as [f ->].
  destruct (Globals.get_pp_info (Globals.set_frames_to_trim g f) bt PpInfo.new_heap)
    as [g2 idx] eqn:E2.
  assert (Hh2 : Globals.heap g2 = Some h).
  { destruct (get_pp_info_cases (Globals.set_frames_to_trim g f) bt PpInfo.new_heap)
      as [Hc|Hc]; rewrite E2 in Hc; simpl in Hc; subst; exact Hh. }
  destruct (Globals.record_block g2 p idx now) as [g3|] eqn:E3; simpl in H; [|discriminate].
  apply record_block_Some in E3 as (h3 & Hh3 & Hfree & ->).
  rewrite Hh2 in Hh3. injection Hh3 as <-.
  apply update_counts_for_alloc_Some in H
    as (h4 & tb & tby & cb & cby & pp & pp' & Hh4 & _ & _ & Hcs & _ & _ & ->).
  simpl in Hh4. injection Hh4 as <-. destruct Hcs as [Hcb Hcby].
  apply add_usize_Some in Hcb as [-> _]. apply add_usize_Some in Hcby as [-> _].
  exists idx. eexists. split; [reflexivity|]. split; [exact Hfree|]. reflexivity.
Qed.

Lemma alloc_heap_effect (w w' : World) (size p : Z) (stk : list Frame.t) (now r : Z)
    (g : Globals.t) (h : HeapGlobals.t) :
  alloc w size p stk now = Some (r, w') ->
  ignoring w = false -> phase w = Running g -> Globals.heap g = Some h ->
  exists g' h', phase w' = Running g' /\ Globals.heap g' = Some h' /\
    heap_effect (EvAlloc size p stk now) h h' /\
    ignoring w' = false /\ poisoned w' = false.
Proof.
  unfold alloc. intros H Hi Hph Hh. rewrite Hi in H.
  destruct (poisoned w) eqn:Hp; [discriminate|].
  destruct (Z.eqb_spec p 0) as [->|Hnz].
  - injection H as <- <-. exists g, h. repeat split; auto. constructor.
  - rewrite Hph, Hh in H.
    destruct (('(g1, bt) ← new_backtrace g stk;
      let '(g2, pp_info_idx) := Globals.get_pp_info g1 bt PpInfo.new_heap in
      g3 ← Globals.record_block g2 p pp_info_idx now;
      Globals.update_counts_for_alloc g3 pp_info_idx size None now)) as [g4|] eqn:E.
    + destruct (alloc_tail_Some g g4 h p size now stk Hh E) as (idx & h4 & Hh4 & Hfree & ->).
      assert (Hs : (Some (p, set_phase w (Running g4)) : option (Z * World)) = Some (r, w')).
      { rewrite <- H. destruct (new_backtrace g stk) as [[g1 bt]|]; simpl in *; [|discriminate].
        destruct (Globals.get_pp_info g1 bt PpInfo.new_heap).
        destruct (Globals.record_block _ p _ now); simpl in *; [|discriminate].
        rewrite E. reflexivity. }
      injection Hs as <- <-. exists g4. eexists. split; [reflexivity|]. split; [exact Hh4|].
      split; [apply he_alloc; assumption|]. split; assumption.
    + exfalso. revert H. destruct (new_backtrace g stk) as [[g1 bt]|]; simpl in *; [|discriminate].
      destruct (Globals.get_pp_info g1 bt PpInfo.new_heap).
      destruct (Globals.record_block _ p _ now); simpl in *; [|discriminate].
      rewrite E. discriminate.
Qed.

Lemma peak_if_Some (g g1 : Globals.t) (b : bool) :
  (if b then Globals.check_for_global_peak g else Some g) = Some g1 ->
  exists pps, g1 = Globals.set_pps g pps (Globals.backtraces g) /\
    map pp_counters pps = map pp_counters (Globals.pp_infos g).
Proof.
  destruct b; intros H.
  - apply check_for_global_peak_Some in H as (pps & -> & Hc & _). eauto.
  - injection H as <-. exists (Globals.pp_infos g). split; [destruct g; reflexivity|reflexivity].
Qed.

Lemma realloc_heap_effect (w w' : World) (q old_size new_size p : Z) (stk : list Frame.t)
    (now r : Z) (g : Globals.t) (h : HeapGlobals.t) :
  realloc w q old_size new_size p stk now = Some (r, w') ->
  ignoring w = false -> phase w = Running g -> Globals.heap g = Some h ->
  exists g' h', phase w' = Running g' /\ Globals.heap g' = Some h' /\
    heap_effect (EvRealloc q old_size new_size p stk now) h h' /\
    ignoring w' = false /\ poisoned w' = false.
Proof.
  unfold realloc. intros H Hi Hph Hh. rewrite Hi in H.
  destruct (poisoned w) eqn:Hp; [discriminate|].
  destruct (Z.eqb_spec p 0) as [->|Hnz].
  - injection H as <- <-. exists g, h. repeat split; auto. constructor.
  - rewrite Hph, Hh in H.
    destruct (if shrinking (Delta_new old_size new_size)
              then Globals.check_for_global_peak g else Some g) as [g1|] eqn:E1;
      simpl in H; [|discriminate].
    apply peak_if_Some in E1 as (pps & -> & _).
    simpl in H. rewrite Hh in H. simpl in H.
    destruct (HeapGlobals.live_blocks h !! q) as [lb|] eqn:Eq; simpl in H.
    + destruct (Globals.record_block _ p (LiveBlock.pp_info_idx lb) now) as [g4|] eqn:E4;
        simpl in H; [|discriminate].
      destruct (Globals.update_counts_for_alloc g4 _ new_size _ now) as [g5|] eqn:E5;
        simpl in H; [|discriminate].
      injection H as <- <-.
      apply record_block_Some in E4 as (h3 & Hh3 & Hfree & ->).
      simpl in Hh3. injection Hh3 as <-.
      apply update_counts_for_alloc_Some in E5
        as (h4 & tb & tby & cb & cby & pp & pp' & Hh4 & _ & _ & Hcs & _ & _ & ->).
      simpl in Hh4. injection Hh4 as <-. destruct Hcs as [Hcb Hcby].
      apply add_usize_Some in Hcb as [Hcb _]. apply add_delta_new in Hcby.
      simpl in Hcb, Hcby, Hfree. subst cb cby.
      eexists _, _. split; [reflexivity|]. split; [reflexivity|].
      split; [|split; assumption].
      replace (HeapGlobals.curr_blocks h + 0) with (HeapGlobals.curr_blocks h) by lia.
      exact (he_realloc_tracked q old_size new_size p stk now h lb Hnz Eq Hfree).
    + destruct (new_backtrace _ stk) as [[g' bt]|] eqn:E2; simpl in H; [|discriminate].
      apply new_backtrace_Some in E2 as [f ->].
      destruct (Globals.get_pp_info _ bt PpInfo.new_heap) as [g'' idx] eqn:E3. simpl in H.
      match type of E3 with Globals.get_pp_info ?g0 _ _ = _ =>
        assert (Hh2 : Globals.heap g'' =
                      Some (HeapGlobals.set_live_blocks h (delete q (HeapGlobals.live_blocks h))));
        [destruct (get_pp_info_cases g0 bt PpInfo.new_heap) as [Hc|Hc];
         rewrite E3 in Hc; simpl in Hc; subst; reflexivity|] end.
      destruct (Globals.record_block g'' p idx now) as [g4|] eqn:E4; simpl in H; [|discriminate].
      destruct (Globals.update_counts_for_alloc g4 idx new_size None now) as [g5|] eqn:E5;
        simpl in H; [|discriminate].
      injection H as <- <-.
      apply record_block_Some in E4 as (h3 & Hh3 & Hfree & ->).
      rewrite Hh2 in Hh3. injection Hh3 as <-.
      apply update_counts_for_alloc_Some in E5
        as (h4 & tb & tby & cb & cby & pp & pp' & Hh4 & _ & _ & Hcs & _ & _ & ->).
      simpl in Hh4. injection Hh4 as <-. destruct Hcs as [Hcb Hcby].
      apply add_usize_Some in Hcb as [Hcb _]. apply add_usize_Some in Hcby as [Hcby _].
      simpl in Hcb, Hcby, Hfree. subst cb cby. rewrite delete_id in Hfree |- * by exact Eq.
      eexists _, _. split; [reflexivity|]. split; [reflexivity|].
      split; [|split; assumption].
      exact (he_realloc_untracked q old_size new_size p stk now h idx Hnz Eq Hfree).
Qed.

Lemma dealloc_heap_effect (w w' : World) (q size now : Z) (g : Globals.t) (h : HeapGlobals.t) :
  dealloc w q size now = Some w' ->
  ignoring w = false -> phase w = Running g -> Globals.heap g = Some h ->
  exists g' h', phase w' = Running g' /\ Globals.heap g' = Some h' /\
    heap_effect (EvDealloc q size now) h h' /\
    ignoring w' = false /\ poisoned w' = false.
Proof.
  unfold dealloc. intros H Hi Hph Hh. rewrite Hi in H.
  destruct (poisoned w) eqn:Hp; [discriminate|].
  rewrite Hph, Hh in H.
  destruct (HeapGlobals.live_blocks h !! q) as [lb|] eqn:Eq.
  - destruct (Globals.check_for_global_peak _) as [g2|] eqn:E2; simpl in H; [|discriminate].
    destruct (Globals.update_counts_for_dealloc g2 _ size _) as [g3|] eqn:E3;
      simpl in H; [|discriminate].
    injection H as <-.
    apply check_for_global_peak_Some in E2 as (pps & -> & _ & _).
    apply update_counts_for_dealloc_Some in E3 as (h3 & cb & cby & pp & pp' & Hh3 & Hcb & Hcby & _ & _ & ->).
    simpl in Hh3. injection Hh3 as <-.
    apply sub_usize_Some in Hcb as [Hcb _]. apply sub_usize_Some in Hcby as [Hcby Hle].
    simpl in Hcb, Hcby, Hle. subst cb cby.
    eexists _, _. split; [reflexivity|]. split; [reflexivity|].
    split; [|split; assumption].
    exact (he_dealloc_tracked q size now h lb Eq Hle).
  - injection H as <-. eexists _, _. split; [reflexivity|]. split; [reflexivity|].
    rewrite delete_id by exact Eq. rewrite set_live_blocks_id.
    split; [|split; assumption]. apply he_dealloc_untracked; assumption.
Qed.

Lemma step_heap_effect (w w' : World) (e : Event) (g : Globals.t) (h : HeapGlobals.t) :
  step w e = Some w' ->
  ignoring w = false -> phase w = Running g -> Globals.heap g = Some h ->
  exists g' h', phase w' = Running g' /\ Globals.heap g' = Some h' /\
    heap_effect e h h' /\ ignoring w' = false /\ poisoned w' = false.
Proof.
  destruct e as [size p stk now|q old_size new_size p stk now|q size now]; simpl; intros H.
  - destruct (alloc w size p stk now) as [[r w1]|] eqn:E; simpl in H; [|discriminate].
    injection H as <-. eapply alloc_heap_effect; eauto.
  - destruct (realloc w q old_size new_size p stk now) as [[r w1]|] eqn:E; simpl in H;
      [|discriminate].
    injection H as <-. eapply realloc_heap_effect; eauto.
  - eapply dealloc_heap_effect; eauto.
Qed.

(** ** The global peak *)

Lemma peak_spec_next (L : list HeapGlobals.t) (h h1 : HeapGlobals.t) :
  peak_spec (L ++ [h]) h ->
  h1 = h \/
  (HeapGlobals.max_bytes h1 = HeapGlobals.max_bytes h /\
   HeapGlobals.max_blocks h1 = HeapGlobals.max_blocks h /\
   HeapGlobals.curr_bytes h1 < HeapGlobals.max_bytes h) \/
  (HeapGlobals.max_bytes h <= HeapGlobals.curr_bytes h1 /\
   HeapGlobals.max_bytes h1 = HeapGlobals.curr_bytes h1 /\
   HeapGlobals.max_blocks h1 = HeapGlobals.curr_blocks h1) ->
  peak_spec (L ++ [h] ++ [h1]) h1.
Proof.
  unfold peak_spec.
  intros [Hle (pre & x & post & Htr & Hx & Hxb & Hpost)] [->|[(Hm & Hmb & Hlt)|(Hge & Hm & Hmb)]].
  - split.
    + intros y Hy. rewrite app_assoc in Hy. apply elem_of_app in Hy as [Hy|Hy]; [auto|].
      apply list_elem_of_singleton in Hy as ->. apply Hle. apply elem_of_app; right; left.
    + destruct post as [|p0 post0] using rev_ind.
      * apply app_inj_tail in Htr as [_ <-]. exists (L ++ [h]), h, [].
        rewrite app_assoc. split; [reflexivity|]. split; [auto|]. split; [auto|].
        intros y Hy. apply elem_of_nil in Hy as [].
      * assert (Hh : p0 = h).
        { rewrite app_comm_cons, app_assoc in Htr. apply app_inj_tail in Htr. destruct Htr; congruence. }
        subst p0. exists pre, x, (post0 ++ [h] ++ [h]).
        split; [rewrite app_assoc, Htr, <- app_assoc; simpl; rewrite <- app_assoc; reflexivity|]. split; [auto|]. split; [auto|].
        intros y Hy. apply elem_of_app in Hy as [Hy|Hy]; [apply Hpost, elem_of_app; auto|].
        assert (y = h) as -> by set_solver. apply Hpost, elem_of_app. right. left.
  - rewrite Hm, Hmb. split.
    + intros y Hy. rewrite app_assoc in Hy. apply elem_of_app in Hy as [Hy|Hy]; [auto|].
      apply list_elem_of_singleton in Hy as ->. lia.
    + exists pre, x, (post ++ [h1]). rewrite app_assoc, Htr, <- app_assoc. simpl.
      split; [reflexivity|]. split; [auto|]. split; [auto|].
      intros y Hy. apply elem_of_app in Hy as [Hy|Hy]; [auto|].
      apply list_elem_of_singleton in Hy as ->. lia.
  - split.
    + intros y Hy. rewrite app_assoc in Hy. apply elem_of_app in Hy as [Hy|Hy].
      * specialize (Hle y Hy). lia.
      * apply list_elem_of_singleton in Hy as ->. lia.
    + exists (L ++ [h]), h1, []. rewrite app_assoc. split; [reflexivity|].
      split; [auto|]. split; [auto|]. intros y Hy. apply elem_of_nil in Hy as [].
Qed.

Lemma heap_effect_peak (e : Event) (h h1 : HeapGlobals.t) :
  heap_effect e h h1 -> dealloc_pos e ->
  HeapGlobals.curr_bytes h <= HeapGlobals.max_bytes h ->
  h1 = h \/
  (HeapGlobals.max_bytes h1 = HeapGlobals.max_bytes h /\
   HeapGlobals.max_blocks h1 = HeapGlobals.max_blocks h /\
   HeapGlobals.curr_bytes h1 < HeapGlobals.max_bytes h) \/
  (HeapGlobals.max_bytes h <= HeapGlobals.curr_bytes h1 /\
   HeapGlobals.max_bytes h1 = HeapGlobals.curr_bytes h1 /\
   HeapGlobals.max_blocks h1 = HeapGlobals.curr_blocks h1).
Proof.
  intros He Hpos Hcm.
  inversion He; subst; simpl in Hpos; try (left; reflexivity);
    try (unfold raise_counts;
         match goal with |- context [HeapGlobals.max_bytes h <=? ?c] =>
           destruct (Z.leb_spec (HeapGlobals.max_bytes h) c) end;
         [right; right; simpl; lia | right; left; simpl; lia]).
  right; left. simpl. lia.
Qed.

Lemma run_peak (es : list Event) : forall (w : World) (g : Globals.t) (h : HeapGlobals.t)
    (L : list HeapGlobals.t) (ws : list World),
  ignoring w = false -> phase w = Running g -> Globals.heap g = Some h ->
  peak_spec (L ++ [h]) h -> Forall dealloc_pos es -> run w es = Some ws ->
  exists hs, mapM heap_of ws = Some hs /\
    forall k hk, hs !! k = Some hk -> peak_spec (L ++ [h] ++ take (S k) hs) hk.
Proof.
  induction es as [|e es IH]; intros w g h L ws Hi Hph Hh Hpk Hpos Hrun; simpl in Hrun.
  - injection Hrun as <-. exists []. split; [reflexivity|]. intros k hk Hk. discriminate.
  - destruct (step w e) as [w1|] eqn:Es; simpl in Hrun; [|discriminate].
    destruct (run w1 es) as [ws1|] eqn:Er; simpl in Hrun; [|discriminate].
    injection Hrun as <-. apply Forall_cons in Hpos as [Hpe Hpos].
    destruct (step_heap_effect w w1 e g h Es Hi Hph Hh) as (g1 & h1 & Hph1 & Hh1 & He & Hi1 & _).
    assert (Hcm : HeapGlobals.curr_bytes h <= HeapGlobals.max_bytes h).
    { apply (proj1 Hpk). apply elem_of_app. right. left. }
    assert (Hn : peak_spec (L ++ [h] ++ [h1]) h1)
      by (apply peak_spec_next; [exact Hpk | exact (heap_effect_peak e h h1 He Hpe Hcm)]).
    rewrite app_assoc in Hn.
    destruct (IH w1 g1 h1 (L ++ [h]) ws1 Hi1 Hph1 Hh1 Hn Hpos Er) as (hs1 & Hm & Hall).
    exists (h1 :: hs1). split.
    + assert (Hw1 : heap_of w1 = Some h1) by (unfold heap_of; rewrite Hph1; exact Hh1).
      simpl. rewrite Hw1, Hm. reflexivity.
    + intros [|k] hk Hk; simpl in Hk.
      * injection Hk as <-. rewrite app_assoc. exact Hn.
      * specialize (Hall k hk Hk). rewrite <- app_assoc in Hall. exact Hall.
Qed.

Lemma build_heap_Returned (w0 w1 : World) (b : ProfilerBuilder) (stk : list Frame.t) (now : Z) :
  build w0 b stk now = (Returned tt, w1) -> ad_hoc b = false ->
  ignoring w1 = false /\ poisoned w1 = false /\ exists g, phase w1 = Running g /\
    Globals.heap g = Some (HeapGlobals.new now) /\ Globals.pp_infos g = [].
Proof.
  unfold build. intros H Hb.
  destruct (ignoring w0) eqn:Hi; [discriminate|].
  destruct (poisoned w0) eqn:Hp; [discriminate|].
  destruct (phase w0); [|discriminate|discriminate].
  injection H as <-. rewrite Hb. simpl. split; [exact Hi|]. split; [exact Hp|].
  eexists. split; [reflexivity|]. split; reflexivity.
Qed.

(** C1: from a heap profiler started by [build], along every run of
    intercepted events (deallocations of non-zero size), the global
    [max_bytes] after each event is the largest [curr_bytes] over the
    states so far, and [max_blocks] is the [curr_blocks] of the latest state
    whose [curr_bytes] equals that maximum (ties go to the latest state). *)
Theorem global_peak_tracks_max (w0 w1 : World) (b : ProfilerBuilder) (stk : list Frame.t)
    (now : Z) (es : list Event) (ws : list World) :
  build w0 b stk now = (Returned tt, w1) -> ad_hoc b = false ->
  Forall dealloc_pos es -> run w1 es = Some ws ->
  exists hs, mapM heap_of (w1 :: ws) = Some hs /\
    forall k hk, hs !! k = Some hk -> peak_spec (take (S k) hs) hk.
Proof.
  intros Hb Had Hpos Hrun.
  destruct (build_heap_Returned w0 w1 b stk now Hb Had) as (Hi & _ & g & Hph & Hh & _).
  assert (H0 : peak_spec ([] ++ [HeapGlobals.new now]) (HeapGlobals.new now)).
  { split.
    - intros x Hx. apply list_elem_of_singleton in Hx as ->. simpl. lia.
    - exists [], (HeapGlobals.new now), []. repeat split.
      intros y Hy. apply elem_of_nil in Hy as []. }
  destruct (run_peak es w1 g _ [] ws Hi Hph Hh H0 Hpos Hrun) as (hs & Hm & Hall).
  exists (HeapGlobals.new now :: hs). split.
  - assert (Hw1 : heap_of w1 = Some (HeapGlobals.new now))
      by (unfold heap_of; rewrite Hph; exact Hh).
    simpl. rewrite Hw1, Hm. reflexivity.
  - intros [|k] hk Hk; simpl in Hk.
    + injection Hk as <-. exact H0.
    + exact (Hall k hk Hk).
Qed.

(** ** The live-block table and the current counts *)

Lemma live_sum_insert (H : gmap Z Z) (live : gmap Z LiveBlock.t) (p : Z) (lb : LiveBlock.t) :
  live !! p = None ->
  live_sum H (<[p := lb]> live) = from_option id 0 (H !! p) + live_sum H live.
Proof.
  intros Hp. unfold live_sum.
  rewrite (map_fold_insert_L _ _ p lb live); [reflexivity | intros; lia | exact Hp].
Qed.

Lemma live_sum_delete (H : gmap Z Z) (live : gmap Z LiveBlock.t) (q : Z) (lb : LiveBlock.t) :
  live !! q = Some lb ->
  live_sum H live = from_option id 0 (H !! q) + live_sum H (delete q live).
Proof.
  intros Hq. unfold live_sum.
  rewrite (map_fold_delete_L _ _ q lb live) at 1; [reflexivity | intros; lia | exact Hq].
Qed.

Lemma live_sum_ext (H H' : gmap Z Z) (live : gmap Z LiveBlock.t) :
  (forall a, is_Some (live !! a) -> H !! a = H' !! a) ->
  live_sum H live = live_sum H' live.
Proof.
  induction live as [|i x m Hi IH] using map_ind; intros Hext.
  - reflexivity.
  - rewrite !live_sum_insert by exact Hi.
    rewrite (Hext i) by (rewrite lookup_insert_eq; eauto).
    rewrite IH; [reflexivity|]. intros a Ha. apply Hext.
    destruct (decide (a = i)) as [->|Hne]; [rewrite lookup_insert_eq; eauto|].
    rewrite lookup_insert_ne by congruence. exact Ha.
Qed.

Lemma size_delete_Some {A} (m : gmap Z A) (q : Z) (x : A) :
  m !! q = Some x -> Z.of_nat (stdpp.base.size m) = Z.of_nat (stdpp.base.size (delete q m)) + 1.
Proof.
  intros Hq. rewrite <- (insert_delete_id m q x Hq) at 1.
  rewrite map_size_insert_None by apply lookup_delete_eq. lia.
Qed.

Lemma raise_live (h : HeapGlobals.t) (live : gmap Z LiveBlock.t) (cb cby now : Z) :
  HeapGlobals.live_blocks (raise_counts h live cb cby now) = live.
Proof. unfold raise_counts. destruct (_ <=? _); reflexivity. Qed.

Lemma raise_cb (h : HeapGlobals.t) (live : gmap Z LiveBlock.t) (cb cby now : Z) :
  HeapGlobals.curr_blocks (raise_counts h live cb cby now) = cb.
Proof. unfold raise_counts. destruct (_ <=? _); reflexivity. Qed.

Lemma raise_cby (h : HeapGlobals.t) (live : gmap Z LiveBlock.t) (cb cby now : Z) :
  HeapGlobals.curr_bytes (raise_counts h live cb cby now) = cby.
Proof. unfold raise_counts. destruct (_ <=? _); reflexivity. Qed.

Lemma is_Some_ne {A} (m : gmap Z A) (a b : Z) :
  is_Some (m !! a) -> m !! b = None -> a <> b.
Proof. intros [x Ha] Hb ->. congruence. Qed.

Lemma delete_is_Some_ne {A} (m : gmap Z A) (a q : Z) :
  is_Some (delete q m !! a) -> a <> q /\ is_Some (m !! a).
Proof.
  intros Ha. destruct (decide (a = q)) as [->|Hne].
  - rewrite lookup_delete_eq in Ha. destruct Ha; discriminate.
  - rewrite lookup_delete_ne in Ha by congruence. auto.
Qed.

Lemma heap_effect_live_ok (H : gmap Z Z) (e : Event) (h h1 : HeapGlobals.t) :
  live_ok H h -> heap_effect e h h1 -> contract H e -> live_ok (heap_after H e) h1.
Proof.
  intros (Hdom & Hby & Hbl) He Hc.
  destruct He as [size stk now h | size p stk now h idx Hnz Hp
                 | q old_size new_size stk now h
                 | q old_size new_size p stk now h lb Hnz Hq Hfree
                 | q old_size new_size p stk now h idx Hnz Hq Hp
                 | q size now h lb Hq Hle | q size now h Hq];
    simpl in Hc |- *;
    repeat match goal with Hn : ?p <> 0 |- context [Z.eqb ?p 0] =>
      rewrite (proj2 (Z.eqb_neq p 0) Hn) end;
    try (split; [exact Hdom | split; assumption]);
    unfold live_ok; rewrite ?raise_live, ?raise_cb, ?raise_cby; simpl.
  - (* fresh allocation *)
    split; [|split].
    + intros a Ha. destruct (decide (a = p)) as [->|Hne]; [rewrite lookup_insert_eq; eauto|].
      rewrite lookup_insert_ne in Ha by congruence. rewrite lookup_insert_ne by congruence. auto.
    + rewrite live_sum_insert by exact Hp. rewrite lookup_insert_eq. simpl.
      rewrite (live_sum_ext (<[p:=size]> H) H); [lia|].
      intros a Ha. rewrite lookup_insert_ne; [reflexivity|].
      intros ->. destruct Ha; congruence.
    + rewrite map_size_insert_None by exact Hp. lia.
  - (* realloc of a live block *)
    split; [|split].
    + intros a Ha. destruct (decide (a = p)) as [->|Hne]; [rewrite lookup_insert_eq; eauto|].
      rewrite lookup_insert_ne in Ha by congruence. rewrite lookup_insert_ne by congruence.
      apply delete_is_Some_ne in Ha as [Hneq Ha].
      rewrite lookup_delete_ne by congruence. auto.
    + rewrite live_sum_insert by exact Hfree. rewrite lookup_insert_eq. simpl.
      rewrite (live_sum_ext (<[p:=new_size]> (delete q H)) H).
      * rewrite (live_sum_delete H _ q lb Hq), Hc in Hby. simpl in Hby. lia.
      * intros a Ha. pose proof (is_Some_ne _ _ _ Ha Hfree).
        apply delete_is_Some_ne in Ha as [Hneq _].
        rewrite lookup_insert_ne, lookup_delete_ne by congruence. reflexivity.
    + rewrite map_size_insert_None by exact Hfree.
      rewrite (size_delete_Some _ q lb Hq) in Hbl. lia.
  - (* realloc of an untracked block *)
    split; [|split].
    + intros a Ha. destruct (decide (a = p)) as [->|Hne]; [rewrite lookup_insert_eq; eauto|].
      rewrite lookup_insert_ne in Ha by congruence. rewrite lookup_insert_ne by congruence.
      rewrite lookup_delete_ne by exact (not_eq_sym (is_Some_ne _ _ _ Ha Hq)). auto.
    + rewrite live_sum_insert by exact Hp. rewrite lookup_insert_eq. simpl.
      rewrite (live_sum_ext (<[p:=new_size]> (delete q H)) H); [lia|].
      intros a Ha. pose proof (is_Some_ne _ _ _ Ha Hp). pose proof (is_Some_ne _ _ _ Ha Hq).
      rewrite lookup_insert_ne, lookup_delete_ne by congruence. reflexivity.
    + rewrite map_size_insert_None by exact Hp. lia.
  - (* free of a live block *)
    split; [|split].
    + intros a Ha. apply delete_is_Some_ne in Ha as [Hneq Ha].
      rewrite lookup_delete_ne by congruence. auto.
    + rewrite (live_sum_ext (delete q H) H).
      * rewrite (live_sum_delete H _ q lb Hq), Hc in Hby. simpl in Hby. lia.
      * intros a Ha. apply delete_is_Some_ne in Ha as [Hneq _].
        rewrite lookup_delete_ne by congruence. reflexivity.
    + rewrite (size_delete_Some _ q lb Hq) in Hbl. lia.
  - (* free of an untracked block *)
    split; [|split].
    + intros a Ha. rewrite lookup_delete_ne by exact (not_eq_sym (is_Some_ne _ _ _ Ha Hq)).
      auto.
    + rewrite (live_sum_ext (delete q H) H); [exact Hby|].
      intros a Ha. rewrite lookup_delete_ne by exact (not_eq_sym (is_Some_ne _ _ _ Ha Hq)).
      reflexivity.
    + exact Hbl.
Qed.

Lemma run_live_ok (es : list Event) : forall (w : World) (g : Globals.t) (h : HeapGlobals.t)
    (H : gmap Z Z) (ws : list World),
  ignoring w = false -> phase w = Running g -> Globals.heap g = Some h ->
  live_ok H h -> contract_run H es -> run w es = Some ws ->
  forall k wk, (w :: ws) !! k = Some wk ->
  exists hk, heap_of wk = Some hk /\ live_ok (fold_left heap_after (take k es) H) hk.
Proof.
  induction es as [|e es IH]; intros w g h H ws Hi Hph Hh Hok Hc Hrun k wk Hk; simpl in Hrun.
  - injection Hrun as <-. destruct k as [|k]; simpl in Hk; [|discriminate].
    injection Hk as <-. exists h. unfold heap_of. rewrite Hph. auto.
  - destruct (step w e) as [w1|] eqn:Es; simpl in Hrun; [|discriminate].
    destruct (run w1 es) as [ws1|] eqn:Er; simpl in Hrun; [|discriminate].
    injection Hrun as <-. destruct Hc as [Hce Hc].
    destruct k as [|k]; simpl in Hk.
    + injection Hk as <-. exists h. unfold heap_of. rewrite Hph. auto.
    + destruct (step_heap_effect w w1 e g h Es Hi Hph Hh)
        as (g1 & h1 & Hph1 & Hh1 & He & Hi1 & _).
      exact (IH w1 g1 h1 (heap_after H e) ws1 Hi1 Hph1 Hh1
               (heap_effect_live_ok H e h h1 Hok He Hce) Hc Er k wk Hk).
Qed.

(** C2: from a heap profiler started by [build], along every run of
    intercepted events in which the program frees and reallocates only
    blocks it holds, with their layout sizes ([contract_run], over any map
    [H0] of blocks held at the start), after each event the global
    [curr_bytes] is the sum of the sizes of the blocks in the live-block
    table and [curr_blocks] is its number of entries; the table is a map, so
    each address occurs in it at most once. *)
Theorem live_table_accounting (w0 w1 : World) (b : ProfilerBuilder) (stk : list Frame.t)
    (now : Z) (H0 : gmap Z Z) (es : list Event) (ws : list World) :
  build w0 b stk now = (Returned tt, w1) -> ad_hoc b = false ->
  contract_run H0 es -> run w1 es = Some ws ->
  forall k wk, (w1 :: ws) !! k = Some wk ->
  exists hk, heap_of wk = Some hk /\
    HeapGlobals.curr_bytes hk =
      live_sum (fold_left heap_after (take k es) H0) (HeapGlobals.live_blocks hk) /\
    HeapGlobals.curr_blocks hk = Z.of_nat (stdpp.base.size (HeapGlobals.live_blocks hk)) /\
    NoDup (map fst (map_to_list (HeapGlobals.live_blocks hk))).
Proof.
  intros Hb Had Hc Hrun k wk Hk.
  destruct (build_heap_Returned w0 w1 b stk now Hb Had) as (Hi & _ & g & Hph & Hh & _).
  assert (H0ok : live_ok H0 (HeapGlobals.new now)).
  { split; [|split]; simpl.
    - intros a Ha. rewrite lookup_empty in Ha. destruct Ha; discriminate.
    - reflexivity.
    - rewrite map_size_empty. reflexivity. }
  destruct (run_live_ok es w1 g _ H0 ws Hi Hph Hh H0ok Hc Hrun k wk Hk)
    as (hk & Hhk & _ & Hby & Hbl).
  exists hk. split; [exact Hhk|]. split; [exact Hby|]. split; [exact Hbl|].
  apply NoDup_fst_map_to_list.
Qed.

(** ** The per-PP inequality *)

Lemma pp_ok_counters (p q : PpInfo.t) : pp_counters p = pp_counters q -> pp_ok q -> pp_ok p.
Proof.
  destruct p as [tb tby [hp|]], q as [tb' tby' [hq|]]; unfold pp_counters, pp_ok; simpl;
    intros He; try discriminate; [|auto].
  injection He as -> -> _ Hc _ Hm _. rewrite Hc, Hm. auto.
Qed.

Lemma Forall_pp_ok_counters (l1 l2 : list PpInfo.t) :
  map pp_counters l1 = map pp_counters l2 -> Forall pp_ok l2 -> Forall pp_ok l1.
Proof.
  revert l2. induction l1 as [|p l1 IH]; intros [|q l2] He Hok; simpl in He;
    try discriminate; [constructor|].
  pose proof (f_equal (hd (pp_counters p)) He) as Hpq.
  pose proof (f_equal (@tl _) He) as Hl. simpl in Hpq, Hl.
  apply Forall_cons in Hok as [Hq Hok].
  constructor; [exact (pp_ok_counters p q Hpq Hq) | exact (IH l2 Hl Hok)].
Qed.

Lemma get_pp_info_ok (g : Globals.t) (bt : Backtrace) :
  Forall pp_ok (Globals.pp_infos g) ->
  Forall pp_ok (Globals.pp_infos (Globals.get_pp_info g bt PpInfo.new_heap).1).
Proof.
  intros Hok. destruct (get_pp_info_cases g bt PpInfo.new_heap) as [-> | ->]; [exact Hok|].
  simpl. apply Forall_app. split; [exact Hok|]. constructor; [|constructor].
  unfold pp_ok. simpl. lia.
Qed.

Lemma pp_update_counts_for_alloc_ok (p p' : PpInfo.t) (size : Z) (delta : option Delta) :
  pp_ok p -> 0 <= size ->
  (forall d, delta = Some d -> exists o, 0 <= o /\ d = Delta_new o size) ->
  PpInfo.update_counts_for_alloc p size delta = Some p' -> pp_ok p'.
Proof.
  intros Hok Hs Hd H.
  apply pp_update_counts_for_alloc_Some in H as (hp & tb & tby & cb & cby & Hh & _ & Htby & Hcs & ->).
  unfold pp_ok in *. rewrite Hh in Hok. simpl.
  apply add_usize_Some in Htby as [-> _].
  assert (Hcby : cby <= HeapPpInfo.curr_bytes hp + size).
  { destruct delta as [d|]; destruct Hcs as [_ Hcby].
    - destruct (Hd d eq_refl) as (o & Ho & ->). apply add_delta_new in Hcby. lia.
    - apply add_usize_Some in Hcby. lia. }
  destruct (Z.leb_spec (HeapPpInfo.max_bytes hp) cby); lia.
Qed.

Lemma pp_update_counts_for_dealloc_ok (p p' : PpInfo.t) (size dur : Z) :
  pp_ok p -> 0 <= size -> PpInfo.update_counts_for_dealloc p size dur = Some p' -> pp_ok p'.
Proof.
  unfold PpInfo.update_counts_for_dealloc, pp_ok. intros Hok Hs H.
  destruct p as [tb tby [hp|]]; simpl in *; [|discriminate].
  destruct (sub_usize (HeapPpInfo.curr_blocks hp) 1) as [cb|]; simpl in H; [|discriminate].
  destruct (sub_usize (HeapPpInfo.curr_bytes hp) size) as [cby|] eqn:E; simpl in H; [|discriminate].
  injection H as <-. simpl. apply sub_usize_Some in E. lia.
Qed.

(** The recording half shared by [alloc] and both paths of [realloc]. *)
Lemma record_and_count_ok (g3 g4 g5 : Globals.t) (p : Z) (idx : nat) (size now : Z)
    (delta : option Delta) :
  Forall pp_ok (Globals.pp_infos g3) -> 0 <= size ->
  (forall d, delta = Some d -> exists o, 0 <= o /\ d = Delta_new o size) ->
  Globals.record_block g3 p idx now = Some g4 ->
  Globals.update_counts_for_alloc g4 idx size delta now = Some g5 ->
  Forall pp_ok (Globals.pp_infos g5).
Proof.
  intros Hok Hs Hd E4 E5.
  apply record_block_Some in E4 as (h3 & _ & _ & ->).
  apply update_counts_for_alloc_Some in E5
    as (h4 & tb & tby & cb & cby & pp & pp' & _ & _ & _ & _ & Hlk & Hu & ->).
  simpl in *. apply Forall_insert; [exact Hok|].
  apply (pp_update_counts_for_alloc_ok pp pp' size delta); auto.
  exact (proj1 (Forall_lookup _ _) Hok idx pp Hlk).
Qed.

Lemma alloc_pps_ok (w w' : World) (size p : Z) (stk : list Frame.t) (now r : Z) :
  alloc w size p stk now = Some (r, w') -> 0 <= size ->
  world_pps_ok w -> world_pps_ok w'.
Proof.
  unfold alloc. intros H Hs Hok.
  destruct (ignoring w); [injection H as _ <-; exact Hok|].
  destruct (poisoned w); [discriminate|].
  destruct (p =? 0); [injection H as _ <-; exact Hok|].
  unfold world_pps_ok in Hok.
  destruct (phase w) as [|g|] eqn:Hph;
    try (injection H as _ <-; unfold world_pps_ok; rewrite Hph; exact Hok).
  destruct (Globals.heap g) as [h|]; [|injection H as _ <-; unfold world_pps_ok; rewrite Hph; exact Hok].
  destruct (new_backtrace g stk) as [[g1 bt]|] eqn:E1; simpl in H; [|discriminate].
  apply new_backtrace_Some in E1 as [f ->].
  destruct (Globals.get_pp_info (Globals.set_frames_to_trim g f) bt PpInfo.new_heap)
    as [g2 idx] eqn:E2.
  pose proof (get_pp_info_ok (Globals.set_frames_to_trim g f) bt Hok) as Hok2.
  rewrite E2 in Hok2. simpl in Hok2.
  destruct (Globals.record_block g2 p idx now) as [g3|] eqn:E3; simpl in H; [|discriminate].
  destruct (Globals.update_counts_for_alloc g3 idx size None now) as [g4|] eqn:E4;
    simpl in H; [|discriminate].
  injection H as _ <-. unfold world_pps_ok. simpl.
  apply (record_and_count_ok g2 g3 g4 p idx size now None); auto. discriminate.
Qed.

Lemma realloc_pps_ok (w w' : World) (q old_size new_size p : Z) (stk : list Frame.t)
    (now r : Z) :
  realloc w q old_size new_size p stk now = Some (r, w') -> 0 <= old_size -> 0 <= new_size ->
  world_pps_ok w -> world_pps_ok w'.
Proof.
  unfold realloc. intros H Ho Hn Hok.
  destruct (ignoring w); [injection H as _ <-; exact Hok|].
  destruct (poisoned w); [discriminate|].
  destruct (p =? 0); [injection H as _ <-; exact Hok|].
  unfold world_pps_ok in Hok.
  destruct (phase w) as [|g|] eqn:Hph;
    try (injection H as _ <-; unfold world_pps_ok; rewrite Hph; exact Hok).
  destruct (Globals.heap g) as [h|] eqn:Hh; [|injection H as _ <-; unfold world_pps_ok; rewrite Hph; exact Hok].
  destruct (if shrinking (Delta_new old_size new_size)
            then Globals.check_for_global_peak g else Some g) as [g1|] eqn:E1;
    simpl in H; [|discriminate].
  apply peak_if_Some in E1 as (pps & -> & Hc).
  pose proof (Forall_pp_ok_counters pps _ Hc Hok) as Hok1.
  simpl in H. rewrite Hh in H. simpl in H.
  destruct (HeapGlobals.live_blocks h !! q) as [lb|]; simpl in H.
  - destruct (Globals.record_block _ p (LiveBlock.pp_info_idx lb) now) as [g4|] eqn:E4;
      simpl in H; [|discriminate].
    destruct (Globals.update_counts_for_alloc g4 _ new_size _ now) as [g5|] eqn:E5;
      simpl in H; [|discriminate].
    injection H as _ <-. unfold world_pps_ok. simpl.
    match type of E4 with Globals.record_block ?g3 _ _ _ = _ =>
      refine (record_and_count_ok g3 g4 g5 p _ new_size now _ Hok1 Hn _ E4 E5) end.
    intros d Hd. injection Hd as <-. eauto.
  - destruct (new_backtrace _ stk) as [[g' bt]|] eqn:E2; simpl in H; [|discriminate].
    apply new_backtrace_Some in E2 as [f ->].
    destruct (Globals.get_pp_info _ bt PpInfo.new_heap) as [g'' idx] eqn:E3. simpl in H.
    match type of E3 with Globals.get_pp_info ?g0 _ _ = _ =>
      pose proof (get_pp_info_ok g0 bt Hok1) as Hok2 end.
    rewrite E3 in Hok2. simpl in Hok2.
    destruct (Globals.record_block g'' p idx now) as [g4|] eqn:E4; simpl in H; [|discriminate].
    destruct (Globals.update_counts_for_alloc g4 idx new_size None now) as [g5|] eqn:E5;
      simpl in H; [|discriminate].
    injection H as _ <-. unfold world_pps_ok. simpl.
    apply (record_and_count_ok g'' g4 g5 p idx new_size now None); auto. discriminate.
Qed.

Lemma dealloc_pps_ok (w w' : World) (q size now : Z) :
  dealloc w q size now = Some w' -> 0 <= size -> world_pps_ok w -> world_pps_ok w'.
Proof.
  unfold dealloc. intros H Hs Hok.
  destruct (ignoring w); [injection H as <-; exact Hok|].
  destruct (poisoned w); [discriminate|].
  unfold world_pps_ok in Hok.
  destruct (phase w) as [|g|] eqn:Hph;
    try (injection H as <-; unfold world_pps_ok; rewrite Hph; exact Hok).
  destruct (Globals.heap g) as [h|]; [|injection H as <-; unfold world_pps_ok; rewrite Hph; exact Hok].
  destruct (HeapGlobals.live_blocks h !! q) as [lb|].
  - destruct (Globals.check_for_global_peak _) as [g2|] eqn:E2; simpl in H; [|discriminate].
    destruct (Globals.update_counts_for_dealloc g2 _ size _) as [g3|] eqn:E3;
      simpl in H; [|discriminate].
    injection H as <-. unfold world_pps_ok. simpl.
    apply check_for_global_peak_Some in E2 as (pps & -> & Hc & _).
    pose proof (Forall_pp_ok_counters pps _ Hc Hok) as Hok1.
    apply update_counts_for_dealloc_Some in E3
      as (h3 & cb & cby & pp & pp' & _ & _ & _ & Hlk & Hu & ->).
    simpl in *. apply Forall_insert; [exact Hok1|].
    refine (pp_update_counts_for_dealloc_ok pp pp' size _ _ Hs Hu).
    exact (proj1 (Forall_lookup _ _) Hok1 _ pp Hlk).
  - injection H as <-. unfold world_pps_ok. simpl. exact Hok.
Qed.

Lemma step_pps_ok (w w' : World) (e : Event) :
  step w e = Some w' -> event_wf e -> world_pps_ok w -> world_pps_ok w'.
Proof.
  destruct e as [size p stk now|q old_size new_size p stk now|q size now]; simpl;
    unfold usize_ok; intros H Hwf.
  - destruct (alloc w size p stk now) as [[r w1]|] eqn:E; simpl in H; [|discriminate].
    injection H as <-. apply (alloc_pps_ok w w1 size p stk now r E). lia.
  - destruct (realloc w q old_size new_size p stk now) as [[r w1]|] eqn:E; simpl in H;
      [|discriminate].
    injection H as <-. apply (realloc_pps_ok w w1 q old_size new_size p stk now r E); lia.
  - apply (dealloc_pps_ok w w' q size now H). lia.
Qed.

(** C4: along every run of intercepted events with [usize] arguments, from
    any world in which every program point satisfies
    [total_bytes >= max_bytes >= curr_bytes] (as after [build], where there
    are none), every program point with heap statistics satisfies it again
    after each event. *)
Theorem pp_bytes_ordered (w : World) (es : list Event) (ws : list World) :
  world_pps_ok w -> Forall event_wf es -> run w es = Some ws -> Forall world_pps_ok ws.
Proof.
  revert w ws. induction es as [|e es IH]; intros w ws Hok Hwf Hrun; simpl in Hrun.
  - injection Hrun as <-. constructor.
  - destruct (step w e) as [w1|] eqn:Es; simpl in Hrun; [|discriminate].
    destruct (run w1 es) as [ws1|] eqn:Er; simpl in Hrun; [|discriminate].
    injection Hrun as <-. apply Forall_cons in Hwf as [He Hwf].
    pose proof (step_pps_ok w w1 e Es He Hok) as Hok1.
    constructor; [exact Hok1 | exact (IH w1 ws1 Hok1 Hwf Er)].
Qed.

(** ** Realloc *)

Lemma lookup_map_counters (l : list PpInfo.t) (i : nat) :
  map pp_counters l !! i = option_map pp_counters (l !! i).
Proof. revert i. induction l as [|x l IH]; intros [|i]; simpl; auto. Qed.

Lemma set_heap_id (g : Globals.t) (h : HeapGlobals.t) :
  Globals.heap g = Some h -> Globals.set_heap g (Some h) = g.
Proof. destruct g; simpl; intros ->; reflexivity. Qed.

Lemma realloc_tracked_effect (w w' : World) (g : Globals.t) (h : HeapGlobals.t)
    (q old_size new_size p : Z) (stk : list Frame.t) (now r : Z) (lb : LiveBlock.t) :
  ignoring w = false -> phase w = Running g -> Globals.heap g = Some h -> p <> 0 ->
  HeapGlobals.live_blocks h !! q = Some lb ->
  realloc w q old_size new_size p stk now = Some (r, w') ->
  exists g' h' pp pp' hp hp',
    phase w' = Running g' /\ Globals.heap g' = Some h' /\
    HeapGlobals.curr_blocks h' = HeapGlobals.curr_blocks h /\
    HeapGlobals.curr_bytes h' = HeapGlobals.curr_bytes h + new_size - old_size /\
    HeapGlobals.live_blocks h' =
      <[p := LiveBlock.mk (LiveBlock.pp_info_idx lb) now]> (delete q (HeapGlobals.live_blocks h)) /\
    Globals.total_blocks g' = Globals.total_blocks g + 1 /\
    Globals.total_bytes g' = Globals.total_bytes g + new_size /\
    Globals.pp_infos g !! LiveBlock.pp_info_idx lb = Some pp /\ PpInfo.heap pp = Some hp /\
    Globals.pp_infos g' !! LiveBlock.pp_info_idx lb = Some pp' /\ PpInfo.heap pp' = Some hp' /\
    HeapPpInfo.curr_blocks hp' = HeapPpInfo.curr_blocks hp /\
    HeapPpInfo.curr_bytes hp' = HeapPpInfo.curr_bytes hp + new_size - old_size /\
    PpInfo.total_blocks pp' = PpInfo.total_blocks pp + 1 /\
    PpInfo.total_bytes pp' = PpInfo.total_bytes pp + new_size.
Proof.
  intros Hi Hph Hh Hnz Hq H. unfold realloc in H. rewrite Hi in H.
  destruct (poisoned w); [discriminate|].
  rewrite (proj2 (Z.eqb_neq p 0) Hnz), Hph, Hh in H.
  destruct (if shrinking (Delta_new old_size new_size)
            then Globals.check_for_global_peak g else Some g) as [g1|] eqn:E1;
    simpl in H; [|discriminate].
  apply peak_if_Some in E1 as (pps & -> & Hc).
  simpl in H. rewrite Hh in H. simpl in H. rewrite Hq in H. simpl in H.
  destruct (Globals.record_block _ p (LiveBlock.pp_info_idx lb) now) as [g4|] eqn:E4;
    simpl in H; [|discriminate].
  destruct (Globals.update_counts_for_alloc g4 _ new_size _ now) as [g5|] eqn:E5;
    simpl in H; [|discriminate].
  injection H as <- <-.
  apply record_block_Some in E4 as (h3 & Hh3 & Hfree & ->).
  simpl in Hh3. injection Hh3 as <-.
  apply update_counts_for_alloc_Some in E5
    as (h4 & tb & tby & cb & cby & pp1 & pp' & Hh4 & Htb & Htby & Hcs & Hlk & Hu & ->).
  simpl in Hh4, Htb, Htby, Hlk. injection Hh4 as <-.
  destruct Hcs as [Hcb Hcby]. simpl in Hcb, Hcby.
  apply add_usize_Some in Hcb as [-> _]. apply add_delta_new in Hcby as ->.
  apply add_usize_Some in Htb as [-> _]. apply add_usize_Some in Htby as [-> _].
  apply pp_update_counts_for_alloc_Some in Hu
    as (hp1 & tb' & tby' & cb' & cby' & Hhp1 & Htb' & Htby' & Hcs' & ->).
  destruct Hcs' as [Hcb' Hcby'].
  apply add_usize_Some in Hcb' as [-> _]. apply add_delta_new in Hcby' as ->.
  apply add_usize_Some in Htb' as [-> _]. apply add_usize_Some in Htby' as [-> _].
  pose proof (f_equal (fun l => l !! LiveBlock.pp_info_idx lb) Hc) as Hc'. simpl in Hc'.
  rewrite !lookup_map_counters, Hlk in Hc'.
  destruct (Globals.pp_infos g !! LiveBlock.pp_info_idx lb) as [pp0|] eqn:E0;
    simpl in Hc'; [|discriminate].
  assert (Hpc : pp_counters pp1 = pp_counters pp0) by congruence. clear Hc'.
  unfold pp_counters in Hpc. rewrite Hhp1 in Hpc.
  destruct (PpInfo.heap pp0) as [hp0|] eqn:Hhp0; simpl in Hpc; [|discriminate].
  injection Hpc as Htb0 Htby0 Hcb0 Hcby0 _ _ _.
  do 6 eexists. split; [reflexivity|]. split; [reflexivity|].
  rewrite raise_cb, raise_cby, raise_live. simpl.
  split; [lia|]. split; [lia|]. split; [reflexivity|]. split; [reflexivity|].
  split; [reflexivity|]. split; [first [exact E0 | reflexivity]|]. split; [exact Hhp0|].
  split; [apply list_lookup_insert_eq; exact (lookup_lt_Some _ _ _ Hlk)|].
  split; [reflexivity|]. simpl. lia.
Qed.

Lemma realloc_untracked_as_alloc (w : World) (g : Globals.t) (h : HeapGlobals.t)
    (q old_size new_size p : Z) (stk : list Frame.t) (now : Z) :
  ignoring w = false -> poisoned w = false -> phase w = Running g ->
  Globals.heap g = Some h -> p <> 0 -> HeapGlobals.live_blocks h !! q = None ->
  realloc w q old_size new_size p stk now =
    (g1 ← (if new_size <? old_size then Globals.check_for_global_peak g else Some g);
     alloc (set_phase w (Running g1)) new_size p stk now).
Proof.
  intros Hi Hp Hph Hh Hnz Hq. unfold realloc.
  rewrite Hi, Hp, (proj2 (Z.eqb_neq p 0) Hnz), Hph, Hh.
  replace (shrinking (Delta_new old_size new_size)) with (new_size <? old_size)
    by (unfold Delta_new; destruct (new_size <? old_size); reflexivity).
  destruct (if new_size <? old_size then Globals.check_for_global_peak g else Some g)
    as [g1|] eqn:E1; simpl; [|reflexivity].
  apply peak_if_Some in E1 as (pps & -> & _). simpl. rewrite Hh. simpl. rewrite Hq. simpl.
  rewrite delete_id by exact Hq. rewrite set_live_blocks_id.
  rewrite (set_heap_id _ h) by exact Hh.
  unfold alloc. simpl. rewrite Hi, Hp, (proj2 (Z.eqb_neq p 0) Hnz), Hh.
  destruct (new_backtrace _ stk) as [[g' bt]|]; simpl; [|reflexivity].
  destruct (Globals.get_pp_info g' bt PpInfo.new_heap); simpl. reflexivity.
Qed.

Lemma alloc_totals (w w' : World) (g : Globals.t) (h : HeapGlobals.t) (size p : Z)
    (stk : list Frame.t) (now r : Z) :
  ignoring w = false -> phase w = Running g -> Globals.heap g = Some h -> p <> 0 ->
  alloc w size p stk now = Some (r, w') ->
  exists g', phase w' = Running g' /\
    Globals.total_blocks g' = Globals.total_blocks g + 1 /\
    Globals.total_bytes g' = Globals.total_bytes g + size.
Proof.
  intros Hi Hph Hh Hnz H. unfold alloc in H. rewrite Hi in H.
  destruct (poisoned w); [discriminate|].
  rewrite (proj2 (Z.eqb_neq p 0) Hnz), Hph, Hh in H.
  destruct (new_backtrace g stk) as [[g1 bt]|] eqn:E1; simpl in H; [|discriminate].
  apply new_backtrace_Some in E1 as [f ->].
  destruct (Globals.get_pp_info (Globals.set_frames_to_trim g f) bt PpInfo.new_heap)
    as [g2 idx] eqn:E2.
  assert (Ht : Globals.total_blocks g2 = Globals.total_blocks g /\
               Globals.total_bytes g2 = Globals.total_bytes g).
  { destruct (get_pp_info_cases (Globals.set_frames_to_trim g f) bt PpInfo.new_heap)
      as [Hc|Hc]; rewrite E2 in Hc; simpl in Hc; subst; auto. }
  destruct (Globals.record_block g2 p idx now) as [g3|] eqn:E3; simpl in H; [|discriminate].
  destruct (Globals.update_counts_for_alloc g3 idx size None now) as [g4|] eqn:E4;
    simpl in H; [|discriminate].
  injection H as _ <-.
  apply record_block_Some in E3 as (h3 & _ & _ & ->).
  apply update_counts_for_alloc_Some in E4
    as (h4 & tb & tby & cb & cby & pp & pp' & _ & Htb & Htby & _ & _ & _ & ->).
  simpl in Htb, Htby. apply add_usize_Some in Htb as [-> _].
  apply add_usize_Some in Htby as [-> _].
  eexists. split; [reflexivity|]. simpl. lia.
Qed.

(** C3 (counterexample): an untracked shrinking realloc is not a fresh
    alloc on every counter.  In [world_one_block] (curr_bytes = max_bytes =
    16), reallocating the untracked address 8192 from 32 to 8 bytes runs the
    peak check first, which snapshots PP 0 at-t-gmax to (1, 16); a fresh
    alloc of 8 bytes leaves it at (0, 0). *)
Lemma realloc_untracked_not_alloc :
  option_map (fun x => pp_at_tgmax x.2 0%nat)
    (realloc world_one_block 8192 32 8 12288 stk_b 2) = Some (Some (1, 16)) /\
  option_map (fun x => pp_at_tgmax x.2 0%nat)
    (alloc world_one_block 8 12288 stk_b 2) = Some (Some (0, 0)).
Proof. split; vm_compute; reflexivity. Qed.

(** C3: a realloc intercepted while a heap profiler is running, whose
    inner reallocation returns the non-null [p]: (1) for a live [q], the
    global and per-PP [curr_blocks] are unchanged, both [curr_bytes] move by
    [new_size - old_size], the live entry moves to [p] under the same PP,
    and the global and per-PP totals grow by 1 block and [new_size] bytes;
    (2) for an untracked [q], the realloc is a fresh alloc of [new_size],
    run after the global peak check when [new_size < old_size]; (3) in both
    cases [total_blocks] grows by 1 and [total_bytes] by [new_size]. *)
Theorem realloc_counts (w w' : World) (g : Globals.t) (h : HeapGlobals.t)
    (q old_size new_size p : Z) (stk : list Frame.t) (now r : Z) :
  ignoring w = false -> poisoned w = false -> phase w = Running g ->
  Globals.heap g = Some h -> p <> 0 ->
  (forall lb, HeapGlobals.live_blocks h !! q = Some lb ->
   realloc w q old_size new_size p stk now = Some (r, w') ->
   exists g' h' pp pp' hp hp',
    phase w' = Running g' /\ Globals.heap g' = Some h' /\
    HeapGlobals.curr_blocks h' = HeapGlobals.curr_blocks h /\
    HeapGlobals.curr_bytes h' = HeapGlobals.curr_bytes h + new_size - old_size /\
    HeapGlobals.live_blocks h' =
      <[p := LiveBlock.mk (LiveBlock.pp_info_idx lb) now]> (delete q (HeapGlobals.live_blocks h)) /\
    Globals.total_blocks g' = Globals.total_blocks g + 1 /\
    Globals.total_bytes g' = Globals.total_bytes g + new_size /\
    Globals.pp_infos g !! LiveBlock.pp_info_idx lb = Some pp /\ PpInfo.heap pp = Some hp /\
    Globals.pp_infos g' !! LiveBlock.pp_info_idx lb = Some pp' /\ PpInfo.heap pp' = Some hp' /\
    HeapPpInfo.curr_blocks hp' = HeapPpInfo.curr_blocks hp /\
    HeapPpInfo.curr_bytes hp' = HeapPpInfo.curr_bytes hp + new_size - old_size /\
    PpInfo.total_blocks pp' = PpInfo.total_blocks pp + 1 /\
    PpInfo.total_bytes pp' = PpInfo.total_bytes pp + new_size) /\
  (HeapGlobals.live_blocks h !! q = None ->
   realloc w q old_size new_size p stk now =
     (g1 ← (if new_size <? old_size then Globals.check_for_global_peak g else Some g);
      alloc (set_phase w (Running g1)) new_size p stk now)) /\
  (realloc w q old_size new_size p stk now = Some (r, w') ->
   exists g', phase w' = Running g' /\
     Globals.total_blocks g' = Globals.total_blocks g + 1 /\
     Globals.total_bytes g' = Globals.total_bytes g + new_size).
Proof.
  intros Hi Hp Hph Hh Hnz. split; [|split].
  - intros lb Hq H. exact (realloc_tracked_effect w w' g h q old_size new_size p stk now r lb
                             Hi Hph Hh Hnz Hq H).
  - exact (realloc_untracked_as_alloc w g h q old_size new_size p stk now Hi Hp Hph Hh Hnz).
  - intros H. destruct (HeapGlobals.live_blocks h !! q) as [lb|] eqn:Hq.
    + destruct (realloc_tracked_effect w w' g h q old_size new_size p stk now r lb
                  Hi Hph Hh Hnz Hq H)
        as (g' & _ & _ & _ & _ & _ & Hph' & _ & _ & _ & _ & Htb & Htby & _).
      eauto.
    + rewrite (realloc_untracked_as_alloc w g h q old_size new_size p stk now
                 Hi Hp Hph Hh Hnz Hq) in H.
      destruct (if new_size <? old_size then Globals.check_for_global_peak g else Some g)
        as [g1|] eqn:E1; simpl in H; [|discriminate].
      apply peak_if_Some in E1 as (pps & -> & _).
      exact (alloc_totals (set_phase w (Running (Globals.set_pps g pps (Globals.backtraces g))))
               w' _ h new_size p stk now r Hi eq_refl Hh Hnz H).
Qed.

(** ** The trim sets *)

Lemma ips_lookup (fs : list Frame.t) (i : nat) :
  (i < length fs)%nat -> map Frame.ip fs !! i = Some (ip_at fs i).
Proof.
  unfold ip_at. revert i. induction fs as [|f fs IH]; intros [|i] Hi; simpl in *; try lia.
  - reflexivity.
  - apply IH. lia.
Qed.

Lemma rev_ips_lookup (fs : list Frame.t) (j : nat) :
  (j < length fs)%nat -> reverse (map Frame.ip fs) !! j = Some (ip_at fs (length fs - 1 - j)).
Proof.
  intros Hj. rewrite reverse_lookup by (rewrite length_map; exact Hj).
  rewrite length_map. replace (length fs - S j)%nat with (length fs - 1 - j)%nat by lia.
  apply ips_lookup. lia.
Qed.

Lemma filter_all_top (M : gmap Z TB) :
  map_Forall (fun _ v => v = Top) M -> filter (fun kv => kv.2 = Bottom) M = ∅.
Proof.
  intros HM. apply map_eq. intros k. rewrite map_lookup_filter, lookup_empty.
  destruct (M !! k) as [v|] eqn:E; simpl; [|reflexivity].
  rewrite (HM k v E). reflexivity.
Qed.

Lemma top_walk_eq (fs1 fs2 : list Frame.t) (fuel : nat) : forall (i : nat) (M : gmap Z TB),
  (0 < length fs1)%nat -> (0 < length fs2)%nat ->
  map_Forall (fun _ v => v = Top) M ->
  (i <= Nat.min (length fs1) (length fs2) - 1)%nat ->
  (Nat.min (length fs1) (length fs2) - 1 - i < fuel)%nat ->
  top_walk fuel fs1 fs2 i i M =
    if bool_decide (Nat.min (length fs1) (length fs2) - 1 <=
          i + common_prefix_len (drop i (map Frame.ip fs1)) (drop i (map Frame.ip fs2)))%nat
    then ∅
    else mark Top (take (common_prefix_len (drop i (map Frame.ip fs1)) (drop i (map Frame.ip fs2)))
                     (drop i (map Frame.ip fs1))) M.
Proof.
  induction fuel as [|fuel IH]; intros i M H1 H2 HM Hi Hf; [lia|].
  cbn [top_walk].
  destruct (bool_decide (i = length fs1 - 1)%nat || bool_decide (i = length fs2 - 1)%nat)
    eqn:Ehit.
  - rewrite bool_decide_eq_true_2.
    + apply filter_all_top. exact HM.
    + apply orb_true_iff in Ehit as [E|E]; apply bool_decide_eq_true in E; lia.
  - apply orb_false_iff in Ehit as [E1 E2].
    apply bool_decide_eq_false in E1, E2.
    assert (Hlt : (i < Nat.min (length fs1) (length fs2) - 1)%nat) by lia.
    rewrite (drop_S (map Frame.ip fs1) (ip_at fs1 i) i) by (apply ips_lookup; lia).
    rewrite (drop_S (map Frame.ip fs2) (ip_at fs2 i) i) by (apply ips_lookup; lia).
    cbn [common_prefix_len].
    destruct (Z.eqb_spec (ip_at fs1 i) (ip_at fs2 i)) as [Heq|Hne]; simpl negb; cbv iota.
    + rewrite IH; [| exact H1 | exact H2 | | lia | lia].
      2: { intros k v Hk. destruct (decide (k = ip_at fs1 i)) as [->|Hne].
           - rewrite lookup_insert_eq in Hk. congruence.
           - rewrite lookup_insert_ne in Hk by congruence. exact (HM k v Hk). }
      replace (i + S (common_prefix_len (drop (S i) (map Frame.ip fs1))
                                        (drop (S i) (map Frame.ip fs2))))%nat
        with (S i + common_prefix_len (drop (S i) (map Frame.ip fs1))
                                      (drop (S i) (map Frame.ip fs2)))%nat by lia.
      destruct (bool_decide _); reflexivity.
    + rewrite bool_decide_eq_false_2 by lia. reflexivity.
Qed.

Lemma bottom_walk_eq (fs1 fs2 : list Frame.t) (fuel : nat) : forall (j : nat) (M : gmap Z TB),
  (0 < length fs1)%nat -> (0 < length fs2)%nat ->
  (j <= Nat.min (length fs1) (length fs2) - 1)%nat ->
  (Nat.min (length fs1) (length fs2) - 1 - j < fuel)%nat ->
  bottom_walk fuel fs1 fs2 (length fs1 - 1 - j) (length fs2 - 1 - j) M =
    if bool_decide (Nat.min (length fs1) (length fs2) - 1 <=
          j + common_prefix_len (drop j (reverse (map Frame.ip fs1)))
                                (drop j (reverse (map Frame.ip fs2))))%nat
    then filter (fun kv => kv.2 = Top)
           (mark Bottom (take (Nat.min (length fs1) (length fs2) - 1 - j)
                           (drop j (reverse (map Frame.ip fs1)))) M)
    else mark Bottom (take (common_prefix_len (drop j (reverse (map Frame.ip fs1)))
                                              (drop j (reverse (map Frame.ip fs2))))
                        (drop j (reverse (map Frame.ip fs1)))) M.
Proof.
  induction fuel as [|fuel IH]; intros j M H1 H2 Hj Hf; [lia|].
  cbn [bottom_walk].
  destruct (bool_decide (length fs1 - 1 - j = 0)%nat || bool_decide (length fs2 - 1 - j = 0)%nat)
    eqn:Ehit.
  - assert (Hjm : j = (Nat.min (length fs1) (length fs2) - 1)%nat)
      by (apply orb_true_iff in Ehit as [E|E]; apply bool_decide_eq_true in E; lia).
    rewrite bool_decide_eq_true_2 by lia.
    replace (Nat.min (length fs1) (length fs2) - 1 - j)%nat with 0%nat by lia.
    reflexivity.
  - apply orb_false_iff in Ehit as [E1 E2].
    apply bool_decide_eq_false in E1, E2.
    assert (Hlt : (j < Nat.min (length fs1) (length fs2) - 1)%nat) by lia.
    rewrite (drop_S (reverse (map Frame.ip fs1)) (ip_at fs1 (length fs1 - 1 - j)) j)
      by (apply rev_ips_lookup; lia).
    rewrite (drop_S (reverse (map Frame.ip fs2)) (ip_at fs2 (length fs2 - 1 - j)) j)
      by (apply rev_ips_lookup; lia).
    cbn [common_prefix_len].
    destruct (Z.eqb_spec (ip_at fs1 (length fs1 - 1 - j)) (ip_at fs2 (length fs2 - 1 - j)))
      as [Heq|Hne]; simpl negb; cbv iota.
    + replace (length fs1 - 1 - j - 1)%nat with (length fs1 - 1 - S j)%nat by lia.
      replace (length fs2 - 1 - j - 1)%nat with (length fs2 - 1 - S j)%nat by lia.
      rewrite IH; [| exact H1 | exact H2 | lia | lia].
      replace (j + S (common_prefix_len (drop (S j) (reverse (map Frame.ip fs1)))
                                        (drop (S j) (reverse (map Frame.ip fs2)))))%nat
        with (S j + common_prefix_len (drop (S j) (reverse (map Frame.ip fs1)))
                                      (drop (S j) (reverse (map Frame.ip fs2))))%nat by lia.
      replace (Nat.min (length fs1) (length fs2) - 1 - j)%nat
        with (S (Nat.min (length fs1) (length fs2) - 1 - S j)) by lia.
      destruct (bool_decide _); reflexivity.
    + rewrite bool_decide_eq_false_2 by lia. reflexivity.
Qed.

Lemma mark_lookup (v : TB) (l : list Z) : forall (M : gmap Z TB) (ip : Z),
  mark v l M !! ip = if decide (ip ∈ l) then Some v else M !! ip.
Proof.
  unfold mark. induction l as [|x l IH]; intros M ip; simpl.
  - destruct (decide (ip ∈ [])) as [Hin|]; [apply elem_of_nil in Hin as []|reflexivity].
  - rewrite IH. destruct (decide (ip ∈ l)) as [Hin|Hnin].
    + rewrite decide_True by (apply elem_of_cons; auto). reflexivity.
    + destruct (decide (ip = x)) as [->|Hne].
      * rewrite decide_True by (apply elem_of_cons; auto). apply lookup_insert_eq.
      * rewrite decide_False by (rewrite elem_of_cons; tauto).
        apply lookup_insert_ne. congruence.
Qed.

Lemma filter_top_lookup (X : gmap Z TB) (ip : Z) :
  filter (fun kv => kv.2 = Top) X !! ip =
    match X !! ip with Some Top => Some Top | _ => None end.
Proof.
  rewrite map_lookup_filter. destruct (X !! ip) as [[|]|]; reflexivity.
Qed.

Lemma get_frames_to_trim_closed (bt start_bt : Backtrace) :
  frames bt <> [] -> frames start_bt <> [] ->
  get_frames_to_trim bt start_bt = Some (trim_sets_spec (ips bt) (ips start_bt)).
Proof.
  intros Hb Hs. unfold get_frames_to_trim, trim_sets_spec, ips.
  assert (H1 : (0 < length (frames bt))%nat) by (destruct (frames bt); [congruence|simpl; lia]).
  assert (H2 : (0 < length (frames start_bt))%nat)
    by (destruct (frames start_bt); [congruence|simpl; lia]).
  rewrite (bool_decide_eq_false_2 (length (frames bt) = 0)%nat) by lia.
  rewrite (bool_decide_eq_false_2 (length (frames start_bt) = 0)%nat) by lia.
  simpl orb; cbv iota.
  rewrite (top_walk_eq (frames bt) (frames start_bt) (length (frames bt)) 0 ∅ H1 H2);
    [| apply map_Forall_empty | lia | lia].
  pose proof (bottom_walk_eq (frames bt) (frames start_bt) (length (frames bt)) 0
    (if bool_decide (Nat.min (length (frames bt)) (length (frames start_bt)) - 1 <=
          0 + common_prefix_len (drop 0 (map Frame.ip (frames bt)))
                                (drop 0 (map Frame.ip (frames start_bt))))%nat
     then ∅
     else mark Top (take (common_prefix_len (drop 0 (map Frame.ip (frames bt)))
                                            (drop 0 (map Frame.ip (frames start_bt))))
                     (drop 0 (map Frame.ip (frames bt)))) ∅) H1 H2) as HB.
  rewrite !Nat.sub_0_r, !drop_0, !Nat.add_0_l in HB.
  rewrite !drop_0, !Nat.add_0_l, HB by lia.
  rewrite !length_map. reflexivity.
Qed.

Lemma trim_sets_spec_lookup (a b : list Z) (ip : Z) :
  trim_sets_spec a b !! ip = trim_lookup_spec a b ip.
Proof.
  unfold trim_sets_spec, trim_lookup_spec.
  set (m := Nat.min (length a) (length b)).
  set (kt := common_prefix_len a b).
  set (kb := common_prefix_len (reverse a) (reverse b)).
  assert (Htop : (if bool_decide (m - 1 <= kt)%nat then (∅ : gmap Z TB)
                  else mark Top (take kt a) ∅) !! ip =
                 if bool_decide (kt < m - 1)%nat && bool_decide (ip ∈ take kt a)
                 then Some Top else None).
  { destruct (bool_decide_reflect (m - 1 <= kt)%nat) as [Hle|Hgt].
    - rewrite bool_decide_eq_false_2 by lia. apply lookup_empty.
    - rewrite bool_decide_eq_true_2 by lia. rewrite mark_lookup, lookup_empty.
      destruct (decide (ip ∈ take kt a)) as [Hin|Hnin].
      + rewrite bool_decide_eq_true_2 by exact Hin. reflexivity.
      + rewrite bool_decide_eq_false_2 by exact Hnin. reflexivity. }
  destruct (bool_decide_reflect (m - 1 <= kb)%nat) as [Hle|Hgt].
  - rewrite filter_top_lookup, mark_lookup.
    replace (Nat.min kb (m - 1)) with (m - 1)%nat by lia.
    rewrite (bool_decide_eq_false_2 (kb < m - 1)%nat) by lia.
    destruct (decide (ip ∈ take (m - 1) (reverse a))); [reflexivity|].
    rewrite Htop. destruct (_ && _); reflexivity.
  - rewrite mark_lookup.
    replace (Nat.min kb (m - 1)) with kb by lia.
    rewrite (bool_decide_eq_true_2 (kb < m - 1)%nat) by lia.
    destruct (decide (ip ∈ take kb (reverse a))); [reflexivity|].
    exact Htop.
Qed.

(** Counterexample to C10 as stated: for the profiling IPs [1; 2; 1] and the
    start-up IPs [1; 3; 2; 1], the top walk marks IP 1 as [Top] and stops
    before the last frame, so the top set is kept; the bottom walk reaches the
    first frame, so the bottom set is discarded.  Yet the result is empty, not
    the top set: the bottom walk wrote [Bottom] over IP 1 before the filter. *)
Lemma trim_overlap_drops_top :
  top_walk 3 (frames bt_overlap) (frames bt_overlap_start) 0 0 ∅ !! 1 = Some Top /\
  common_prefix_len (reverse (ips bt_overlap)) (reverse (ips bt_overlap_start)) = 2%nat /\
  get_frames_to_trim bt_overlap bt_overlap_start = Some ∅.
Proof. split; [|split]; vm_compute; reflexivity. Qed.

(** C10 (amended): for non-empty backtraces, the trim sets are computed and,
    for every IP: an IP of the common suffix of the two IP sequences (walked
    by the bottom walk, stopping before the first frame of the shorter one) is
    [Bottom] if the bottom set is kept, i.e. the common suffix does not reach
    the first frame of the shorter backtrace, and is absent otherwise, even
    when the top walk marked it; any other IP is [Top] exactly when it is in
    the common prefix and that prefix does not reach the last frame of the
    shorter backtrace; and it is absent otherwise. *)
Theorem frames_to_trim_walks (bt start_bt : Backtrace) :
  frames bt <> [] -> frames start_bt <> [] ->
  exists ftt, get_frames_to_trim bt start_bt = Some ftt /\
    forall ip, ftt !! ip = trim_lookup_spec (ips bt) (ips start_bt) ip.
Proof.
  intros Hb Hs. exists (trim_sets_spec (ips bt) (ips start_bt)). split.
  - exact (get_frames_to_trim_closed bt start_bt Hb Hs).
  - intros ip. apply trim_sets_spec_lookup.
Qed.

Lemma frames_to_trim_walks_witness :
  frames (mkBacktrace stk_a) <> [] /\ frames (mkBacktrace stk_start) <> [] /\
  exists ftt, get_frames_to_trim (mkBacktrace stk_a) (mkBacktrace stk_start) = Some ftt /\
    forall ip, ftt !! ip = trim_lookup_spec (ips (mkBacktrace stk_a)) (ips (mkBacktrace stk_start)) ip.
Proof.
  split; [discriminate|split; [discriminate|]].
  apply (frames_to_trim_walks (mkBacktrace stk_a) (mkBacktrace stk_start)); discriminate.
Defined.

(** ** Witnesses *)

Lemma global_peak_tracks_max_witness :
  build world_ready builder stk_start 0 = (Returned tt, world_heap) /\
  ad_hoc builder = false /\ Forall dealloc_pos es_demo /\
  run world_heap es_demo = Some ws_demo /\
  exists hs, mapM heap_of (world_heap :: ws_demo) = Some hs /\
    forall k hk, hs !! k = Some hk -> peak_spec (take (S k) hs) hk.
Proof.
  assert (Hb : build world_ready builder stk_start 0 = (Returned tt, world_heap))
    by (vm_compute; reflexivity).
  assert (Ha : ad_hoc builder = false) by reflexivity.
  assert (Hd : Forall dealloc_pos es_demo) by (vm_compute; repeat constructor).
  assert (Hr : run world_heap es_demo = Some ws_demo) by (vm_compute; reflexivity).
  split; [exact Hb|split; [exact Ha|split; [exact Hd|split; [exact Hr|]]]].
  exact (global_peak_tracks_max world_ready world_heap builder stk_start 0 es_demo ws_demo
           Hb Ha Hd Hr).
Defined.

Lemma live_table_accounting_witness :
  build world_ready builder stk_start 0 = (Returned tt, world_heap) /\
  ad_hoc builder = false /\ contract_run ∅ es_demo /\
  run world_heap es_demo = Some ws_demo /\
  forall k wk, (world_heap :: ws_demo) !! k = Some wk ->
  exists hk, heap_of wk = Some hk /\
    HeapGlobals.curr_bytes hk =
      live_sum (fold_left heap_after (take k es_demo) ∅) (HeapGlobals.live_blocks hk) /\
    HeapGlobals.curr_blocks hk = Z.of_nat (stdpp.base.size (HeapGlobals.live_blocks hk)) /\
    NoDup (map fst (map_to_list (HeapGlobals.live_blocks hk))).
Proof.
  assert (Hb : build world_ready builder stk_start 0 = (Returned tt, world_heap))
    by (vm_compute; reflexivity).
  assert (Ha : ad_hoc builder = false) by reflexivity.
  assert (Hc : contract_run ∅ es_demo) by (vm_compute; repeat constructor).
  assert (Hr : run world_heap es_demo = Some ws_demo) by (vm_compute; reflexivity).
  split; [exact Hb|split; [exact Ha|split; [exact Hc|split; [exact Hr|]]]].
  exact (live_table_accounting world_ready world_heap builder stk_start 0 ∅ es_demo ws_demo
           Hb Ha Hc Hr).
Defined.

Lemma pp_bytes_ordered_witness :
  world_pps_ok world_heap /\ Forall event_wf es_demo /\
  run world_heap es_demo = Some ws_demo /\ Forall world_pps_ok ws_demo.
Proof.
  assert (Hw : world_pps_ok world_heap) by (vm_compute; constructor).
  assert (He : Forall event_wf es_demo)
    by (repeat constructor; unfold usize_ok; lia).
  assert (Hr : run world_heap es_demo = Some ws_demo) by (vm_compute; reflexivity).
  split; [exact Hw|split; [exact He|split; [exact Hr|]]].
  exact (pp_bytes_ordered world_heap es_demo ws_demo Hw He Hr).
Defined.

Lemma alloc_null_is_inert_witness :
  inner_reached world_one_block = true /\
  alloc world_one_block 32 0 stk_b 2 = Some (0, world_one_block) /\
  realloc world_one_block 4096 16 48 0 stk_b 2 = Some (0, world_one_block).
Proof.
  assert (Hi : inner_reached world_one_block = true) by (vm_compute; reflexivity).
  split; [exact Hi|].
  exact (alloc_null_is_inert world_one_block 32 4096 16 48 stk_b 2 Hi).
Defined.

Lemma realloc_counts_witness :
  exists g h, ignoring world_one_block = false /\ poisoned world_one_block = false /\
    phase world_one_block = Running g /\ Globals.heap g = Some h /\
    HeapGlobals.live_blocks h !! 777 = None /\
    realloc world_one_block 777 16 8 12288 stk_b 2 =
      (g1 ← Globals.check_for_global_peak g;
       alloc (set_phase world_one_block (Running g1)) 8 12288 stk_b 2).
Proof.
  remember (phase world_one_block) as ph eqn:Eph.
  destruct ph as [|g|]; [vm_compute in Eph; discriminate| |vm_compute in Eph; discriminate].
  remember (Globals.heap g) as oh eqn:Eh.
  destruct oh as [h|].
  2: { vm_compute in Eph. injection Eph as ->. vm_compute in Eh. discriminate. }
  assert (Hi : ignoring world_one_block = false) by (vm_compute; reflexivity).
  assert (Hp : poisoned world_one_block = false) by (vm_compute; reflexivity).
  assert (Hq : HeapGlobals.live_blocks h !! 777 = None).
  { vm_compute in Eph. injection Eph as ->. vm_compute in Eh. injection Eh as ->.
    vm_compute; reflexivity. }
  exists g, h. split; [exact Hi|split; [exact Hp|split; [reflexivity|
    split; [symmetry; exact Eh|split; [exact Hq|]]]]].
  destruct (realloc_counts world_one_block world_one_block g h 777 16 8 12288 stk_b 2 0
              Hi Hp (eq_sym Eph) (eq_sym Eh) ltac:(discriminate)) as (_ & Hu & _).
  exact (Hu Hq).
Defined.

Lemma backtrace_identity_by_ips_witness :
  exists g, globals_of world_heap = Some g /\
  ips (mkBacktrace stk_a) = ips (mkBacktrace stk_a) /\
  bt_eq (mkBacktrace stk_a) (mkBacktrace stk_b) = false /\
  Globals.get_pp_info (get_pp_infos (Globals.get_pp_info g (mkBacktrace stk_a) PpInfo.new_heap).1
                         [(mkBacktrace stk_b, PpInfo.new_heap)])
    (mkBacktrace stk_a) PpInfo.new_heap =
  (get_pp_infos (Globals.get_pp_info g (mkBacktrace stk_a) PpInfo.new_heap).1
     [(mkBacktrace stk_b, PpInfo.new_heap)],
   (Globals.get_pp_info g (mkBacktrace stk_a) PpInfo.new_heap).2).
Proof.
  remember (globals_of world_heap) as og eqn:Eg.
  destruct og as [g|]; [|vm_compute in Eg; discriminate].
  exists g. split; [reflexivity|split; [reflexivity|]].
  destruct (backtrace_identity_by_ips (mkBacktrace stk_a) (mkBacktrace stk_b) g
              [(mkBacktrace stk_b, PpInfo.new_heap)] PpInfo.new_heap PpInfo.new_heap)
    as (Hne & _ & _).
  destruct (backtrace_identity_by_ips (mkBacktrace stk_a) (mkBacktrace stk_a) g
              [(mkBacktrace stk_b, PpInfo.new_heap)] PpInfo.new_heap PpInfo.new_heap)
    as (_ & _ & Hid).
  split; [rewrite Hne; vm_compute; reflexivity|].
  exact (Hid eq_refl).
Defined.

(** * Further properties of the code *)

(** ** Paths, sizes and backtraces *)

Lemma components_nth_rest (n : nat) (c : list Component) :
  (components_nth n c).2 = drop (S n) c.
Proof.
  revert n. induction c as [|x c IH]; intros [|n]; simpl; auto.
Qed.

(** [trim_path] keeps exactly the last three components of a path, and the
    whole path when it has at most three. *)
Theorem trim_path_last_three (path : list Component) :
  trim_path path = drop (length path - 3) path /\
  length (trim_path path) = Nat.min (length path) 3.
Proof.
  assert (E : trim_path path = drop (length path - 3) path).
  { unfold trim_path. destruct (bool_decide_reflect (3 < length path)%nat) as [Hlt|Hge].
    - rewrite components_nth_rest. f_equal. lia.
    - replace (length path - 3)%nat with 0%nat by lia. reflexivity. }
  split; [exact E|]. rewrite E, length_drop. lia.
Qed.

(** [x += Delta::new(old_size, new_size)] (on a [usize]) sets [x] to
    [x + new_size - old_size], and panics exactly when that value leaves the
    range of [usize]. *)
Theorem add_assign_delta (x old_size new_size : Z) :
  0 <= x < WORD ->
  add_delta x (Delta_new old_size new_size) =
    if (0 <=? x + new_size - old_size) && (x + new_size - old_size <? WORD)
    then Some (x + new_size - old_size) else None.
Proof.
  intros Hx. unfold add_delta, Delta_new, sub_usize, add_usize.
  destruct (Z.ltb_spec new_size old_size) as [Hs|Hg]; simpl.
  - destruct (Z.leb_spec (old_size - new_size) x) as [H1|H1];
      destruct (Z.leb_spec 0 (x + new_size - old_size)) as [H2|H2];
      destruct (Z.ltb_spec (x + new_size - old_size) WORD) as [H3|H3];
      simpl; try lia; f_equal; lia.
  - destruct (Z.ltb_spec (x + (new_size - old_size)) WORD) as [H1|H1];
      destruct (Z.leb_spec 0 (x + new_size - old_size)) as [H2|H2];
      destruct (Z.ltb_spec (x + new_size - old_size) WORD) as [H3|H3];
      simpl; try lia; f_equal; lia.
Qed.

Lemma trace_frames_untrimmed (F : gmap Z TB) (stk acc : list Frame.t) :
  trace_frames None F stk acc = acc ++ stk.
Proof.
  revert acc. induction stk as [|f stk IH]; intros acc; simpl.
  - rewrite app_nil_r. reflexivity.
  - rewrite IH, <- app_assoc. reflexivity.
Qed.

(** Without trimming ([trim_backtraces = None]) a backtrace is the whole
    call stack, whatever the trim set. *)
Theorem new_backtrace_inner_untrimmed (F : gmap Z TB) (stk : list Frame.t) :
  frames (new_backtrace_inner None F stk) = stk.
Proof. unfold new_backtrace_inner. simpl. apply trace_frames_untrimmed. Qed.

Lemma trace_frames_trimmed (n : nat) (F : gmap Z TB) (stk acc : list Frame.t) :
  (length acc < n)%nat ->
  exists kept, trace_frames (Some n) F stk acc = acc ++ kept /\
    kept `sublist_of` stk /\ Forall (fun f => F !! Frame.ip f = None) kept /\
    (length (acc ++ kept) <= n)%nat.
Proof.
  revert acc. induction stk as [|f stk IH]; intros acc Hlt; simpl.
  - exists []. rewrite app_nil_r. repeat split; [constructor|constructor|lia].
  - destruct (F !! Frame.ip f) as [[|]|] eqn:Ef.
    + destruct (IH acc Hlt) as (kept & -> & Hs & Hf & Hl).
      exists kept. repeat split; auto. apply sublist_cons_r. auto.
    + exists []. rewrite app_nil_r. repeat split; [apply sublist_nil_l|constructor|lia].
    + destruct (bool_decide_reflect (length (acc ++ [f]) < n)%nat) as [Hc|Hc].
      * destruct (IH (acc ++ [f]) Hc) as (kept & -> & Hs & Hf & Hl).
        exists (f :: kept). rewrite <- app_assoc. simpl.
        split; [reflexivity|split; [apply sublist_skip; exact Hs|split]].
        ++ constructor; [exact Ef|exact Hf].
        ++ rewrite <- app_assoc in Hl. exact Hl.
      * exists [f]. repeat split.
        -- apply sublist_skip, sublist_nil_l.
        -- constructor; [exact Ef|constructor].
        -- rewrite length_app in *. simpl in *. lia.
Qed.

(** With [trim_backtraces = Some n] ([n > 0]), a backtrace keeps at most [n]
    frames, in call-stack order, and none of them has an IP of the trim set:
    top-trim frames are skipped and a bottom-trim frame ends the walk. *)
Theorem new_backtrace_inner_trimmed (n : nat) (F : gmap Z TB) (stk : list Frame.t) :
  (0 < n)%nat ->
  let fs := frames (new_backtrace_inner (Some n) F stk) in
  (length fs <= n)%nat /\ fs `sublist_of` stk /\
  Forall (fun f => F !! Frame.ip f = None) fs.
Proof.
  intros Hn. unfold new_backtrace_inner. simpl.
  destruct (trace_frames_trimmed n F stk [] Hn) as (kept & -> & Hs & Hf & Hl).
  simpl in *. auto.
Qed.

Lemma zip_seq_snoc {A} (k : nat) (l : list A) (x : A) :
  zip (seq k (length (l ++ [x]))) (l ++ [x]) = zip (seq k (length l)) l ++ [(k + length l, x)]%nat.
Proof.
  revert k. induction l as [|y l IH]; intros k; simpl.
  - rewrite Nat.add_0_r. reflexivity.
  - rewrite IH. replace (S k + length l)%nat with (k + S (length l))%nat by lia. reflexivity.
Qed.

Lemma first_symbol_scan_spec (p : string -> bool) (l : list Symbol.t) :
  let i := first_symbol_scan p (reverse (zip (seq 0 (length l)) l)) in
  (exists s, l !! i = Some s /\ symbol_matches p s = true /\
     forall j s', (i < j)%nat -> l !! j = Some s' -> symbol_matches p s' = false) \/
  (i = 0%nat /\ forall j s', l !! j = Some s' -> symbol_matches p s' = false).
Proof.
  induction l as [|x l IH] using rev_ind; cbv zeta.
  - right. split; [reflexivity|]. intros j s' H. rewrite lookup_nil in H. discriminate.
  - cbv zeta in IH. rewrite zip_seq_snoc, reverse_snoc, Nat.add_0_l.
    destruct (symbol_matches p x) eqn:Ex.
    + assert (Hi : first_symbol_scan p ((length l, x) :: reverse (zip (seq 0 (length l)) l))
                   = length l).
      { simpl. unfold symbol_matches in Ex. destruct (Symbol.name x); [|discriminate].
        rewrite Ex. reflexivity. }
      rewrite Hi. left. exists x. split; [apply list_lookup_middle; reflexivity|].
      split; [exact Ex|]. intros j s' Hj Hs.
      apply lookup_lt_Some in Hs. rewrite length_app in Hs. simpl in Hs. lia.
    + assert (Hi : first_symbol_scan p ((length l, x) :: reverse (zip (seq 0 (length l)) l))
                   = first_symbol_scan p (reverse (zip (seq 0 (length l)) l))).
      { simpl. unfold symbol_matches in Ex. destruct (Symbol.name x); [|reflexivity].
        rewrite Ex. reflexivity. }
      rewrite Hi.
      assert (Hsnoc : forall j s', (l ++ [x]) !! j = Some s' ->
                      l !! j = Some s' \/ (j = length l /\ s' = x)).
      { intros j s' H. destruct (decide (j < length l)%nat) as [Hlt|Hge].
        - left. rewrite lookup_app_l in H by exact Hlt. exact H.
        - right. rewrite lookup_app_r in H by lia.
          apply list_lookup_singleton_Some in H as [Hj <-]. split; [lia|reflexivity]. }
      destruct IH as [(s & Hs & Hm & Hlast)|(H0 & Hnone)].
      * left. exists s. split; [rewrite lookup_app_l by (eapply lookup_lt_Some; eauto); exact Hs|].
        split; [exact Hm|]. intros j s' Hj Hj'.
        destruct (Hsnoc j s' Hj') as [Hl|[_ ->]]; [eapply Hlast; eauto|exact Ex].
      * right. split; [exact H0|]. intros j s' Hj'.
        destruct (Hsnoc j s' Hj') as [Hl|[_ ->]]; [eapply Hnone; eauto|exact Ex].
Qed.

(** [first_symbol_to_show p] returns the index (over all symbols of all
    frames) of the last symbol whose name satisfies [p], and 0 when there is
    none. *)
Theorem first_symbol_to_show_last (p : string -> bool) (bt : Backtrace) :
  let i := first_symbol_to_show p bt in
  (exists s, bt_symbols bt !! i = Some s /\ symbol_matches p s = true /\
     forall j s', (i < j)%nat -> bt_symbols bt !! j = Some s' -> symbol_matches p s' = false) \/
  (i = 0%nat /\ forall j s', bt_symbols bt !! j = Some s' -> symbol_matches p s' = false).
Proof. apply first_symbol_scan_spec. Qed.

(** ** The frame table of the profile *)

Lemma ftbl_entry_spec (f2s : Frame.t -> Symbol.t -> string) (st : gmap string nat * nat)
    (s : string) :
  ftbl_inv st ->
  ftbl_inv (ftbl_entry st s).1 /\ st.1 ⊆ (ftbl_entry st s).1.1 /\
  (ftbl_entry st s).1.1 !! s = Some (ftbl_entry st s).2.
Proof.
  destruct st as [m next]. unfold ftbl_inv, ftbl_entry; simpl.
  intros (Hsz & Hb & Hsurj & Hinj). destruct (m !! s) as [i|] eqn:E; simpl.
  - auto 10.
  - split; [|split; [apply insert_subseteq; exact E|apply lookup_insert_eq]].
    split; [rewrite map_size_insert_None by exact E; lia|]. split; [|split].
    + intros s' i. destruct (decide (s' = s)) as [->|Hne].
      * rewrite lookup_insert_eq. intros [= <-]. lia.
      * rewrite lookup_insert_ne by congruence. intros H. apply Hb in H. lia.
    + intros i Hi. destruct (decide (i = next)) as [->|Hne].
      * exists s. apply lookup_insert_eq.
      * destruct (Hsurj i) as [s' Hs']; [lia|]. exists s'.
        rewrite lookup_insert_ne; [exact Hs'|]. intros ->. congruence.
    + intros s1 s2 i H1 H2.
      destruct (decide (s1 = s)) as [->|Hne1]; destruct (decide (s2 = s)) as [->|Hne2];
        auto.
      * rewrite lookup_insert_eq in H1. rewrite lookup_insert_ne in H2 by congruence.
        injection H1 as <-. apply Hb in H2. lia.
      * rewrite lookup_insert_eq in H2. rewrite lookup_insert_ne in H1 by congruence.
        injection H2 as <-. apply Hb in H1. lia.
      * rewrite lookup_insert_ne in H1, H2 by congruence. eauto.
Qed.

Lemma Forall2_lookup_weaken (l : list string) (fs : list nat) (m m' : gmap string nat) :
  m ⊆ m' -> Forall2 (fun s i => m !! s = Some i) l fs ->
  Forall2 (fun s i => m' !! s = Some i) l fs.
Proof.
  intros Hsub H. induction H; constructor; auto. eapply lookup_weaken; eauto.
Qed.

Lemma finish_fs_spec (f2s : Frame.t -> Symbol.t -> string) (first : nat)
    (pairs : list (Frame.t * Symbol.t)) :
  forall i st fs, ftbl_inv st ->
  let r := finish_fs f2s first i pairs st fs in
  ftbl_inv r.1 /\ st.1 ⊆ r.1.1 /\
  exists fs_new, r.2 = fs ++ fs_new /\
    Forall2 (fun s idx => r.1.1 !! s = Some idx)
      (map (fun fs => f2s fs.1 fs.2) (drop (first - i) pairs)) fs_new.
Proof.
  induction pairs as [|[frame symbol] rest IH]; intros i st fs Hinv; cbv zeta.
  - simpl. split; [exact Hinv|split; [reflexivity|]]. exists [].
    rewrite app_nil_r, drop_nil. split; [reflexivity|constructor].
  - cbn [finish_fs]. destruct (bool_decide_reflect (S i - 1 < first)%nat) as [Hskip|Hkeep].
    + replace (first - i)%nat with (S (first - S i)) by lia. cbn [drop].
      exact (IH (S i) st fs Hinv).
    + replace (first - i)%nat with 0%nat by lia. rewrite drop_0.
      destruct (ftbl_entry_spec f2s st (f2s frame symbol) Hinv) as (Hinv1 & Hsub1 & Hlk1).
      destruct (ftbl_entry st (f2s frame symbol)) as [st1 idx] eqn:Ee. simpl in *.
      destruct (IH (S i) st1 (fs ++ [idx]) Hinv1) as (Hinv2 & Hsub2 & fs_new & Hfs & Hall).
      replace (first - S i)%nat with 0%nat in Hall by lia. rewrite drop_0 in Hall.
      split; [exact Hinv2|split; [etrans; [exact Hsub1|exact Hsub2]|]].
      exists (idx :: fs_new). split; [rewrite Hfs, <- app_assoc; reflexivity|].
      simpl. constructor; [eapply lookup_weaken; eauto|exact Hall].
Qed.

Lemma finish_pps_spec (f2s : Frame.t -> Symbol.t -> string) (g : Globals.t)
    (bts : list (Backtrace * nat)) :
  forall st, ftbl_inv st ->
  Forall (fun kv => (kv.2 < length (Globals.pp_infos g))%nat) bts ->
  exists st' pps, finish_pps f2s g bts st = Some (st', pps) /\ ftbl_inv st' /\
    st.1 ⊆ st'.1 /\
    Forall2 (fun kv pj => exists p fs, Globals.pp_infos g !! kv.2 = Some p /\
               pj = PpInfoJson.new p fs /\
               Forall2 (fun s idx => st'.1 !! s = Some idx)
                 (shown_frames f2s (finish_first_symbol g kv.1) kv.1) fs) bts pps.
Proof.
  induction bts as [|[bt idx] rest IH]; intros st Hinv Hidx.
  - exists st, []. simpl. auto.
  - apply Forall_cons in Hidx as [Hi Hrest]. simpl in Hi.
    cbn [finish_pps].
    destruct (finish_fs_spec f2s (finish_first_symbol g bt) (frame_symbol_pairs bt) 0 st []
                Hinv) as (Hinv1 & Hsub1 & fs_new & Hfs & Hall).
    destruct (finish_fs f2s (finish_first_symbol g bt) 0 (frame_symbol_pairs bt) st [])
      as [st1 fs] eqn:Efs. simpl in *.
    destruct (lookup_lt_is_Some_2 _ _ Hi) as [p Hp]. rewrite Hp. simpl.
    destruct (IH st1 Hinv1 Hrest) as (st2 & pps & Hpps & Hinv2 & Hsub2 & Hall2).
    rewrite Hpps. simpl. exists st2, (PpInfoJson.new p fs :: pps).
    split; [reflexivity|split; [exact Hinv2|split; [etrans; eauto|]]].
    constructor; [|exact Hall2].
    exists p, fs. split; [exact Hp|split; [reflexivity|]]. simpl.
    rewrite Nat.sub_0_r in Hall. rewrite Hfs. simpl.
    unfold shown_frames. eapply Forall2_lookup_weaken; [exact Hsub2|exact Hall].
Qed.

Lemma finish_ftbl_fold (N : nat) (m : gmap string nat) :
  (forall s i, m !! s = Some i -> (i < N)%nat) ->
  (forall s1 s2 i, m !! s1 = Some i -> m !! s2 = Some i -> s1 = s2) ->
  exists l, map_fold (fun frame ftbl_idx acc =>
              ftbl ← acc;
              if bool_decide (ftbl_idx < length ftbl)%nat
              then Some (<[ftbl_idx := frame]> ftbl) else None)
            (Some (replicate N EmptyString)) m = Some l /\
    length l = N /\ forall s i, m !! s = Some i -> l !! i = Some s.
Proof.
  revert m. refine (map_fold_weak_ind (fun r m =>
    (forall s i, m !! s = Some i -> (i < N)%nat) ->
    (forall s1 s2 i, m !! s1 = Some i -> m !! s2 = Some i -> s1 = s2) ->
    exists l, r = Some l /\ length l = N /\ forall s i, m !! s = Some i -> l !! i = Some s)
    _ _ _ _).
  - intros _ _. exists (replicate N EmptyString). split; [reflexivity|].
    split; [apply length_replicate|]. intros s i H. rewrite lookup_empty in H. discriminate.
  - intros k x m r Hk IH Hb Hinj.
    assert (Hm : forall s i, m !! s = Some i -> (<[k := x]> m) !! s = Some i).
    { intros s i H. rewrite lookup_insert_ne; [exact H|]. intros ->. congruence. }
    destruct IH as (l & -> & Hlen & Hl).
    { intros s i H. eapply Hb, Hm, H. }
    { intros s1 s2 i H1 H2. eapply Hinj; apply Hm; eauto. }
    assert (Hx : (x < N)%nat) by (eapply Hb; apply lookup_insert_eq).
    simpl. rewrite bool_decide_eq_true_2 by lia.
    exists (<[x := k]> l). split; [reflexivity|]. split; [rewrite length_insert; exact Hlen|].
    intros s i H. destruct (decide (s = k)) as [->|Hne].
    + rewrite lookup_insert_eq in H. injection H as <-. apply list_lookup_insert_eq. lia.
    + rewrite lookup_insert_ne in H by congruence.
      rewrite list_lookup_insert_ne; [exact (Hl s i H)|].
      intros ->. apply Hne. eapply Hinj; [apply Hm; exact H|apply lookup_insert_eq].
Qed.

Lemma Forall2_map_lookup (ss : list string) (fs : list nat) (m : gmap string nat)
    (l : list string) :
  (forall s i, m !! s = Some i -> l !! i = Some s) ->
  Forall2 (fun s idx => m !! s = Some idx) ss fs ->
  map (fun i => l !! i) fs = map Some ss.
Proof. intros Hl H. induction H; simpl; f_equal; auto. Qed.

(** The frame table of a profile ([ftbl]) and the frame lists of its program
    points ([fs]) round-trip: [ftbl] starts with ["[root]"], has no duplicate
    entry, and the [fs] of the PP of each recorded backtrace, read through
    [ftbl], gives exactly the frame strings the backtrace shows (those after
    its first [first_symbol_to_show] symbols). This holds whenever the PP
    indices of the backtrace table are in bounds, whatever [frame_to_string]
    returns. *)
Theorem finish_frame_table (f2s : Frame.t -> Symbol.t -> string) (g : Globals.t) :
  Forall (fun kv => (kv.2 < length (Globals.pp_infos g))%nat) (Globals.backtraces g) ->
  exists pps ftbl, finish_frames f2s g = Some (pps, ftbl) /\
    ftbl !! 0%nat = Some "[root]" /\ NoDup ftbl /\
    Forall2 (fun kv pj => exists p fs, Globals.pp_infos g !! kv.2 = Some p /\
               pj = PpInfoJson.new p fs /\
               map (fun i => ftbl !! i) fs =
                 map Some (shown_frames f2s (finish_first_symbol g kv.1) kv.1))
      (Globals.backtraces g) pps.
Proof.
  intros Hidx.
  assert (Hinv0 : ftbl_inv ({["[root]" := 0%nat]}, 1%nat)).
  { unfold ftbl_inv; simpl. split; [apply map_size_singleton|]. split; [|split].
    - intros s i H. apply lookup_singleton_Some in H as [_ <-]. lia.
    - intros i Hi. exists "[root]". rewrite lookup_singleton_eq. f_equal. lia.
    - intros s1 s2 i H1 H2. apply lookup_singleton_Some in H1 as [<- _].
      apply lookup_singleton_Some in H2 as [<- _]. reflexivity. }
  destruct (finish_pps_spec f2s g (Globals.backtraces g) _ Hinv0 Hidx)
    as (st & pps & Hpps & Hinv & Hsub & Hall).
  destruct Hinv as (Hsz & Hb & Hsurj & Hinj).
  destruct (finish_ftbl_fold (stdpp.base.size st.1) st.1) as (l & Hl & Hlen & Hlk).
  { intros s i H. rewrite Hsz. eauto. }
  { exact Hinj. }
  exists pps, l. unfold finish_frames. rewrite Hpps. simpl. unfold finish_ftbl.
  rewrite Hl. split; [reflexivity|]. split; [|split].
  - apply Hlk. eapply lookup_weaken; [|exact Hsub]. apply lookup_singleton_eq.
  - apply NoDup_alt. intros i j a Hi Hj.
    assert (Hi' := lookup_lt_Some _ _ _ Hi). assert (Hj' := lookup_lt_Some _ _ _ Hj).
    rewrite Hlen, Hsz in Hi', Hj'.
    destruct (Hsurj i Hi') as [si Hsi]. destruct (Hsurj j Hj') as [sj Hsj].
    rewrite (Hlk _ _ Hsi) in Hi. rewrite (Hlk _ _ Hsj) in Hj.
    injection Hi as ->. injection Hj as ->. congruence.
  - eapply Forall2_impl; [exact Hall|]. intros kv pj (p & fs & Hp & Hpj & Hfs).
    exists p, fs. split; [exact Hp|split; [exact Hpj|]].
    eapply Forall2_map_lookup; eauto.
Qed.

(** ** Heap-mode runs, step by step *)

Lemma alloc_gstep (w w' : World) (size p : Z) (stk : list Frame.t) (now r : Z)
    (g : Globals.t) (h : HeapGlobals.t) :
  alloc w size p stk now = Some (r, w') ->
  ignoring w = false -> phase w = Running g -> Globals.heap g = Some h ->
  exists g', phase w' = Running g' /\ gstep (EvAlloc size p stk now) g g'.
Proof.
  unfold alloc. intros H Hi Hph Hh. rewrite Hi in H.
  destruct (poisoned w); [discriminate|].
  destruct (Z.eqb_spec p 0) as [->|Hnz].
  - injection H as <- <-. exists g. split; [exact Hph|constructor].
  - rewrite Hph, Hh in H.
    destruct (new_backtrace g stk) as [[g1 bt]|] eqn:E1; simpl in H; [|discriminate].
    destruct (Globals.get_pp_info g1 bt PpInfo.new_heap) as [g2 idx] eqn:E2.
    destruct (Globals.record_block g2 p idx now) as [g3|] eqn:E3; simpl in H; [|discriminate].
    destruct (Globals.update_counts_for_alloc g3 idx size None now) as [g4|] eqn:E4;
      simpl in H; [|discriminate].
    injection H as <- <-. exists g4. split; [reflexivity|].
    eapply gs_alloc; eauto.
Qed.

Lemma realloc_gstep (w w' : World) (q old_size new_size p : Z) (stk : list Frame.t)
    (now r : Z) (g : Globals.t) (h : HeapGlobals.t) :
  realloc w q old_size new_size p stk now = Some (r, w') ->
  ignoring w = false -> phase w = Running g -> Globals.heap g = Some h ->
  exists g', phase w' = Running g' /\ gstep (EvRealloc q old_size new_size p stk now) g g'.
Proof.
  unfold realloc. intros H Hi Hph Hh. rewrite Hi in H.
  destruct (poisoned w); [discriminate|].
  destruct (Z.eqb_spec p 0) as [->|Hnz].
  - injection H as <- <-. exists g. split; [exact Hph|constructor].
  - rewrite Hph, Hh in H.
    destruct (if shrinking (Delta_new old_size new_size)
              then Globals.check_for_global_peak g else Some g) as [g1|] eqn:E1;
      simpl in H; [|discriminate].
    destruct (Globals.heap g1) as [h1|] eqn:Eh1; simpl in H; [|discriminate].
    destruct (HeapGlobals.live_blocks h1 !! q) as [lb|] eqn:Eq; simpl in H.
    + destruct (Globals.record_block _ p (LiveBlock.pp_info_idx lb) now) as [g4|] eqn:E4;
        simpl in H; [|discriminate].
      destruct (Globals.update_counts_for_alloc g4 _ new_size _ now) as [g5|] eqn:E5;
        simpl in H; [|discriminate].
      injection H as <- <-. exists g5. split; [reflexivity|].
      eapply gs_realloc_tracked; eauto.
    + destruct (new_backtrace _ stk) as [[g2 bt]|] eqn:E2; simpl in H; [|discriminate].
      destruct (Globals.get_pp_info g2 bt PpInfo.new_heap) as [g3 idx] eqn:E3. simpl in H.
      destruct (Globals.record_block g3 p idx now) as [g4|] eqn:E4; simpl in H; [|discriminate].
      destruct (Globals.update_counts_for_alloc g4 idx new_size None now) as [g5|] eqn:E5;
        simpl in H; [|discriminate].
      injection H as <- <-. exists g5. split; [reflexivity|].
      eapply gs_realloc_untracked; eauto.
Qed.

Lemma dealloc_gstep (w w' : World) (q size now : Z) (g : Globals.t) (h : HeapGlobals.t) :
  dealloc w q size now = Some w' ->
  ignoring w = false -> phase w = Running g -> Globals.heap g = Some h ->
  exists g', phase w' = Running g' /\ gstep (EvDealloc q size now) g g'.
Proof.
  unfold dealloc. intros H Hi Hph Hh. rewrite Hi in H.
  destruct (poisoned w); [discriminate|].
  rewrite Hph, Hh in H.
  destruct (HeapGlobals.live_blocks h !! q) as [lb|] eqn:Eq.
  - destruct (Globals.check_for_global_peak _) as [g2|] eqn:E2; simpl in H; [|discriminate].
    destruct (Globals.update_counts_for_dealloc g2 _ size _) as [g3|] eqn:E3;
      simpl in H; [|discriminate].
    injection H as <-. exists g3. split; [reflexivity|].
    eapply gs_dealloc_tracked; eauto.
  - injection H as <-. eexists. split; [reflexivity|].
    eapply gs_dealloc_untracked; eauto.
Qed.

Lemma step_gstep (w w' : World) (e : Event) (g : Globals.t) (h : HeapGlobals.t) :
  step w e = Some w' ->
  ignoring w = false -> phase w = Running g -> Globals.heap g = Some h ->
  exists g', phase w' = Running g' /\ gstep e g g'.
Proof.
  destruct e as [size p stk now|q old_size new_size p stk now|q size now]; simpl; intros H.
  - destruct (alloc w size p stk now) as [[r w1]|] eqn:E; simpl in H; [|discriminate].
    injection H as <-. eapply alloc_gstep; eauto.
  - destruct (realloc w q old_size new_size p stk now) as [[r w1]|] eqn:E; simpl in H;
      [|discriminate].
    injection H as <-. eapply realloc_gstep; eauto.
  - eapply dealloc_gstep; eauto.
Qed.

(** Every world of a run from a heap profiler is reached by [gsteps]. *)
Lemma run_gsteps (w : World) (g : Globals.t) (h : HeapGlobals.t) (es : list Event)
    (ws : list World) :
  ignoring w = false -> poisoned w = false -> phase w = Running g ->
  Globals.heap g = Some h -> run w es = Some ws ->
  forall k wk, (w :: ws) !! k = Some wk ->
  exists gk hk, phase wk = Running gk /\ Globals.heap gk = Some hk /\
    ignoring wk = false /\ poisoned wk = false /\ gsteps (take k es) g gk.
Proof.
  revert w g h ws. induction es as [|e es IH]; intros w g h ws Hi Hp Hph Hh Hr k wk Hk.
  - simpl in Hr. injection Hr as <-. destruct k as [|k]; simpl in Hk; [|discriminate].
    injection Hk as <-. exists g, h. rewrite take_nil. repeat split; auto. constructor.
  - simpl in Hr. destruct (step w e) as [w1|] eqn:E1; simpl in Hr; [|discriminate].
    destruct (run w1 es) as [ws1|] eqn:E2; simpl in Hr; [|discriminate].
    injection Hr as <-.
    destruct k as [|k].
    + simpl in Hk. injection Hk as <-. exists g, h. repeat split; auto. constructor.
    + simpl in Hk.
      destruct (step_heap_effect w w1 e g h E1 Hi Hph Hh) as (g1 & h1 & Hph1 & Hh1 & _ & Hi1 & Hp1).
      destruct (step_gstep w w1 e g h E1 Hi Hph Hh) as (g1' & Hph1' & Hs).
      rewrite Hph1 in Hph1'. injection Hph1' as <-.
      destruct (IH w1 g1 h1 ws1 Hi1 Hp1 Hph1 Hh1 E2 k wk Hk)
        as (gk & hk & Hphk & Hhk & Hik & Hpk & Hss).
      exists gk, hk. repeat split; auto. simpl. econstructor; eauto.
Qed.

Lemma sum_Z_app (l1 l2 : list Z) : sum_Z (l1 ++ l2) = sum_Z l1 + sum_Z l2.
Proof. induction l1; simpl; lia. Qed.

Lemma sum_Z_insert {A} (f : A -> Z) (l : list A) (i : nat) (x y : A) :
  l !! i = Some x -> sum_Z (map f (<[i := y]> l)) = sum_Z (map f l) - f x + f y.
Proof.
  revert i. induction l as [|a l IH]; intros [|i] H; simpl in *; try discriminate.
  - injection H as ->. lia.
  - rewrite (IH i H). lia.
Qed.

Lemma tot_same (g g' : Globals.t) :
  Globals.total_blocks g' = Globals.total_blocks g ->
  Globals.total_bytes g' = Globals.total_bytes g ->
  map PpInfo.total_blocks (Globals.pp_infos g') = map PpInfo.total_blocks (Globals.pp_infos g) ->
  map PpInfo.total_bytes (Globals.pp_infos g') = map PpInfo.total_bytes (Globals.pp_infos g) ->
  tot_step g g' 0 0.
Proof.
  unfold tot_step, pp_sum_blocks, pp_sum_bytes. intros -> -> -> ->. lia.
Qed.

Lemma tot_new_backtrace (g g1 : Globals.t) (stk : list Frame.t) (bt : Backtrace) :
  new_backtrace g stk = Some (g1, bt) -> tot_step g g1 0 0.
Proof.
  intros H. apply new_backtrace_Some in H as [f ->]. apply tot_same; reflexivity.
Qed.

Lemma tot_get_pp_info (g : Globals.t) (bt : Backtrace) (new : PpInfo.t) :
  PpInfo.total_blocks new = 0 -> PpInfo.total_bytes new = 0 ->
  tot_step g (Globals.get_pp_info g bt new).1 0 0.
Proof.
  intros Hb Hy. destruct (get_pp_info_cases g bt new) as [-> | ->].
  - apply tot_same; reflexivity.
  - unfold tot_step, pp_sum_blocks, pp_sum_bytes, Globals.set_pps; simpl.
    rewrite !map_app, !sum_Z_app. simpl. lia.
Qed.

Lemma tot_record_block (g g' : Globals.t) (ptr : Z) (idx : nat) (now : Z) :
  Globals.record_block g ptr idx now = Some g' -> tot_step g g' 0 0.
Proof.
  intros H. apply record_block_Some in H as (h & _ & _ & ->). apply tot_same; reflexivity.
Qed.

Lemma tot_set_heap (g : Globals.t) (h : option HeapGlobals.t) :
  tot_step g (Globals.set_heap g h) 0 0.
Proof. apply tot_same; reflexivity. Qed.

Lemma map_counters_totals (l l' : list PpInfo.t) :
  map pp_counters l' = map pp_counters l ->
  map PpInfo.total_blocks l' = map PpInfo.total_blocks l /\
  map PpInfo.total_bytes l' = map PpInfo.total_bytes l.
Proof.
  revert l. induction l' as [|x l' IH]; intros [|y l] H; simpl in H; try discriminate.
  - split; reflexivity.
  - assert (Hxy : pp_counters x = pp_counters y) by congruence.
    assert (Hl : map pp_counters l' = map pp_counters l) by congruence.
    apply IH in Hl as [H1 H2]. unfold pp_counters in Hxy.
    simpl. split; f_equal; congruence.
Qed.

Lemma tot_peak_if (g g1 : Globals.t) (b : bool) :
  (if b then Globals.check_for_global_peak g else Some g) = Some g1 -> tot_step g g1 0 0.
Proof.
  intros H. apply peak_if_Some in H as (pps & -> & Hc).
  apply map_counters_totals in Hc as [H1 H2]. apply tot_same; auto.
Qed.

Lemma tot_update_counts_for_alloc (g g' : Globals.t) (idx : nat) (size : Z)
    (delta : option Delta) (now : Z) :
  Globals.update_counts_for_alloc g idx size delta now = Some g' -> tot_step g g' 1 size.
Proof.
  intros H.
  apply update_counts_for_alloc_Some in H
    as (h & tb & tby & cb & cby & p & p' & _ & Htb & Htby & _ & Hp & Hp' & ->).
  apply pp_update_counts_for_alloc_Some in Hp'
    as (hp & ptb & ptby & pcb & pcby & _ & Hptb & Hptby & _ & ->).
  apply add_usize_Some in Htb as [-> _]. apply add_usize_Some in Htby as [-> _].
  apply add_usize_Some in Hptb as [Hptb _]. apply add_usize_Some in Hptby as [Hptby _].
  unfold tot_step, pp_sum_blocks, pp_sum_bytes; simpl.
  rewrite !(sum_Z_insert _ _ _ p _ Hp). simpl. lia.
Qed.

Lemma pp_update_counts_for_dealloc_totals (p p' : PpInfo.t) (size dur : Z) :
  PpInfo.update_counts_for_dealloc p size dur = Some p' ->
  PpInfo.total_blocks p' = PpInfo.total_blocks p /\ PpInfo.total_bytes p' = PpInfo.total_bytes p.
Proof.
  unfold PpInfo.update_counts_for_dealloc. intros H.
  destruct (PpInfo.heap p) as [hp|]; simpl in H; [|discriminate].
  destruct (sub_usize _ 1); simpl in H; [|discriminate].
  destruct (sub_usize _ size); simpl in H; [|discriminate].
  injection H as <-. split; reflexivity.
Qed.

Lemma tot_update_counts_for_dealloc (g g' : Globals.t) (idx : nat) (size dur : Z) :
  Globals.update_counts_for_dealloc g idx size dur = Some g' -> tot_step g g' 0 0.
Proof.
  intros H.
  apply update_counts_for_dealloc_Some in H as (h & cb & cby & p & p' & _ & _ & _ & Hp & Hp' & ->).
  apply pp_update_counts_for_dealloc_totals in Hp' as [E1 E2].
  unfold tot_step, pp_sum_blocks, pp_sum_bytes; simpl.
  rewrite !(sum_Z_insert _ _ _ p _ Hp). lia.
Qed.

Lemma gstep_tot (e : Event) (g g' : Globals.t) :
  gstep e g g' -> tot_step g g' (event_blocks e) (event_bytes e).
Proof.
  intros Hs. destruct Hs; simpl;
    repeat match goal with
    | H : ?p <> 0 |- _ => rewrite (proj2 (Z.eqb_neq p 0) H); clear H
    | H : new_backtrace _ _ = Some _ |- _ => apply tot_new_backtrace in H
    | H : Globals.get_pp_info ?g ?bt ?n = _ |- _ =>
        pose proof (tot_get_pp_info g bt n eq_refl eq_refl) as Htmp; rewrite H in Htmp;
        simpl in Htmp; clear H
    | H : Globals.record_block _ _ _ _ = Some _ |- _ => apply tot_record_block in H
    | H : Globals.update_counts_for_alloc _ _ _ _ _ = Some _ |- _ =>
        apply tot_update_counts_for_alloc in H
    | H : Globals.update_counts_for_dealloc _ _ _ _ = Some _ |- _ =>
        apply tot_update_counts_for_dealloc in H
    | H : (if _ then Globals.check_for_global_peak _ else Some _) = Some _ |- _ =>
        apply tot_peak_if in H
    | H : Globals.check_for_global_peak _ = Some _ |- _ =>
        apply (tot_peak_if _ _ true) in H
    end;
    unfold tot_step, pp_sum_blocks, pp_sum_bytes in *; simpl in *; lia.
Qed.

Lemma gsteps_tot (es : list Event) (g g' : Globals.t) :
  gsteps es g g' -> tot_step g g' (events_blocks es) (events_bytes es).
Proof.
  induction 1 as [g|e es g g1 g2 Hs _ IH].
  - unfold tot_step, events_blocks, events_bytes; simpl; lia.
  - apply gstep_tot in Hs. unfold tot_step, events_blocks, events_bytes in *. simpl. lia.
Qed.

Lemma bt_lookup_Some_snd (bts : list (Backtrace * nat)) (bt : Backtrace) (i : nat) :
  bt_lookup bts bt = Some i -> i ∈ map snd bts.
Proof.
  induction bts as [|[k j] rest IH]; simpl; [discriminate|].
  destruct (_ && _).
  - intros [= ->]. left.
  - intros H. right. auto.
Qed.

Lemma bt_lookup_None_ips (bts : list (Backtrace * nat)) (bt : Backtrace) :
  bt_lookup bts bt = None -> ips bt ∉ map (fun kv => ips kv.1) bts.
Proof.
  induction bts as [|[k j] rest IH]; simpl; intros H.
  - apply not_elem_of_nil.
  - rewrite !bt_hash_ips, bt_eq_ips in H.
    destruct (decide (ips k = ips bt)) as [E|E].
    + rewrite E, Z.eqb_refl, bool_decide_eq_true_2 in H by reflexivity. discriminate.
    + rewrite (bool_decide_eq_false_2 _ E), andb_false_r in H.
      rewrite elem_of_cons. intros [Hx|Hx]; [congruence|exact (IH H Hx)].
Qed.

Lemma idx_same (g g' : Globals.t) :
  Globals.backtraces g' = Globals.backtraces g ->
  length (Globals.pp_infos g') = length (Globals.pp_infos g) ->
  Globals.heap g' = Globals.heap g ->
  pp_index_inv g -> pp_index_inv g'.
Proof.
  unfold pp_index_inv. intros -> -> -> (H1 & H2 & H3). auto.
Qed.

Lemma idx_new_backtrace (g g1 : Globals.t) (stk : list Frame.t) (bt : Backtrace) :
  new_backtrace g stk = Some (g1, bt) -> pp_index_inv g -> pp_index_inv g1.
Proof.
  intros H. apply new_backtrace_Some in H as [f ->]. apply idx_same; reflexivity.
Qed.

Lemma idx_get_pp_info (g : Globals.t) (bt : Backtrace) (new : PpInfo.t) :
  pp_index_inv g ->
  pp_index_inv (Globals.get_pp_info g bt new).1 /\
  ((Globals.get_pp_info g bt new).2 < length (Globals.pp_infos (Globals.get_pp_info g bt new).1))%nat.
Proof.
  intros (H1 & H2 & H3). unfold Globals.get_pp_info.
  destruct (bt_lookup (Globals.backtraces g) bt) as [i|] eqn:E; simpl.
  - split; [split; [|split]; assumption|].
    apply bt_lookup_Some_snd in E. rewrite H1, elem_of_seq in E. lia.
  - unfold pp_index_inv; simpl. rewrite length_app. simpl. split; [|lia]. split; [|split].
    + rewrite map_app, H1. simpl.
      replace (length (Globals.pp_infos g) + 1)%nat with (S (length (Globals.pp_infos g))) by lia.
      rewrite seq_S. reflexivity.
    + rewrite map_app. apply NoDup_app. split; [exact H2|]. split; [|apply NoDup_singleton].
      intros x Hx Hx'. apply list_elem_of_singleton in Hx'. subst x. simpl in Hx.
      exact (bt_lookup_None_ips _ _ E Hx).
    + intros h Hh. eapply map_Forall_impl; [exact (H3 h Hh)|]. simpl. intros _ lb Hlb. lia.
Qed.

Lemma idx_record_block (g g' : Globals.t) (ptr : Z) (idx : nat) (now : Z) :
  Globals.record_block g ptr idx now = Some g' ->
  (idx < length (Globals.pp_infos g))%nat -> pp_index_inv g -> pp_index_inv g'.
Proof.
  intros H Hlt (H1 & H2 & H3). apply record_block_Some in H as (h & Hh & _ & ->).
  split; [exact H1|]. split; [exact H2|]. simpl. intros h' [= <-].
  apply map_Forall_insert_2; [exact Hlt|exact (H3 h Hh)].
Qed.

Lemma raise_counts_live (h : HeapGlobals.t) (live : gmap Z LiveBlock.t) (cb cby now : Z) :
  HeapGlobals.live_blocks (raise_counts h live cb cby now) = live.
Proof. unfold raise_counts. destruct (_ <=? _); reflexivity. Qed.

Lemma idx_update_counts_for_alloc (g g' : Globals.t) (idx : nat) (size : Z)
    (delta : option Delta) (now : Z) :
  Globals.update_counts_for_alloc g idx size delta now = Some g' ->
  pp_index_inv g -> pp_index_inv g'.
Proof.
  intros H (H1 & H2 & H3).
  apply update_counts_for_alloc_Some in H
    as (h & tb & tby & cb & cby & p & p' & Hh & _ & _ & _ & _ & _ & ->).
  unfold pp_index_inv; simpl. rewrite length_insert.
  split; [exact H1|]. split; [exact H2|]. intros h' [= <-].
  rewrite raise_counts_live. exact (H3 h Hh).
Qed.

Lemma idx_update_counts_for_dealloc (g g' : Globals.t) (idx : nat) (size dur : Z) :
  Globals.update_counts_for_dealloc g idx size dur = Some g' ->
  pp_index_inv g -> pp_index_inv g'.
Proof.
  intros H (H1 & H2 & H3).
  apply update_counts_for_dealloc_Some in H as (h & cb & cby & p & p' & Hh & _ & _ & _ & _ & ->).
  unfold pp_index_inv; simpl. rewrite length_insert.
  split; [exact H1|]. split; [exact H2|]. intros h' [= <-]. exact (H3 h Hh).
Qed.

Lemma idx_peak_if (g g1 : Globals.t) (b : bool) :
  (if b then Globals.check_for_global_peak g else Some g) = Some g1 ->
  pp_index_inv g -> pp_index_inv g1.
Proof.
  intros H. apply peak_if_Some in H as (pps & -> & Hc). apply idx_same; try reflexivity.
  simpl. rewrite <- (length_map pp_counters pps), Hc, length_map. reflexivity.
Qed.

Lemma idx_delete (g : Globals.t) (h : HeapGlobals.t) (q : Z) :
  Globals.heap g = Some h -> pp_index_inv g ->
  pp_index_inv (Globals.set_heap g (Some (HeapGlobals.set_live_blocks h
    (delete q (HeapGlobals.live_blocks h))))).
Proof.
  intros Hh (H1 & H2 & H3). split; [exact H1|]. split; [exact H2|].
  simpl. intros h' [= <-]. apply map_Forall_delete. exact (H3 h Hh).
Qed.

Lemma gstep_idx (e : Event) (g g' : Globals.t) :
  gstep e g g' -> pp_index_inv g -> pp_index_inv g'.
Proof.
  intros Hs Hi. destruct Hs.
  - exact Hi.
  - apply (idx_new_backtrace _ _ _ _ H0) in Hi.
    destruct (idx_get_pp_info g1 bt PpInfo.new_heap Hi) as [Hi2 Hlt].
    rewrite H1 in Hi2, Hlt. simpl in Hi2, Hlt.
    eapply idx_update_counts_for_alloc; [exact H3|].
    eapply idx_record_block; eauto.
  - exact Hi.
  - apply (idx_peak_if _ _ _ H0) in Hi.
    assert (Hlt : (LiveBlock.pp_info_idx lb < length (Globals.pp_infos g1))%nat)
      by (destruct Hi as (_ & _ & H3'); exact (H3' h H1 q lb H2)).
    apply (idx_delete _ _ q H1) in Hi.
    eapply idx_update_counts_for_alloc; [exact H4|].
    eapply idx_record_block; [exact H3| |exact Hi]. exact Hlt.
  - apply (idx_peak_if _ _ _ H0) in Hi. apply (idx_delete _ _ q H1) in Hi.
    apply (idx_new_backtrace _ _ _ _ H3) in Hi.
    destruct (idx_get_pp_info g2 bt PpInfo.new_heap Hi) as [Hi2 Hlt].
    rewrite H4 in Hi2, Hlt. simpl in Hi2, Hlt.
    eapply idx_update_counts_for_alloc; [exact H6|].
    eapply idx_record_block; eauto.
  - apply (idx_delete _ _ q H) in Hi. apply (idx_peak_if _ _ true H1) in Hi.
    eapply idx_update_counts_for_dealloc; eauto.
  - apply idx_delete; assumption.
Qed.

Lemma gsteps_idx (es : list Event) (g g' : Globals.t) :
  gsteps es g g' -> pp_index_inv g -> pp_index_inv g'.
Proof.
  induction 1 as [g|e es g g1 g2 Hs _ IH]; [auto|].
  intros Hi. apply IH. exact (gstep_idx _ _ _ Hs Hi).
Qed.

(** Backtrace lengths. *)
Lemma new_backtrace_Some_bt (g g1 : Globals.t) (stk : list Frame.t) (bt : Backtrace) :
  new_backtrace g stk = Some (g1, bt) ->
  exists ftt, bt = new_backtrace_inner (Globals.trim_backtraces g1) ftt stk.
Proof.
  unfold new_backtrace. intros H.
  destruct (match Globals.frames_to_trim g with
            | Some _ => Some g
            | None => _ end) as [g0|]; simpl in H; [|discriminate].
  destruct (Globals.frames_to_trim g0) as [ftt|]; simpl in H; [|discriminate].
  injection H as <- <-. eauto.
Qed.

Lemma bt_same (n : nat) (g g' : Globals.t) :
  Globals.trim_backtraces g' = Globals.trim_backtraces g ->
  Globals.backtraces g' = Globals.backtraces g ->
  bt_len_inv n g -> bt_len_inv n g'.
Proof. unfold bt_len_inv. intros -> -> H. exact H. Qed.

Lemma bt_new_backtrace (n : nat) (g g1 : Globals.t) (stk : list Frame.t) (bt : Backtrace) :
  (0 < n)%nat -> new_backtrace g stk = Some (g1, bt) -> bt_len_inv n g ->
  bt_len_inv n g1 /\ (length (frames bt) <= n)%nat.
Proof.
  intros Hn H Hi.
  pose proof (new_backtrace_Some_bt _ _ _ _ H) as [ftt ->].
  apply new_backtrace_Some in H as [f ->].
  split; [apply bt_same with (g := g); [reflexivity|reflexivity|exact Hi]|].
  destruct Hi as [Ht _]. simpl. rewrite Ht. unfold new_backtrace_inner; simpl.
  destruct (trace_frames_trimmed n ftt stk [] Hn) as (kept & -> & _ & _ & Hl).
  exact Hl.
Qed.

Lemma bt_get_pp_info (n : nat) (g : Globals.t) (bt : Backtrace) (new : PpInfo.t) :
  (length (frames bt) <= n)%nat -> bt_len_inv n g ->
  bt_len_inv n (Globals.get_pp_info g bt new).1.
Proof.
  intros Hl [Ht Hf]. unfold Globals.get_pp_info.
  destruct (bt_lookup (Globals.backtraces g) bt); simpl; [split; assumption|].
  split; [exact Ht|]. apply Forall_app. split; [exact Hf|]. constructor; [exact Hl|constructor].
Qed.

Lemma bt_record_block (n : nat) (g g' : Globals.t) (ptr : Z) (idx : nat) (now : Z) :
  Globals.record_block g ptr idx now = Some g' -> bt_len_inv n g -> bt_len_inv n g'.
Proof.
  intros H. apply record_block_Some in H as (h & _ & _ & ->). apply bt_same; reflexivity.
Qed.

Lemma bt_update_counts_for_alloc (n : nat) (g g' : Globals.t) (idx : nat) (size : Z)
    (delta : option Delta) (now : Z) :
  Globals.update_counts_for_alloc g idx size delta now = Some g' ->
  bt_len_inv n g -> bt_len_inv n g'.
Proof.
  intros H.
  apply update_counts_for_alloc_Some in H
    as (h & tb & tby & cb & cby & p & p' & _ & _ & _ & _ & _ & _ & ->).
  apply bt_same; reflexivity.
Qed.

Lemma bt_update_counts_for_dealloc (n : nat) (g g' : Globals.t) (idx : nat) (size dur : Z) :
  Globals.update_counts_for_dealloc g idx size dur = Some g' ->
  bt_len_inv n g -> bt_len_inv n g'.
Proof.
  intros H.
  apply update_counts_for_dealloc_Some in H as (h & cb & cby & p & p' & _ & _ & _ & _ & _ & ->).
  apply bt_same; reflexivity.
Qed.

Lemma bt_peak_if (n : nat) (g g1 : Globals.t) (b : bool) :
  (if b then Globals.check_for_global_peak g else Some g) = Some g1 ->
  bt_len_inv n g -> bt_len_inv n g1.
Proof.
  intros H. apply peak_if_Some in H as (pps & -> & _). apply bt_same; reflexivity.
Qed.

Lemma gstep_bt (n : nat) (e : Event) (g g' : Globals.t) :
  (0 < n)%nat -> gstep e g g' -> bt_len_inv n g -> bt_len_inv n g'.
Proof.
  intros Hn Hs Hi. destruct Hs.
  - exact Hi.
  - destruct (bt_new_backtrace n _ _ _ _ Hn H0 Hi) as [Hi1 Hl].
    pose proof (bt_get_pp_info n g1 bt PpInfo.new_heap Hl Hi1) as Hi2.
    rewrite H1 in Hi2. simpl in Hi2.
    eapply bt_update_counts_for_alloc; [exact H3|]. eapply bt_record_block; eauto.
  - exact Hi.
  - apply (bt_peak_if n _ _ _ H0) in Hi.
    eapply bt_update_counts_for_alloc; [exact H4|]. eapply bt_record_block; [exact H3|].
    apply bt_same with (g := g1); [reflexivity|reflexivity|exact Hi].
  - apply (bt_peak_if n _ _ _ H0) in Hi.
    assert (Hi' : bt_len_inv n (Globals.set_heap g1 (Some (HeapGlobals.set_live_blocks h
                    (delete q (HeapGlobals.live_blocks h))))))
      by (apply bt_same with (g := g1); [reflexivity|reflexivity|exact Hi]).
    destruct (bt_new_backtrace n _ _ _ _ Hn H3 Hi') as [Hi1 Hl].
    pose proof (bt_get_pp_info n g2 bt PpInfo.new_heap Hl Hi1) as Hi2.
    rewrite H4 in Hi2. simpl in Hi2.
    eapply bt_update_counts_for_alloc; [exact H6|]. eapply bt_record_block; eauto.
  - eapply bt_update_counts_for_dealloc; [exact H2|].
    apply (bt_peak_if n _ _ true H1). apply bt_same with (g := g); [reflexivity|reflexivity|exact Hi].
  - apply bt_same with (g := g); [reflexivity|reflexivity|exact Hi].
Qed.

Lemma gsteps_bt (n : nat) (es : list Event) (g g' : Globals.t) :
  (0 < n)%nat -> gsteps es g g' -> bt_len_inv n g -> bt_len_inv n g'.
Proof.
  intros Hn. induction 1 as [g|e es g g1 g2 Hs _ IH]; [auto|].
  intros Hi. apply IH. exact (gstep_bt n _ _ _ Hn Hs Hi).
Qed.

Lemma build_Running (w0 w1 : World) (b : ProfilerBuilder) (stk : list Frame.t) (now : Z) :
  build w0 b stk now = (Returned tt, w1) ->
  ignoring w1 = false /\ poisoned w1 = false /\
  exists file_name, phase w1 = Running (Globals.new (b_testing b) file_name
    (b_trim_backtraces b) (b_eprint_json b)
    (if negb (ad_hoc b) then Some (HeapGlobals.new now) else None) stk now).
Proof.
  unfold build. intros H.
  destruct (ignoring w0) eqn:Hi; [discriminate|].
  destruct (poisoned w0) eqn:Hp; [discriminate|].
  destruct (phase w0); [|discriminate|discriminate].
  injection H as <-. split; [exact Hi|]. split; [exact Hp|]. eexists. reflexivity.
Qed.

Lemma heap_run_gsteps (w0 w1 : World) (b : ProfilerBuilder) (stk : list Frame.t) (now : Z)
    (es : list Event) (ws : list World) :
  build w0 b stk now = (Returned tt, w1) -> ad_hoc b = false -> run w1 es = Some ws ->
  forall k wk, (w1 :: ws) !! k = Some wk ->
  exists g0 gk hk, phase w1 = Running g0 /\ phase wk = Running gk /\
    Globals.heap gk = Some hk /\ ignoring wk = false /\ poisoned wk = false /\
    gsteps (take k es) g0 gk.
Proof.
  intros Hb Ha Hr k wk Hk.
  destruct (build_Running _ _ _ _ _ Hb) as (Hi & Hp & fn & Hph).
  rewrite Ha in Hph. simpl in Hph.
  destruct (run_gsteps w1 _ _ es ws Hi Hp Hph eq_refl Hr k wk Hk)
    as (gk & hk & H1 & H2 & H3 & H4 & H5).
  exists (Globals.new (b_testing b) fn (b_trim_backtraces b) (b_eprint_json b)
            (Some (HeapGlobals.new now)) stk now), gk, hk. auto 6.
Qed.

(** In a heap profiler, at every point of a run of intercepted events,
    [HeapStats::get] returns, and its [total_blocks] and [total_bytes] are
    the number of non-null [alloc] and [realloc] results so far and the sum
    of their requested sizes; [dealloc] and null results count nothing. *)
Theorem heap_stats_totals (w0 w1 : World) (b : ProfilerBuilder) (stk : list Frame.t)
    (now : Z) (es : list Event) (ws : list World) :
  build w0 b stk now = (Returned tt, w1) -> ad_hoc b = false -> run w1 es = Some ws ->
  forall k wk, (w1 :: ws) !! k = Some wk ->
  exists s, HeapStats_get wk = (Returned s, wk) /\
    HeapStats.total_blocks s = events_blocks (take k es) /\
    HeapStats.total_bytes s = events_bytes (take k es).
Proof.
  intros Hb Ha Hr k wk Hk.
  destruct (heap_run_gsteps _ _ _ _ _ _ _ Hb Ha Hr k wk Hk)
    as (g0 & gk & hk & Hph0 & Hph & Hh & Hi & Hp & Hs).
  destruct (build_Running _ _ _ _ _ Hb) as (_ & _ & fn & Hph0').
  rewrite Hph0 in Hph0'. injection Hph0' as ->.
  apply gsteps_tot in Hs as (Htb & Htby & _).
  unfold HeapStats_get. rewrite Hi, Hp, Hph. unfold Globals.get_heap_stats. rewrite Hh.
  eexists. split; [reflexivity|]. simpl. simpl in Htb, Htby. lia.
Qed.

(** In a heap profiler, at every point of a run, the [total_blocks] and
    [total_bytes] of the program points add up to the global totals. *)
Theorem pp_totals_sum (w0 w1 : World) (b : ProfilerBuilder) (stk : list Frame.t)
    (now : Z) (es : list Event) (ws : list World) :
  build w0 b stk now = (Returned tt, w1) -> ad_hoc b = false -> run w1 es = Some ws ->
  forall k wk, (w1 :: ws) !! k = Some wk ->
  exists gk, phase wk = Running gk /\
    sum_Z (map PpInfo.total_blocks (Globals.pp_infos gk)) = Globals.total_blocks gk /\
    sum_Z (map PpInfo.total_bytes (Globals.pp_infos gk)) = Globals.total_bytes gk.
Proof.
  intros Hb Ha Hr k wk Hk.
  destruct (heap_run_gsteps _ _ _ _ _ _ _ Hb Ha Hr k wk Hk)
    as (g0 & gk & hk & Hph0 & Hph & Hh & Hi & Hp & Hs).
  destruct (build_Running _ _ _ _ _ Hb) as (_ & _ & fn & Hph0').
  rewrite Hph0 in Hph0'. injection Hph0' as ->.
  apply gsteps_tot in Hs as (Htb & Htby & Hsb & Hsby).
  exists gk. split; [exact Hph|].
  unfold pp_sum_blocks, pp_sum_bytes in *. simpl in *. lia.
Qed.

(** In a heap profiler, at every point of a run, [pp_infos] and
    [backtraces] are in one-to-one correspondence (entry [i] of [backtraces]
    holds index [i], and no two entries have the same IPs), and every live
    block's [pp_info_idx] is in range of [pp_infos]. *)
Theorem pp_index_valid (w0 w1 : World) (b : ProfilerBuilder) (stk : list Frame.t)
    (now : Z) (es : list Event) (ws : list World) :
  build w0 b stk now = (Returned tt, w1) -> ad_hoc b = false -> run w1 es = Some ws ->
  forall k wk, (w1 :: ws) !! k = Some wk ->
  exists gk, phase wk = Running gk /\ pp_index_inv gk.
Proof.
  intros Hb Ha Hr k wk Hk.
  destruct (heap_run_gsteps _ _ _ _ _ _ _ Hb Ha Hr k wk Hk)
    as (g0 & gk & hk & Hph0 & Hph & Hh & Hi & Hp & Hs).
  destruct (build_Running _ _ _ _ _ Hb) as (_ & _ & fn & Hph0').
  rewrite Hph0 in Hph0'. injection Hph0' as ->.
  exists gk. split; [exact Hph|]. apply (gsteps_idx _ _ _ Hs). rewrite Ha.
  split; [reflexivity|]. split; [constructor|]. simpl. intros h [= <-].
  apply map_Forall_empty.
Qed.

(** A heap profiler built with [trim_backtraces(Some(m))] records, at every
    point of a run, only backtraces of at most [max(m, 4)] frames. *)
Theorem trim_backtraces_bound (w0 w1 : World) (b : ProfilerBuilder) (m : nat)
    (stk : list Frame.t) (now : Z) (es : list Event) (ws : list World) :
  build w0 (ProfilerBuilder_trim_backtraces b (Some m)) stk now = (Returned tt, w1) ->
  ad_hoc b = false -> run w1 es = Some ws ->
  forall k wk, (w1 :: ws) !! k = Some wk ->
  exists gk, phase wk = Running gk /\
    Forall (fun kv => (length (frames kv.1) <= Nat.max m 4)%nat) (Globals.backtraces gk).
Proof.
  intros Hb Ha Hr k wk Hk.
  destruct (heap_run_gsteps _ _ _ _ _ _ _ Hb Ha Hr k wk Hk)
    as (g0 & gk & hk & Hph0 & Hph & Hh & Hi & Hp & Hs).
  destruct (build_Running _ _ _ _ _ Hb) as (_ & _ & fn & Hph0').
  rewrite Hph0 in Hph0'. injection Hph0' as ->.
  exists gk. split; [exact Hph|].
  assert (Hn : (0 < Nat.max m 4)%nat) by lia.
  apply (gsteps_bt _ _ _ _ Hn Hs). split; [reflexivity|constructor].
Qed.

Lemma Globals_update_counts_for_ad_hoc_event_Returned (g g' : Globals.t) (idx : nat)
    (weight : Z) :
  Globals_update_counts_for_ad_hoc_event g idx weight = Returned g' ->
  tot_step g g' 1 weight /\ Globals.heap g' = Globals.heap g.
Proof.
  unfold Globals_update_counts_for_ad_hoc_event, add_or_panic. intros H.
  destruct (Globals.heap g) eqn:Eh; [discriminate|].
  destruct (add_usize (Globals.total_blocks g) 1) as [tb|] eqn:E1; [|discriminate].
  destruct (add_usize (Globals.total_bytes g) weight) as [tby|] eqn:E2; [|discriminate].
  destruct (Globals.pp_infos g !! idx) as [p|] eqn:Ep; [|discriminate].
  unfold PpInfo_update_counts_for_ad_hoc_event, add_or_panic in H.
  destruct (PpInfo.heap p); [discriminate|].
  destruct (add_usize (PpInfo.total_blocks p) 1) as [ptb|] eqn:E3; [|discriminate].
  destruct (add_usize (PpInfo.total_bytes p) weight) as [ptby|] eqn:E4; [|discriminate].
  injection H as <-.
  apply add_usize_Some in E1 as [-> _]. apply add_usize_Some in E2 as [-> _].
  apply add_usize_Some in E3 as [E3 _]. apply add_usize_Some in E4 as [E4 _].
  split; [|reflexivity].
  unfold tot_step, pp_sum_blocks, pp_sum_bytes; simpl.
  rewrite !(sum_Z_insert _ _ _ p _ Ep). simpl. lia.
Qed.

(** An [ad_hoc_event(weight)] that returns while an ad hoc profiler runs adds
    one event and [weight] units to the global totals and to the per-PP
    sums, and [AdHocStats::get] then reports the new totals. *)
Theorem ad_hoc_event_counts (w w' : World) (g : Globals.t) (weight : Z) (stk : list Frame.t) :
  phase w = Running g -> Globals.heap g = None ->
  ad_hoc_event w weight stk = (Returned tt, w') ->
  exists g', phase w' = Running g' /\ tot_step g g' 1 weight /\
    AdHocStats_get w' =
      (Returned (AdHocStats.mk (Globals.total_blocks g + 1) (Globals.total_bytes g + weight)), w').
Proof.
  unfold ad_hoc_event. intros Hph Hh H.
  destruct (ignoring w) eqn:Hi; [discriminate|].
  destruct (poisoned w) eqn:Hp; [discriminate|].
  rewrite Hph, Hh in H.
  destruct (new_backtrace g stk) as [[g1 bt]|] eqn:E1; [|discriminate].
  destruct (Globals.get_pp_info g1 bt PpInfo.new_ad_hoc) as [g2 idx] eqn:E2.
  destruct (Globals_update_counts_for_ad_hoc_event g2 idx weight) as [g3|m] eqn:E3;
    [|discriminate].
  injection H as <-.
  pose proof (tot_new_backtrace _ _ _ _ E1) as T1.
  pose proof (tot_get_pp_info g1 bt PpInfo.new_ad_hoc eq_refl eq_refl) as T2.
  pose proof (get_pp_info_cases g1 bt PpInfo.new_ad_hoc) as Hc.
  rewrite E2 in T2, Hc. simpl in T2, Hc.
  apply new_backtrace_Some in E1 as [f ->].
  apply Globals_update_counts_for_ad_hoc_event_Returned in E3 as [T3 Hh3].
  assert (Hh2 : Globals.heap g2 = None) by (destruct Hc as [-> | ->]; exact Hh).
  exists g3. split; [reflexivity|]. split; [unfold tot_step in *; lia|].
  unfold AdHocStats_get; simpl. rewrite Hi, Hp. unfold Globals.get_ad_hoc_stats.
  rewrite Hh3, Hh2. f_equal. f_equal. f_equal; unfold tot_step in *; simpl in *; lia.
Qed.

(** Unless an ad hoc profiler is running, [ad_hoc_event] returns and
    changes nothing. *)
Theorem ad_hoc_event_inert (w : World) (weight : Z) (stk : list Frame.t) :
  ignoring w = false -> poisoned w = false ->
  (forall g, phase w = Running g -> Globals.heap g <> None) ->
  ad_hoc_event w weight stk = (Returned tt, w).
Proof.
  unfold ad_hoc_event. intros Hi Hp Hm. rewrite Hi, Hp.
  destruct (phase w) as [|g|]; try reflexivity.
  destruct (Globals.heap g) eqn:Eh; [reflexivity|].
  exfalso. exact (Hm g eq_refl Eh).
Qed.

(** Unless a heap profiler is running, an intercepted [alloc], [realloc] or
    [dealloc] that does not abort leaves the world unchanged. *)
Theorem heap_events_inert (w w' : World) (e : Event) :
  (forall g, phase w = Running g -> Globals.heap g = None) ->
  step w e = Some w' -> w' = w.
Proof.
  intros Hm. destruct e as [size p stk now|q old_size new_size p stk now|q size now];
    simpl; unfold alloc, realloc, dealloc.
  - destruct (ignoring w); [intros [= <-]; reflexivity|].
    destruct (poisoned w); [discriminate|].
    destruct (p =? 0); [intros [= <-]; reflexivity|].
    destruct (phase w) as [|g|] eqn:Eph; [intros [= <-]; reflexivity| |intros [= <-]; reflexivity].
    rewrite (Hm g eq_refl). intros [= <-]. reflexivity.
  - destruct (ignoring w); [intros [= <-]; reflexivity|].
    destruct (poisoned w); [discriminate|].
    destruct (p =? 0); [intros [= <-]; reflexivity|].
    destruct (phase w) as [|g|] eqn:Eph; [intros [= <-]; reflexivity| |intros [= <-]; reflexivity].
    rewrite (Hm g eq_refl). intros [= <-]. reflexivity.
  - destruct (ignoring w); [intros [= <-]; reflexivity|].
    destruct (poisoned w); [discriminate|].
    destruct (phase w) as [|g|] eqn:Eph; [intros [= <-]; reflexivity| |intros [= <-]; reflexivity].
    rewrite (Hm g eq_refl). intros [= <-]. reflexivity.
Qed.

(** Dropping a [Profiler] that is running or has asserted returns, sets the
    phase back to [Ready] (so a new profiler can be built), and writes a
    profile exactly when a non-testing profiler was running. *)
Theorem drop_finishes (w : World) :
  ignoring w = false -> poisoned w = false -> phase w <> Ready ->
  exists w', drop_inner w = (Returned tt, w') /\
    phase w' = Ready /\ ignoring w' = false /\ poisoned w' = false /\
    emitted w' = emitted w ++
      match phase w with
      | Running g => if Globals.testing g then [] else [g]
      | _ => []
      end /\
    forall b stk now, fst (build w' b stk now) = Returned tt.
Proof.
  unfold drop_inner. intros Hi Hp Hph. rewrite Hi, Hp.
  destruct (phase w) as [|g|]; [congruence| |].
  - destruct (Globals.testing g); simpl.
    + eexists. split; [reflexivity|]. simpl. rewrite app_nil_r.
      repeat split; auto; intros b stk now; unfold build; simpl; rewrite ?Hi, ?Hp; reflexivity.
    + eexists. split; [reflexivity|]. simpl.
      repeat split; auto; intros b stk now; unfold build; simpl; rewrite ?Hi, ?Hp; reflexivity.
  - eexists. split; [reflexivity|]. simpl. rewrite app_nil_r.
    repeat split; auto; intros b stk now; unfold build; simpl; rewrite ?Hi, ?Hp; reflexivity.
Qed.

(** For a running testing profiler, [check_assert_condition] followed by the
    drop of the profiler writes the profile once if the condition fails
    (at the assertion) and not at all if it holds. *)
Theorem assert_then_drop (w : World) (g : Globals.t) (cond : bool) :
  ignoring w = false -> poisoned w = false -> phase w = Running g ->
  Globals.testing g = true ->
  let '(r, w2) := check_assert_condition w cond in
  let '(r', w3) := drop_inner w2 in
  r = Returned (negb cond) /\ r' = Returned tt /\ phase w3 = Ready /\
  emitted w3 = emitted w ++ (if cond then [] else [g]).
Proof.
  intros Hi Hp Hph Ht. unfold check_assert_condition. rewrite Hi, Hp, Hph, Ht. simpl.
  destruct cond; simpl; unfold drop_inner; simpl.
  - rewrite ?Hi, ?Hp, ?Hph, ?Ht. simpl. rewrite app_nil_r. repeat split; reflexivity.
  - rewrite ?Hi, ?Hp. repeat split; reflexivity.
Qed.

(** ** Witnesses of the further properties *)

Lemma add_assign_delta_witness :
  0 <= 5 < WORD /\
  add_delta 5 (Delta_new 10 3) =
    if (0 <=? 5 + 3 - 10) && (5 + 3 - 10 <? WORD) then Some (5 + 3 - 10) else None.
Proof.
  assert (Hx : 0 <= 5 < WORD) by (unfold WORD; lia).
  split; [exact Hx|]. exact (add_assign_delta 5 10 3 Hx).
Defined.

Lemma new_backtrace_inner_trimmed_witness :
  (0 < 2)%nat /\
  let fs := frames (new_backtrace_inner (Some 2%nat) ∅ stk_a) in
  (length fs <= 2)%nat /\ fs `sublist_of` stk_a /\ Forall (fun f => (∅ : gmap Z TB) !! Frame.ip f = None) fs.
Proof.
  assert (Hn : (0 < 2)%nat) by lia.
  split; [exact Hn|]. exact (new_backtrace_inner_trimmed 2 ∅ stk_a Hn).
Defined.

Lemma finish_frame_table_witness :
  Forall (fun kv => (kv.2 < length (Globals.pp_infos g_demo))%nat) (Globals.backtraces g_demo) /\
  exists pps ftbl, finish_frames frame_name g_demo = Some (pps, ftbl) /\
    ftbl !! 0%nat = Some "[root]" /\ NoDup ftbl /\
    Forall2 (fun kv pj => exists p fs, Globals.pp_infos g_demo !! kv.2 = Some p /\
               pj = PpInfoJson.new p fs /\
               map (fun i => ftbl !! i) fs =
                 map Some (shown_frames frame_name (finish_first_symbol g_demo kv.1) kv.1))
      (Globals.backtraces g_demo) pps.
Proof.
  assert (H : Forall (fun kv => (kv.2 < length (Globals.pp_infos g_demo))%nat)
                (Globals.backtraces g_demo))
    by (vm_compute; repeat constructor).
  split; [exact H|]. exact (finish_frame_table frame_name g_demo H).
Defined.

Lemma heap_stats_totals_witness :
  build world_ready builder stk_start 0 = (Returned tt, world_heap) /\
  ad_hoc builder = false /\ run world_heap es_demo = Some ws_demo /\
  forall k wk, (world_heap :: ws_demo) !! k = Some wk ->
  exists s, HeapStats_get wk = (Returned s, wk) /\
    HeapStats.total_blocks s = events_blocks (take k es_demo) /\
    HeapStats.total_bytes s = events_bytes (take k es_demo).
Proof.
  assert (Hb : build world_ready builder stk_start 0 = (Returned tt, world_heap))
    by (vm_compute; reflexivity).
  assert (Ha : ad_hoc builder = false) by reflexivity.
  assert (Hr : run world_heap es_demo = Some ws_demo) by (vm_compute; reflexivity).
  split; [exact Hb|split; [exact Ha|split; [exact Hr|]]].
  exact (heap_stats_totals world_ready world_heap builder stk_start 0 es_demo ws_demo Hb Ha Hr).
Defined.

Lemma pp_totals_sum_witness :
  build world_ready builder stk_start 0 = (Returned tt, world_heap) /\
  ad_hoc builder = false /\ run world_heap es_demo = Some ws_demo /\
  forall k wk, (world_heap :: ws_demo) !! k = Some wk ->
  exists gk, phase wk = Running gk /\
    sum_Z (map PpInfo.total_blocks (Globals.pp_infos gk)) = Globals.total_blocks gk /\
    sum_Z (map PpInfo.total_bytes (Globals.pp_infos gk)) = Globals.total_bytes gk.
Proof.
  assert (Hb : build world_ready builder stk_start 0 = (Returned tt, world_heap))
    by (vm_compute; reflexivity).
  assert (Ha : ad_hoc builder = false) by reflexivity.
  assert (Hr : run world_heap es_demo = Some ws_demo) by (vm_compute; reflexivity).
  split; [exact Hb|split; [exact Ha|split; [exact Hr|]]].
  exact (pp_totals_sum world_ready world_heap builder stk_start 0 es_demo ws_demo Hb Ha Hr).
Defined.

Lemma pp_index_valid_witness :
  build world_ready builder stk_start 0 = (Returned tt, world_heap) /\
  ad_hoc builder = false /\ run world_heap es_demo = Some ws_demo /\
  forall k wk, (world_heap :: ws_demo) !! k = Some wk ->
  exists gk, phase wk = Running gk /\ pp_index_inv gk.
Proof.
  assert (Hb : build world_ready builder stk_start 0 = (Returned tt, world_heap))
    by (vm_compute; reflexivity).
  assert (Ha : ad_hoc builder = false) by reflexivity.
  assert (Hr : run world_heap es_demo = Some ws_demo) by (vm_compute; reflexivity).
  split; [exact Hb|split; [exact Ha|split; [exact Hr|]]].
  exact (pp_index_valid world_ready world_heap builder stk_start 0 es_demo ws_demo Hb Ha Hr).
Defined.

Lemma trim_backtraces_bound_witness :
  build world_ready (ProfilerBuilder_trim_backtraces builder (Some 2%nat)) stk_start 0 =
    (Returned tt, world_trim) /\
  ad_hoc builder = false /\ run world_trim es_demo = Some ws_trim /\
  forall k wk, (world_trim :: ws_trim) !! k = Some wk ->
  exists gk, phase wk = Running gk /\
    Forall (fun kv => (length (frames kv.1) <= Nat.max 2 4)%nat) (Globals.backtraces gk).
Proof.
  assert (Hb : build world_ready (ProfilerBuilder_trim_backtraces builder (Some 2%nat))
                 stk_start 0 = (Returned tt, world_trim))
    by (vm_compute; reflexivity).
  assert (Ha : ad_hoc builder = false) by reflexivity.
  assert (Hr : run world_trim es_demo = Some ws_trim) by (vm_compute; reflexivity).
  split; [exact Hb|split; [exact Ha|split; [exact Hr|]]].
  exact (trim_backtraces_bound world_ready world_trim builder 2 stk_start 0 es_demo ws_trim
           Hb Ha Hr).
Defined.

Lemma ad_hoc_event_counts_witness :
  phase world_ad_hoc = Running g_ad_hoc /\ Globals.heap g_ad_hoc = None /\
  ad_hoc_event world_ad_hoc 7 stk_a = (Returned tt, snd (ad_hoc_event world_ad_hoc 7 stk_a)) /\
  exists g', phase (snd (ad_hoc_event world_ad_hoc 7 stk_a)) = Running g' /\
    tot_step g_ad_hoc g' 1 7 /\
    AdHocStats_get (snd (ad_hoc_event world_ad_hoc 7 stk_a)) =
      (Returned (AdHocStats.mk (Globals.total_blocks g_ad_hoc + 1)
                  (Globals.total_bytes g_ad_hoc + 7)),
       snd (ad_hoc_event world_ad_hoc 7 stk_a)).
Proof.
  assert (Hph : phase world_ad_hoc = Running g_ad_hoc) by (vm_compute; reflexivity).
  assert (Hh : Globals.heap g_ad_hoc = None) by reflexivity.
  assert (He : ad_hoc_event world_ad_hoc 7 stk_a =
               (Returned tt, snd (ad_hoc_event world_ad_hoc 7 stk_a)))
    by (vm_compute; reflexivity).
  split; [exact Hph|split; [exact Hh|split; [exact He|]]].
  exact (ad_hoc_event_counts world_ad_hoc _ g_ad_hoc 7 stk_a Hph Hh He).
Defined.

Lemma ad_hoc_event_inert_witness :
  ignoring world_heap = false /\ poisoned world_heap = false /\
  (forall g, phase world_heap = Running g -> Globals.heap g <> None) /\
  ad_hoc_event world_heap 7 stk_a = (Returned tt, world_heap).
Proof.
  assert (Hi : ignoring world_heap = false) by reflexivity.
  assert (Hp : poisoned world_heap = false) by reflexivity.
  assert (Hm : forall g, phase world_heap = Running g -> Globals.heap g <> None).
  { intros g Hg. vm_compute in Hg. injection Hg as <-. discriminate. }
  split; [exact Hi|split; [exact Hp|split; [exact Hm|]]].
  exact (ad_hoc_event_inert world_heap 7 stk_a Hi Hp Hm).
Defined.

Lemma heap_events_inert_witness :
  (forall g, phase world_ad_hoc = Running g -> Globals.heap g = None) /\
  step world_ad_hoc (EvAlloc 16 4096 stk_a 1) = Some world_ad_hoc /\
  world_ad_hoc = world_ad_hoc.
Proof.
  assert (Hm : forall g, phase world_ad_hoc = Running g -> Globals.heap g = None).
  { intros g Hg. vm_compute in Hg. injection Hg as <-. reflexivity. }
  assert (Hs : step world_ad_hoc (EvAlloc 16 4096 stk_a 1) = Some world_ad_hoc)
    by (vm_compute; reflexivity).
  split; [exact Hm|split; [exact Hs|]].
  exact (heap_events_inert world_ad_hoc world_ad_hoc _ Hm Hs).
Defined.

Lemma drop_finishes_witness :
  ignoring world_heap = false /\ poisoned world_heap = false /\ phase world_heap <> Ready /\
  exists w', drop_inner world_heap = (Returned tt, w') /\
    phase w' = Ready /\ ignoring w' = false /\ poisoned w' = false /\
    emitted w' = emitted world_heap ++
      match phase world_heap with
      | Running g => if Globals.testing g then [] else [g]
      | _ => []
      end /\
    forall b stk now, fst (build w' b stk now) = Returned tt.
Proof.
  assert (Hi : ignoring world_heap = false) by reflexivity.
  assert (Hp : poisoned world_heap = false) by reflexivity.
  assert (Hr : phase world_heap <> Ready) by (vm_compute; discriminate).
  split; [exact Hi|split; [exact Hp|split; [exact Hr|]]].
  exact (drop_finishes world_heap Hi Hp Hr).
Defined.

Lemma assert_then_drop_witness :
  ignoring world_testing = false /\ poisoned world_testing = false /\
  phase world_testing = Running g_testing /\ Globals.testing g_testing = true /\
  let '(r, w2) := check_assert_condition world_testing false in
  let '(r', w3) := drop_inner w2 in
  r = Returned (negb false) /\ r' = Returned tt /\ phase w3 = Ready /\
  emitted w3 = emitted world_testing ++ (if false then [] else [g_testing]).
Proof.
  assert (Hi : ignoring world_testing = false) by reflexivity.
  assert (Hp : poisoned world_testing = false) by reflexivity.
  assert (Hph : phase world_testing = Running g_testing) by (vm_compute; reflexivity).
  assert (Ht : Globals.testing g_testing = true) by reflexivity.
  split; [exact Hi|split; [exact Hp|split; [exact Hph|split; [exact Ht|]]]].
  exact (assert_then_drop world_testing g_testing false Hi Hp Hph Ht).
Defined.
